(** * SystemViz: the interactive node-graph widget of system-viz.js

    A shallow embedding of the [SystemViz] class: node layout, edge
    resolution, the click / touch / hover hit tests, the bulk buttons, the
    HUD metrics, the requestAnimationFrame loop and [destroy].

    Modelling conventions.
    - JavaScript Numbers are idealised as real numbers ([R]); the one place
      where the source can leave the finite numbers, the quotient
      [active / total] of two array lengths, is written out with [NaN] and
      [Infinity].  Where a statement turns on a rounding, the expression is
      evaluated once more in IEEE double precision: the load of the shipped
      table, and the hit test at its bound.
    - The document is a finite map from element ids to their [textContent];
      [document.getElementById] is a lookup in it.  The elements it holds
      are taken to be leaves that do not contain one another, so that
      writing the text of one leaves the others as they are.
    - Canvas drawing calls only produce pixels and are left out, except for
      what the state or the completion of a handler depends on: the per-edge
      style decision of [_drawEdges], the colour of a node that
      [_drawNodes] destructures and hands to [addColorStop], and the cursor
      style the hover listeners write.
    - A [TypeError] raised by reading a property of [undefined], or a
      [SyntaxError] raised by [addColorStop], is an abrupt completion that
      carries the state reached when it was thrown.

    The rest of the page follows in modules of its own: [Canvas] for the
    hero background of canvas.js, [Typing] and [Diagram] for the typing
    effect and the skill diagram of animations.js, and [Main] for the
    contact form and the cursor ring of main.js. *)

From Stdlib Require Import Reals Lra Lia ZArith DecimalString.
From Corelib Require PrimFloat.
From stdpp Require Import gmap strings list.

(** ** JavaScript values *)

(** A Number as far as the metrics need it. *)
Inductive Number :=
| Fin (r : R)
| NaN
| Infinity.

(** [a / t] for two array lengths. *)
Definition length_ratio (a t : nat) : Number :=
  match t, a with
  | O, O => NaN
  | O, S _ => Infinity
  | S _, _ => Fin (INR a / INR t)
  end.

Definition Number_mul (n : Number) (k : R) : Number :=
  match n with
  | Fin r => Fin (r * k)
  | NaN => NaN
  | Infinity => Infinity
  end.

(** The result of [Math.round]: an integral Number, or the argument itself
    when it is not finite. *)
Inductive Rounded :=
| Integral (z : Z)
| RoundedNaN
| RoundedInfinity.

(** [Math.round]: the closest integer, ties towards plus infinity. *)
Definition Math_round (n : Number) : Rounded :=
  match n with
  | Fin r => Integral (Int_part (r + / 2))
  | NaN => RoundedNaN
  | Infinity => RoundedInfinity
  end.

(** Template-literal conversion of a non-negative integer. *)
Definition nat_to_string (n : nat) : string :=
  NilZero.string_of_uint (Nat.to_uint n).

Definition Z_to_string (z : Z) : string :=
  NilZero.string_of_int (Z.to_int z).

Definition Rounded_to_string (l : Rounded) : string :=
  match l with
  | Integral z => Z_to_string z
  | RoundedNaN => "NaN"
  | RoundedInfinity => "Infinity"
  end.

Definition Rltb (a b : R) : bool := if Rlt_dec a b then true else false.

(** ** Abrupt completions *)

Inductive completion (A : Type) :=
| Normal (a : A)
| Throw (a : A).
Arguments Normal {A} a.
Arguments Throw {A} a.

Definition bind {A} (c : completion A) (k : A -> completion A) : completion A :=
  match c with
  | Normal a => k a
  | Throw a => Throw a
  end.

Notation "c >>> k" := (bind c k) (at level 61, left associativity).

(** The state a handler leaves behind, thrown or not. *)
Definition state_of {A} (c : completion A) : A :=
  match c with
  | Normal a => a
  | Throw a => a
  end.

Definition is_Normal {A} (c : completion A) : bool :=
  match c with
  | Normal _ => true
  | Throw _ => false
  end.

(** ** Data model *)

Record NodeData := mkNodeData {
  d_id : string;
  d_label : string;
  d_group : string
}.

Record RGB := mkRGB { rgb_r : Z; rgb_g : Z; rgb_b : Z }.

(** What [this.groupColors[group]] yields, [groupColors] being a plain
    object: a colour of the table, a member inherited from
    [Object.prototype] (a function, or the prototype itself), or
    [undefined]. *)
Inductive Color :=
| OwnColor (c : RGB)
| InheritedMember
| UndefinedColor.

Record Node := mkNode {
  n_id : string;
  n_label : string;
  n_group : string;
  n_x : R;
  n_y : R;
  n_baseX : R;
  n_baseY : R;
  n_radius : R;
  n_active : bool;
  n_pulsePhase : R;
  n_color : Color
}.

(** An endpoint is [nodeMap[id]]: an index into [nodes], or [None] when the
    lookup yields no index ([undefined], or a member inherited from
    [Object.prototype]; both make [this.nodes[...]] undefined). *)
Record Edge := mkEdge {
  e_from : option nat;
  e_to : option nat
}.

Record HudIds := mkHudIds {
  hud_active : string;
  hud_connections : string;
  hud_load : string
}.

Record DOMRect := mkRect {
  rect_left : R;
  rect_top : R;
  rect_width : R;
  rect_height : R
}.

(** The two declarative tables of the constructor. *)
Record Config := mkConfig {
  nodesData : list NodeData;
  edgesData : list (string * string)
}.

Definition shipped_nodesData : list NodeData :=
  [ mkNodeData "core" "Sistema Central" "core";
    mkNodeData "frontend" "Frontend" "software";
    mkNodeData "backend" "Backend" "software";
    mkNodeData "database" "Base de Datos" "software";
    mkNodeData "network" "Capa de Red" "infra";
    mkNodeData "security" "Seguridad" "infra";
    mkNodeData "ml" "Pipeline ML" "data";
    mkNodeData "analytics" "Análisis" "data";
    mkNodeData "iot" "Sensores IoT" "hardware";
    mkNodeData "control" "Unidad Control" "hardware";
    mkNodeData "monitoring" "Monitoreo" "ops";
    mkNodeData "deploy" "Despliegue" "ops" ].

Definition shipped_edgesData : list (string * string) :=
  [ ("core", "frontend"); ("core", "backend"); ("core", "network");
    ("core", "security"); ("core", "monitoring");
    ("frontend", "backend"); ("backend", "database");
    ("backend", "ml"); ("ml", "analytics");
    ("network", "security"); ("network", "iot");
    ("iot", "control"); ("control", "monitoring");
    ("monitoring", "deploy"); ("deploy", "backend");
    ("analytics", "monitoring"); ("database", "analytics") ].

Definition shipped : Config := mkConfig shipped_nodesData shipped_edgesData.

(** The property names every plain object inherits. *)
Definition Object_prototype_names : list string :=
  [ "constructor"; "hasOwnProperty"; "isPrototypeOf"; "propertyIsEnumerable";
    "toLocaleString"; "toString"; "valueOf"; "__proto__";
    "__defineGetter__"; "__defineSetter__"; "__lookupGetter__";
    "__lookupSetter__" ].

Definition groupColors (g : string) : Color :=
  if String.eqb g "core" then OwnColor (mkRGB 0 255 65)
  else if String.eqb g "software" then OwnColor (mkRGB 50 220 100)
  else if String.eqb g "infra" then OwnColor (mkRGB 0 200 80)
  else if String.eqb g "data" then OwnColor (mkRGB 100 255 50)
  else if String.eqb g "hardware" then OwnColor (mkRGB 0 180 60)
  else if String.eqb g "ops" then OwnColor (mkRGB 80 255 120)
  else if existsb (String.eqb g) Object_prototype_names then InheritedMember
  else UndefinedColor.

Definition set_active (b : bool) (n : Node) : Node :=
  mkNode (n_id n) (n_label n) (n_group n) (n_x n) (n_y n) (n_baseX n)
    (n_baseY n) (n_radius n) b (n_pulsePhase n) (n_color n).

Definition set_position (px py : R) (n : Node) : Node :=
  mkNode (n_id n) (n_label n) (n_group n) px py (n_baseX n)
    (n_baseY n) (n_radius n) (n_active n) (n_pulsePhase n) (n_color n).

(** ** Layout ([_layoutNodes]) *)

(** [Math.random] is an oracle: the [k]-th call returns [random k]. *)
Section Layout.
Variable random : nat -> R.

Definition is_core (g : string) : bool := String.eqb g "core".

(** The callback of [this.nodesData.map]: node [i] of [len], with [k]
    calls of [Math.random] made so far.  The jitter draws a number only for
    a node outside the core group; the pulse phase always draws one. *)
Definition layoutNode (cx cy radius : R) (len i : nat) (data : NodeData)
    (k : nat) : Node * nat :=
  let angle := (INR i / INR len * PI * 2 - PI / 2)%R in
  let r := if is_core (d_group data) then 0%R else radius in
  let jitter :=
    if is_core (d_group data) then 0%R else ((random k - 0.5) * 30)%R in
  let k1 := if is_core (d_group data) then k else S k in
  (mkNode (d_id data) (d_label data) (d_group data)
     (cx + cos angle * (r + jitter))
     (cy + sin angle * (r + jitter))
     (cx + cos angle * (r + jitter))
     (cy + sin angle * (r + jitter))
     (if is_core (d_group data) then 28 else 22)
     false
     (random k1 * PI * 2)
     (groupColors (d_group data)),
   S k1).

Fixpoint layoutFrom (cx cy radius : R) (len i : nat) (ds : list NodeData)
    (k : nat) : list Node * nat :=
  match ds with
  | [] => ([], k)
  | data :: rest =>
      let '(n, k1) := layoutNode cx cy radius len i data k in
      let '(ns, k2) := layoutFrom cx cy radius len (S i) rest k1 in
      (n :: ns, k2)
  end.

Definition _layoutNodes (width height : R) (ds : list NodeData) (k : nat)
    : list Node * nat :=
  let cx := (width / 2)%R in
  let cy := (height / 2 - 30)%R in
  let radius := (Rmin width height * 0.32)%R in
  layoutFrom cx cy radius (length ds) 0 ds k.
End Layout.

(** ** Edge resolution ([_buildEdges]) *)

(** [nodeMap[k] = i] on a plain object: the key [__proto__] names the
    prototype accessor, and assigning a number to it stores nothing. *)
Definition nodeMap_set (m : gmap string nat) (k : string) (i : nat)
    : gmap string nat :=
  if String.eqb k "__proto__" then m else <[k := i]> m.

(** [this.nodes.forEach((n, i) => { nodeMap[n.id] = i; })]: a later node
    with the same id overwrites the earlier index. *)
Fixpoint nodeMap_from (i : nat) (ids : list string) (m : gmap string nat)
    : gmap string nat :=
  match ids with
  | [] => m
  | k :: rest => nodeMap_from (S i) rest (nodeMap_set m k i)
  end.

Definition nodeMap_of (ns : list Node) : gmap string nat :=
  nodeMap_from 0 (map n_id ns) ∅.

Definition resolveEdge (m : gmap string nat) (p : string * string) : Edge :=
  mkEdge (m !! p.1) (m !! p.2).

Definition _buildEdges (ns : list Node) (es : list (string * string))
    : list Edge :=
  map (resolveEdge (nodeMap_of ns)) es.

(** ** The instance and its browser environment *)

(** What one call of [_updateHUD] hands to the three sinks. *)
Record Snapshot := mkSnapshot {
  s_active : string;
  s_connections : string;
  s_load : string
}.

(** The fields of [this].  [hoveredNode] refers to a node object: it is kept
    as the layout generation that created the object and its index. *)
Record SystemViz := mkViz {
  canvas : bool;
  hudIds : HudIds;
  mouse : R * R;
  hoveredNode : option (nat * nat);
  animId : option nat;
  time : R;
  width : R;
  height : R;
  nodes : list Node;
  edges : list Edge
}.

(** The page around the instance: the document (element id to text
    content), the calls of [Math.random] made, the animation-frame handles
    issued and the one callback of this instance that is pending, and which
    listeners [_bindEvents] registered.  [generation], [hudLog] and [frames]
    are bookkeeping: the number of layouts built, the snapshots published
    (latest first) and the frames rendered.  [cursor] is
    [canvas.style.cursor], [None] until the instance first writes it. *)
Record Browser := mkBrowser {
  document : gmap string string;
  randomCalls : nat;
  rafIssued : nat;
  rafPending : option nat;
  bound : bool;
  activateBound : bool;
  resetBound : bool;
  generation : nat;
  hudLog : list Snapshot;
  frames : nat;
  cursor : option string
}.

Record World := mkWorld { viz : SystemViz; env : Browser }.

Definition with_nodes (ns : list Node) (w : World) : World :=
  let v := viz w in
  mkWorld (mkViz (canvas v) (hudIds v) (mouse v) (hoveredNode v) (animId v)
             (time v) (width v) (height v) ns (edges v)) (env w).

Definition with_edges (es : list Edge) (w : World) : World :=
  let v := viz w in
  mkWorld (mkViz (canvas v) (hudIds v) (mouse v) (hoveredNode v) (animId v)
             (time v) (width v) (height v) (nodes v) es) (env w).

Definition with_size (wd ht : R) (w : World) : World :=
  let v := viz w in
  mkWorld (mkViz (canvas v) (hudIds v) (mouse v) (hoveredNode v) (animId v)
             (time v) wd ht (nodes v) (edges v)) (env w).

Definition with_time (t : R) (w : World) : World :=
  let v := viz w in
  mkWorld (mkViz (canvas v) (hudIds v) (mouse v) (hoveredNode v) (animId v)
             t (width v) (height v) (nodes v) (edges v)) (env w).

Definition with_mouse (m : R * R) (w : World) : World :=
  let v := viz w in
  mkWorld (mkViz (canvas v) (hudIds v) m (hoveredNode v) (animId v)
             (time v) (width v) (height v) (nodes v) (edges v)) (env w).

Definition with_hovered (h : option (nat * nat)) (w : World) : World :=
  let v := viz w in
  mkWorld (mkViz (canvas v) (hudIds v) (mouse v) h (animId v)
             (time v) (width v) (height v) (nodes v) (edges v)) (env w).

Definition with_animId (a : option nat) (w : World) : World :=
  let v := viz w in
  mkWorld (mkViz (canvas v) (hudIds v) (mouse v) (hoveredNode v) a
             (time v) (width v) (height v) (nodes v) (edges v)) (env w).

Definition with_env (b : Browser) (w : World) : World := mkWorld (viz w) b.

Definition env_document (d : gmap string string) (b : Browser) : Browser :=
  mkBrowser d (randomCalls b) (rafIssued b) (rafPending b) (bound b)
    (activateBound b) (resetBound b) (generation b) (hudLog b) (frames b)
    (cursor b).

Definition env_layout (k : nat) (b : Browser) : Browser :=
  mkBrowser (document b) k (rafIssued b) (rafPending b) (bound b)
    (activateBound b) (resetBound b) (S (generation b)) (hudLog b) (frames b)
    (cursor b).

Definition env_raf (issued : nat) (pending : option nat) (b : Browser)
    : Browser :=
  mkBrowser (document b) (randomCalls b) issued pending (bound b)
    (activateBound b) (resetBound b) (generation b) (hudLog b) (frames b)
    (cursor b).

Definition env_listeners (a r : bool) (b : Browser) : Browser :=
  mkBrowser (document b) (randomCalls b) (rafIssued b) (rafPending b) true
    a r (generation b) (hudLog b) (frames b) (cursor b).

Definition env_published (s : Snapshot) (b : Browser) : Browser :=
  mkBrowser (document b) (randomCalls b) (rafIssued b) (rafPending b)
    (bound b) (activateBound b) (resetBound b) (generation b)
    (s :: hudLog b) (frames b) (cursor b).

Definition env_cursor (c : string) (b : Browser) : Browser :=
  mkBrowser (document b) (randomCalls b) (rafIssued b) (rafPending b)
    (bound b) (activateBound b) (resetBound b) (generation b) (hudLog b)
    (frames b) (Some c).

Definition env_frame (b : Browser) : Browser :=
  mkBrowser (document b) (randomCalls b) (rafIssued b) (rafPending b)
    (bound b) (activateBound b) (resetBound b) (generation b) (hudLog b)
    (S (frames b)) (cursor b).

(** Reduce the field accesses of a state built by the setters. *)
Ltac fields :=
  cbn [viz env canvas hudIds mouse hoveredNode animId time width height
       nodes edges document randomCalls rafIssued rafPending bound
       activateBound resetBound generation hudLog frames cursor
       with_nodes with_edges with_size with_time with_mouse with_hovered
       with_animId with_env env_document env_layout env_raf env_listeners
       env_published env_frame env_cursor].

(** ** Metrics ([_updateHUD]) *)

(** [this.nodes[i]] for an endpoint: [undefined] for a missing index. *)
Definition node_at (ns : list Node) (i : option nat) : option Node :=
  match i with
  | Some k => ns !! k
  | None => None
  end.

(** The filter predicate
    [this.nodes[e.from].active && this.nodes[e.to].active];
    [None] is the [TypeError] of reading [active] of [undefined].  The right
    operand is only evaluated when the left one is true. *)
Definition bothActive (ns : list Node) (e : Edge) : option bool :=
  match node_at ns (e_from e) with
  | None => None
  | Some a =>
      if n_active a then
        match node_at ns (e_to e) with
        | None => None
        | Some b => Some (n_active b)
        end
      else Some false
  end.

(** [this.edges.filter(...)], stopping at the first throw. *)
Fixpoint activeEdges (ns : list Node) (es : list Edge)
    : option (list Edge) :=
  match es with
  | [] => Some []
  | e :: rest =>
      match bothActive ns e with
      | None => None
      | Some b =>
          match activeEdges ns rest with
          | None => None
          | Some l => Some (if b then e :: l else l)
          end
      end
  end.

Definition load_of (active total : nat) : Rounded :=
  Math_round (Number_mul (length_ratio active total) 100).

Definition snapshot (active total activeEdgeCount : nat) : Snapshot :=
  mkSnapshot
    (nat_to_string active +:+ " / " +:+ nat_to_string total)
    (nat_to_string activeEdgeCount)
    (Rounded_to_string (load_of active total) +:+ "%").

(** [setEl]: a sink that is not in the document is skipped; one that is
    there gets the text.  The sink is a leaf of the page (see the
    conventions above): no other element's text changes with it. *)
Definition setEl (id text : string) (d : gmap string string)
    : gmap string string :=
  match d !! id with
  | Some _ => <[id := text]> d
  | None => d
  end.

Definition publish (h : HudIds) (s : Snapshot) (d : gmap string string)
    : gmap string string :=
  setEl (hud_load h) (s_load s)
    (setEl (hud_connections h) (s_connections s)
       (setEl (hud_active h) (s_active s) d)).

Definition _updateHUD (w : World) : completion World :=
  let ns := nodes (viz w) in
  let active := length (List.filter n_active ns) in
  let total := length ns in
  match activeEdges ns (edges (viz w)) with
  | None => Throw w
  | Some l =>
      let s := snapshot active total (length l) in
      Normal (with_env
                (env_published s
                   (env_document
                      (publish (hudIds (viz w)) s (document (env w)))
                      (env w)))
                w)
  end.

(** ** Rendering ([_drawEdges], [_drawNodes], [_animate]) *)

(** The three line styles of [_drawEdges]. *)
Inductive Stroke := Strong | Faint | Idle.

(** The style of one edge.  [a.active && b.active] and
    [a.active || b.active] are evaluated in this order, each reading
    [b.active] only when [a.active] does not decide it; [None] is the
    [TypeError] of reading [active] of [undefined]. *)
Definition edgeStroke (ns : list Node) (e : Edge) : option Stroke :=
  match node_at ns (e_from e) with
  | None => None
  | Some a =>
      let b := node_at ns (e_to e) in
      match (if n_active a then option_map n_active b else Some false) with
      | None => None
      | Some bothActive =>
          match (if n_active a then Some true else option_map n_active b) with
          | None => None
          | Some eitherActive =>
              Some (if bothActive then Strong
                    else if eitherActive then Faint else Idle)
          end
      end
  end.

Fixpoint _drawEdges (ns : list Node) (es : list Edge) : option (list Stroke) :=
  match es with
  | [] => Some []
  | e :: rest =>
      match edgeStroke ns e with
      | None => None
      | Some s =>
          match _drawEdges ns rest with
          | None => None
          | Some l => Some (s :: l)
          end
      end
  end.

(** The floating motion: the rendered position is rebuilt from the anchor. *)
Definition floatNode (t : R) (n : Node) : Node :=
  set_position (n_baseX n + sin (t + n_pulsePhase n) * 3)
               (n_baseY n + cos (t * 0.8 + n_pulsePhase n) * 3) n.

(** Every node moved: what a loop of [_drawNodes] that runs to its end
    leaves. *)
Definition floated (t : R) (ns : list Node) : list Node :=
  map (floatNode t) ns.

(** Whether drawing a node completes.  It starts with
    [const { r, g, b } = node.color], which throws a [TypeError] when the
    colour is [undefined].  A member inherited from [Object.prototype]
    destructures to three undefined components; the glow of an active or
    hovered node then hands [rgba(undefined, ...)] to [addColorStop], which
    throws a [SyntaxError], while the assignments to [fillStyle] and
    [strokeStyle] ignore such a string. *)
Definition drawable (glow : bool) (c : Color) : bool :=
  match c with
  | OwnColor _ => true
  | InheritedMember => negb glow
  | UndefinedColor => false
  end.

(** [this.hoveredNode === node] for the node at index [i]. *)
Definition isHovered (hovered : option nat) (i : nat) : bool :=
  match hovered with
  | Some j => Nat.eqb j i
  | None => false
  end.

(** The loop of [_drawNodes] from index [i] on: each node in turn is moved
    and then drawn.  When drawing throws the loop ends there, with this node
    moved and the later ones where they were. *)
Fixpoint drawNodesFrom (t : R) (hovered : option nat) (i : nat)
    (ns : list Node) : completion (list Node) :=
  match ns with
  | [] => Normal []
  | n :: rest =>
      if drawable (n_active n || isHovered hovered i) (n_color n) then
        match drawNodesFrom t hovered (S i) rest with
        | Normal rest' => Normal (floatNode t n :: rest')
        | Throw rest' => Throw (floatNode t n :: rest')
        end
      else Throw (floatNode t n :: rest)
  end.

Definition _drawNodes (t : R) (hovered : option nat) (ns : list Node)
    : completion (list Node) :=
  drawNodesFrom t hovered 0 ns.

(** [requestAnimationFrame]: handles are positive and never reused. *)
Definition requestAnimationFrame (w : World) : World :=
  let h := S (rafIssued (env w)) in
  with_animId (Some h) (with_env (env_raf h (Some h) (env w)) w).

(** The index of the node object [this.hoveredNode] refers to, when it is
    one of the current array. *)
Definition hoveredIndex (w : World) : option nat :=
  match hoveredNode (viz w) with
  | Some (g, i) => if Nat.eqb g (generation (env w)) then Some i else None
  | None => None
  end.

Definition _animate (w : World) : completion World :=
  let w1 := with_time (time (viz w) + 0.015) w in
  match _drawEdges (nodes (viz w1)) (edges (viz w1)) with
  | None => Throw w1
  | Some _ =>
      match _drawNodes (time (viz w1)) (hoveredIndex w1) (nodes (viz w1)) with
      | Throw ns => Throw (with_nodes ns w1)
      | Normal ns =>
          let w2 := with_nodes ns w1 in
          Normal (requestAnimationFrame (with_env (env_frame (env w2)) w2))
      end
  end.

(** ** Hit testing *)

(** [Math.sqrt(dx * dx + dy * dy) < node.radius + tol], measured from the
    rendered position [x], [y], in exact arithmetic.  [hit_double] below is
    the same expression with every operation rounded as the source does. *)
Definition hit (tol mx my : R) (n : Node) : bool :=
  let dx := (mx - n_x n)%R in
  let dy := (my - n_y n)%R in
  Rltb (sqrt (dx * dx + dy * dy)) (n_radius n + tol).

Definition click_tolerance : R := 5.
Definition touch_tolerance : R := 10.

(** The loop of the click and touchstart handlers: the first node that
    passes the test is toggled and the loop breaks.  [None]: no node hit. *)
Fixpoint toggleFirstHit (tol mx my : R) (ns : list Node)
    : option (list Node) :=
  match ns with
  | [] => None
  | n :: rest =>
      if hit tol mx my n then Some (set_active (negb (n_active n)) n :: rest)
      else
        match toggleFirstHit tol mx my rest with
        | None => None
        | Some rest' => Some (n :: rest')
        end
  end.

(** The loop of [_updateHover]: the index of the first node hit. *)
Fixpoint firstHit (tol mx my : R) (ns : list Node) (i : nat) : option nat :=
  match ns with
  | [] => None
  | n :: rest =>
      if hit tol mx my n then Some i else firstHit tol mx my rest (S i)
  end.

(** [_updateHover]: the first node under the pointer becomes the hovered
    one and the cursor a pointer; with no node there, the hover is cleared
    and the cursor is the default one. *)
Definition _updateHover (w : World) : World :=
  let '(mx, my) := mouse (viz w) in
  match firstHit click_tolerance mx my (nodes (viz w)) 0 with
  | Some i =>
      with_env (env_cursor "pointer" (env w))
        (with_hovered (Some (generation (env w), i)) w)
  | None => with_env (env_cursor "default" (env w)) (with_hovered None w)
  end.

(** The click listener ([tol] 5) and the touchstart listener ([tol] 10):
    the pointer relative to the canvas, the toggle loop, and [_updateHUD]
    when a node was toggled. *)
Definition pointerDown (tol : R) (rect : DOMRect) (clientX clientY : R)
    (w : World) : completion World :=
  let mx := (clientX - rect_left rect)%R in
  let my := (clientY - rect_top rect)%R in
  match toggleFirstHit tol mx my (nodes (viz w)) with
  | Some ns => _updateHUD (with_nodes ns w)
  | None => Normal w
  end.

(** The listeners of the two buttons. *)
Definition activateAll (w : World) : completion World :=
  _updateHUD (with_nodes (map (set_active true) (nodes (viz w))) w).

Definition resetAll (w : World) : completion World :=
  _updateHUD (with_nodes (map (set_active false) (nodes (viz w))) w).

(** ** Construction, resize, teardown *)

Section Instance.
Variable random : nat -> R.
Variable cfg : Config.

(** [_resize]: the size of the canvas rectangle (the pixel size of the
    backing store and the context scale are not modelled). *)
Definition _resize (rect : DOMRect) (w : World) : World :=
  with_size (rect_width rect) (rect_height rect) w.

(** [this._layoutNodes()]: the array is rebuilt from the table. *)
Definition relayout (w : World) : World :=
  let '(ns, k) :=
    _layoutNodes random (width (viz w)) (height (viz w)) (nodesData cfg)
      (randomCalls (env w)) in
  with_nodes ns (with_env (env_layout k (env w)) w).

(** [this._buildEdges()]. *)
Definition rebuildEdges (w : World) : World :=
  with_edges (_buildEdges (nodes (viz w)) (edgesData cfg)) w.

(** The window [resize] listener: [_resize], [_layoutNodes], [_buildEdges]. *)
Definition onResize (rect : DOMRect) (w : World) : World :=
  rebuildEdges (relayout (_resize rect w)).

(** [_bindEvents]: the window and canvas listeners are registered, the
    button listeners only for the buttons the document has, and the first
    snapshot is published. *)
Definition _bindEvents (w : World) : completion World :=
  let d := document (env w) in
  _updateHUD (with_env
               (env_listeners (bool_decide (is_Some (d !! "activate-all")))
                  (bool_decide (is_Some (d !! "reset-all"))) (env w))
               w).

(** [_init]: [_resize], [_layoutNodes], [_buildEdges], [_bindEvents],
    [_animate], in this order; a throw ends it there. *)
Definition _init (rect : DOMRect) (w : World) : completion World :=
  _bindEvents (rebuildEdges (relayout (_resize rect w))) >>> _animate.

(** The page before the instance exists: a document and the number of
    animation-frame handles other scripts already took. *)
Definition fresh_env (d : gmap string string) (issued : nat) : Browser :=
  mkBrowser d 0 issued None false false false 0 [] 0 None.

(** [new SystemViz(canvasId, hudIds)].  Without the canvas element the
    constructor returns at once and the instance stays inert. *)
Definition construct (canvasId : string) (h : HudIds) (rect : DOMRect)
    (d : gmap string string) (issued : nat) : completion World :=
  let inert :=
    (* no field is assigned; nothing ever reads these placeholders except
       [animId], which is undefined *)
    mkWorld (mkViz false h (0, 0)%R None None 0%R 0%R 0%R [] [])
            (fresh_env d issued) in
  match d !! canvasId with
  | None => Normal inert
  | Some _ =>
      _init rect
        (mkWorld (mkViz true h (-1000, -1000)%R None None 0%R 0%R 0%R [] [])
                 (fresh_env d issued))
  end.

(** [destroy]: cancel the frame whose handle is in [animId], if any. *)
Definition cancelAnimationFrame (h : nat) (w : World) : World :=
  match rafPending (env w) with
  | Some p =>
      if Nat.eqb p h then with_env (env_raf (rafIssued (env w)) None (env w)) w
      else w
  | None => w
  end.

Definition destroy (w : World) : World :=
  match animId (viz w) with
  | Some (S _ as h) => cancelAnimationFrame h w
  | _ => w
  end.

(** ** Events *)

Inductive event :=
| WindowResize (rect : DOMRect)
| MouseMove (rect : DOMRect) (clientX clientY : R)
| MouseLeave
| Click (rect : DOMRect) (clientX clientY : R)
| TouchStart (rect : DOMRect) (clientX clientY : R)
| ActivateAllClick
| ResetAllClick
| AnimationFrame
| Destroy.

(** One event delivered to the page.  A listener that was never registered
    does nothing, and the frame callback runs only while it is pending. *)
Definition dispatch (ev : event) (w : World) : completion World :=
  match ev with
  | WindowResize rect =>
      if bound (env w) then Normal (onResize rect w) else Normal w
  | MouseMove rect clientX clientY =>
      if bound (env w) then
        Normal (_updateHover
                  (with_mouse (clientX - rect_left rect,
                               clientY - rect_top rect)%R w))
      else Normal w
  | MouseLeave =>
      (* the listener leaves the cursor a pointer, not the default *)
      if bound (env w) then
        Normal (with_env (env_cursor "pointer" (env w))
                  (with_hovered None (with_mouse (-1000, -1000)%R w)))
      else Normal w
  | Click rect clientX clientY =>
      if bound (env w) then pointerDown click_tolerance rect clientX clientY w
      else Normal w
  | TouchStart rect clientX clientY =>
      if bound (env w) then pointerDown touch_tolerance rect clientX clientY w
      else Normal w
  | ActivateAllClick =>
      if activateBound (env w) then activateAll w else Normal w
  | ResetAllClick =>
      if resetBound (env w) then resetAll w else Normal w
  | AnimationFrame =>
      match rafPending (env w) with
      | Some _ =>
          _animate (with_env (env_raf (rafIssued (env w)) None (env w)) w)
      | None => Normal w
      end
  | Destroy => Normal (destroy w)
  end.

(** Delivering a sequence of events, whatever each handler's completion. *)
Definition run (evs : list event) (w : World) : World :=
  fold_left (fun w ev => state_of (dispatch ev w)) evs w.

End Instance.

(** ** Reachable states and well-formedness *)

(** Every edge of the table resolves: the check the source never makes. *)
Definition config_ok (cfg : Config) : bool :=
  let m := nodeMap_from 0 (map d_id (nodesData cfg)) ∅ in
  forallb (fun p : string * string =>
             bool_decide (is_Some (m !! p.1)) && bool_decide (is_Some (m !! p.2)))
          (edgesData cfg).

(** The colour is one of the table's own: drawing the node completes
    whatever its state. *)
Definition has_color (c : Color) : bool :=
  match c with
  | OwnColor _ => true
  | _ => false
  end.

(** The colour destructures: it is not [undefined]. *)
Definition is_object (c : Color) : bool :=
  match c with
  | UndefinedColor => false
  | _ => true
  end.

(** Every group of the node table is a key of the colour table: the other
    check the source never makes. *)
Definition palette_ok (cfg : Config) : bool :=
  forallb (fun d => has_color (groupColors (d_group d))) (nodesData cfg).

(** No group of the node table yields [undefined]. *)
Definition palette_defined (cfg : Config) : bool :=
  forallb (fun d => is_object (groupColors (d_group d))) (nodesData cfg).

(** What a frame, completed or not, has done to a node: moved it, or left it
    where it was. *)
Definition moved (t : R) (n n' : Node) : Prop := n' = floatNode t n \/ n' = n.

(** Both endpoints of [e] are indices of [ns]. *)
Definition resolved (ns : list Node) (e : Edge) : Prop :=
  is_Some (node_at ns (e_from e)) /\ is_Some (node_at ns (e_to e)).

Definition edges_resolved (w : World) : Prop :=
  Forall (resolved (nodes (viz w))) (edges (viz w)).

(** The states of an instance built from [cfg]: the one the constructor
    leaves, and every state an event leads to from there. *)
Inductive reachable (random : nat -> R) (cfg : Config) : World -> Prop :=
| reach_construct canvasId h rect d issued :
    reachable random cfg
      (state_of (construct random cfg canvasId h rect d issued))
| reach_dispatch w ev :
    reachable random cfg w ->
    reachable random cfg (state_of (dispatch random cfg ev w)).

(** Number of nodes whose [active] flag is set. *)
Definition activeCount (ns : list Node) : nat :=
  length (List.filter n_active ns).

(** The flags of the node array, in declaration order. *)
Definition flags (ns : list Node) : list bool := map n_active ns.

(** * Notions used by the statements *)

(** ** Nodes and connections *)

(** The Euclidean distance from the point [mx], [my] to the rendered
    position of [n]. *)
Definition distance (mx my : R) (n : Node) : R :=
  sqrt ((mx - n_x n) * (mx - n_x n) + (my - n_y n) * (my - n_y n)).

(** What a click does to the node it hits. *)
Definition toggle (n : Node) : Node := set_active (negb (n_active n)) n.

(** Everything of a node but its flag: identity, label, group, rendered
    position, anchor, radius, phase and colour. *)
Definition geometry (n : Node) :=
  (n_id n, n_label n, n_group n, n_x n, n_y n, n_baseX n, n_baseY n,
   n_radius n, n_pulsePhase n, n_color n).

(** The two size classes. *)
Definition sized (n : Node) : Prop :=
  n_radius n = 22%R \/ n_radius n = 28%R.

(** What the specification calls an active connection: both endpoints are
    nodes of the array and both are active. *)
Definition endpoints_active (ns : list Node) (e : Edge) : Prop :=
  exists a b,
    node_at ns (e_from e) = Some a /\ node_at ns (e_to e) = Some b /\
    n_active a = true /\ n_active b = true.

Definition endpoints_activeb (ns : list Node) (e : Edge) : bool :=
  match node_at ns (e_from e), node_at ns (e_to e) with
  | Some a, Some b => n_active a && n_active b
  | _, _ => false
  end.

(** The same test read off the list of flags, for counting on a concrete
    flag list. *)
Definition flag_at (fs : list bool) (i : option nat) : option bool :=
  match i with
  | Some k => fs !! k
  | None => None
  end.

Definition edge_lit (fs : list bool) (e : Edge) : bool :=
  match flag_at fs (e_from e), flag_at fs (e_to e) with
  | Some a, Some b => a && b
  | _, _ => false
  end.

(** A click reads the fine-pointer tolerance, a tap the touch tolerance. *)
Definition pointer_event (ev : event) (tol : R) (rect : DOMRect)
    (clientX clientY : R) : Prop :=
  ev = Click rect clientX clientY /\ tol = click_tolerance \/
  ev = TouchStart rect clientX clientY /\ tol = touch_tolerance.

(** ** Metrics *)

(** The percentage the specification asks for, in integer arithmetic:
    100 a / t rounded to the nearest integer, a tie going up. *)
Definition round_percent (a t : nat) : Z :=
  ((200 * Z.of_nat a + Z.of_nat t) / (2 * Z.of_nat t))%Z.

(** The same product in IEEE double precision, as the source computes it:
    array lengths are small integers, which doubles hold exactly. *)
Fixpoint double_of_nat (n : nat) : PrimFloat.float :=
  match n with
  | O => PrimFloat.zero
  | S k => PrimFloat.add (double_of_nat k) PrimFloat.one
  end.

Definition double_of_Z (z : Z) : PrimFloat.float :=
  match z with
  | Z0 => PrimFloat.zero
  | Zpos p => double_of_nat (Pos.to_nat p)
  | Zneg p => PrimFloat.opp (double_of_nat (Pos.to_nat p))
  end.

Definition double_product (active total : nat) : PrimFloat.float :=
  PrimFloat.mul (PrimFloat.div (double_of_nat active) (double_of_nat total))
                (double_of_nat 100).

Definition double_half : PrimFloat.float :=
  PrimFloat.div PrimFloat.one PrimFloat.two.

(** A double from its binary digits: exact below 2^53. *)
Fixpoint double_of_positive (p : positive) : PrimFloat.float :=
  match p with
  | xH => PrimFloat.one
  | xO q => PrimFloat.mul PrimFloat.two (double_of_positive q)
  | xI q =>
      PrimFloat.add (PrimFloat.mul PrimFloat.two (double_of_positive q))
        PrimFloat.one
  end.

(** The dyadic number [m / 2^e], as a double (the division by a power of
    two is exact) and as a real. *)
Definition dyadic_double (m : positive) (e : nat) : PrimFloat.float :=
  PrimFloat.div (double_of_positive m) (double_of_positive (Pos.pow 2 (Pos.of_nat e))).

Definition dyadic_real (m : positive) (e : nat) : R :=
  (IZR (Zpos m) / IZR (Zpos (Pos.pow 2 (Pos.of_nat e))))%R.

(** The doubles 402.8525356234577 and 237.123518428565, written exactly. *)
Module Literal.
Import PrimFloat.
Definition clickX : float := 0x1.92da3fc64d6d0p+8%float.
Definition clickY : float := 0x1.da3f3dceb647bp+7%float.
End Literal.

(** The hit test as the listeners evaluate it, every operation rounded to
    double precision:
    [mx = clientX - rect.left], [dx = mx - node.x], and
    [Math.sqrt(dx * dx + dy * dy) < node.radius + tol]. *)
Definition hit_double (tol clientX clientY left top x y radius : PrimFloat.float)
    : bool :=
  let mx := PrimFloat.sub clientX left in
  let my := PrimFloat.sub clientY top in
  let dx := PrimFloat.sub mx x in
  let dy := PrimFloat.sub my y in
  PrimFloat.ltb
    (PrimFloat.sqrt (PrimFloat.add (PrimFloat.mul dx dx) (PrimFloat.mul dy dy)))
    (PrimFloat.add radius tol).

(** [d] lies strictly between [z - 1/2] and [z + 1/2]: every rounding to
    the nearest integer sends it to [z]. *)
Definition strictly_nearest (d : PrimFloat.float) (z : Z) : bool :=
  PrimFloat.ltb (PrimFloat.sub (double_of_Z z) double_half) d
  && PrimFloat.ltb d (PrimFloat.add (double_of_Z z) double_half).

(** The snapshot [_updateHUD] computes for a state. *)
Definition metrics (w : World) : Snapshot :=
  let ns := nodes (viz w) in
  snapshot (activeCount ns) (length ns)
           (length (List.filter (endpoints_activeb ns) (edges (viz w)))).

(** The state after a call of [_updateHUD] that completes: the snapshot is
    written to the sinks that exist and recorded in the log. *)
Definition resync (w : World) : World :=
  with_env
    (env_published (metrics w)
       (env_document
          (publish (hudIds (viz w)) (metrics w) (document (env w)))
          (env w)))
    w.

(** ** Construction *)

(** The node array [_layoutNodes] builds in the constructor. *)
Definition initial_layout (random : nat -> R) (cfg : Config) (rect : DOMRect)
    : list Node :=
  (_layoutNodes random (rect_width rect) (rect_height rect) (nodesData cfg) 0).1.

(** The first snapshot: nothing is active. *)
Definition initial_snapshot (cfg : Config) : Snapshot :=
  snapshot 0 (length (nodesData cfg)) 0.

(** ** Invariants *)

(** Edges resolve, radii are one of the two sizes, the node array has the
    length of the table once the listeners are bound, and a pending frame is
    the one whose handle [animId] holds. *)
Definition inv (cfg : Config) (w : World) : Prop :=
  edges_resolved w /\
  Forall sized (nodes (viz w)) /\
  length (nodes (viz w))
    = (if bound (env w) then length (nodesData cfg) else 0) /\
  (forall h, rafPending (env w) = Some h ->
             animId (viz w) = Some h /\ h <> 0).

(** A handler that leaves the loop alone: same handle, same pending frame,
    same number of frames rendered. *)
Definition same_loop (w w' : World) : Prop :=
  animId (viz w') = animId (viz w) /\
  rafPending (env w') = rafPending (env w) /\
  frames (env w') = frames (env w).

(** A pending frame is always the one [animId] names. *)
Definition loop_inv (w : World) : Prop :=
  forall h, rafPending (env w) = Some h -> animId (viz w) = Some h /\ h <> 0.

(** ** The page as main.js sets it up *)

(** The shipped edge list, resolved against the shipped node list. *)
Definition shipped_edges : list Edge :=
  [ mkEdge (Some 0) (Some 1); mkEdge (Some 0) (Some 2);
    mkEdge (Some 0) (Some 4); mkEdge (Some 0) (Some 5);
    mkEdge (Some 0) (Some 10); mkEdge (Some 1) (Some 2);
    mkEdge (Some 2) (Some 3); mkEdge (Some 2) (Some 6);
    mkEdge (Some 6) (Some 7); mkEdge (Some 4) (Some 5);
    mkEdge (Some 4) (Some 8); mkEdge (Some 8) (Some 9);
    mkEdge (Some 9) (Some 10); mkEdge (Some 10) (Some 11);
    mkEdge (Some 11) (Some 2); mkEdge (Some 7) (Some 10);
    mkEdge (Some 3) (Some 7) ].

(** [new SystemViz('system-canvas', { active: 'hud-active', ... })]. *)
Definition page_hud : HudIds :=
  mkHudIds "hud-active" "hud-connections" "hud-load".

(** A document with the canvas, the three sinks and the two buttons. *)
Definition page_document : gmap string string :=
  list_to_map
    [ ("system-canvas", ""); ("hud-active", ""); ("hud-connections", "");
      ("hud-load", ""); ("activate-all", ""); ("reset-all", "") ].

(** An 800 by 600 canvas at the origin of the viewport. *)
Definition page_rect : DOMRect := mkRect 0 0 800 600.

(** A [Math.random] that always answers one half. *)
Definition steady : nat -> R := fun _ => (1 / 2)%R.

Definition page_start : World :=
  state_of (construct steady shipped "system-canvas" page_hud page_rect
              page_document 0).

(** The visitor clicks the middle of the diagram, where the core node is. *)
Definition page_clicked : World :=
  state_of (dispatch steady shipped (Click page_rect 400 270) page_start).

(** Then the window is resized. *)
Definition page_resized : World :=
  state_of (dispatch steady shipped (WindowResize page_rect) page_clicked).

(** Or: the host tears the widget down, and a click still arrives. *)
Definition page_destroyed : World :=
  state_of (dispatch steady shipped Destroy page_start).

Definition page_stray_click : World :=
  state_of (dispatch steady shipped (Click page_rect 400 270) page_destroyed).

(** ** Other configurations and states *)

(** The shipped nodes with one edge whose target names no node. *)
Definition ghost_config : Config :=
  mkConfig shipped_nodesData [("core", "ghost")].

(** A node array for examples: one node per flag, all at the origin. *)
Definition sample_node (b : bool) : Node :=
  mkNode "n" "n" "ops" 0 0 0 0 22 b 0 (groupColors "ops").

Definition sample_world (fs : list bool) (es : list Edge) : World :=
  mkWorld (mkViz true page_hud (0, 0)%R None None 0%R 800%R 600%R
             (map sample_node fs) es)
          (mkBrowser page_document 0 0 None true true true 1 [] 0 None).

(** ** Tactics *)

(** Open one step of [layoutFrom] and instantiate the induction hypothesis
    at the recursive call. *)
Ltac layout_step IH :=
  cbn [layoutFrom]; unfold layoutNode;
  match goal with
  | |- context [layoutFrom ?r ?cx ?cy ?rad ?len ?i ?rest ?k] =>
      specialize (IH i k);
      destruct (layoutFrom r cx cy rad len i rest k) as [? ?]
  end; cbn in IH |- *.

(** * Further notions *)

(** ** More on the node graph *)

(** What the table fixes of a node: identity, label, group, size class and
    colour. *)
Definition static (n : Node) :=
  (n_id n, n_label n, n_group n, n_radius n, n_color n).

Definition static_data (d : NodeData) :=
  (d_id d, d_label d, d_group d,
   (if is_core (d_group d) then 28%R else 22%R), groupColors (d_group d)).

(** Every edge of the table starts at a node: the part of [config_ok] the
    first [_updateHUD] depends on. *)
Definition froms_ok (cfg : Config) : bool :=
  let m := nodeMap_from 0 (map d_id (nodesData cfg)) ∅ in
  forallb (fun p : string * string => bool_decide (is_Some (m !! p.1)))
          (edgesData cfg).

(** The rendered position is within three pixels of the anchor on each
    axis. *)
Definition near_anchor (n : Node) : Prop :=
  (Rabs (n_x n - n_baseX n) <= 3)%R /\ (Rabs (n_y n - n_baseY n) <= 3)%R.

(** The node array of a live instance mirrors the table, and every node is
    near its anchor. *)
Definition laid_out (cfg : Config) (ns : list Node) : Prop :=
  Forall near_anchor ns /\ map static ns = map static_data (nodesData cfg).

Definition shape (cfg : Config) (w : World) : Prop :=
  if bound (env w) then laid_out cfg (nodes (viz w))
  else nodes (viz w) = [] /\ edges (viz w) = [] /\
       activateBound (env w) = false /\ resetBound (env w) = false /\
       rafPending (env w) = None /\ animId (viz w) = None.

Definition is_resize (ev : event) : bool :=
  match ev with
  | WindowResize _ => true
  | _ => false
  end.

Definition is_destroy (ev : event) : bool :=
  match ev with
  | Destroy => true
  | _ => false
  end.

(** The HUD shows the metrics of the current state: the latest snapshot
    published is the one [_updateHUD] would compute now. *)
Definition synced (w : World) : Prop :=
  exists rest d,
    hudLog (env w) = metrics w :: rest /\
    document (env w) = publish (hudIds (viz w)) (metrics w) d.


(** The events that only move the pointer, draw, or tear down. *)
Definition is_passive (ev : event) : bool :=
  match ev with
  | MouseMove _ _ _ | MouseLeave | AnimationFrame | Destroy => true
  | _ => false
  end.


Definition is_frame (ev : event) : bool :=
  match ev with
  | AnimationFrame => true
  | _ => false
  end.

(** The render loop is running: a frame is pending and [animId] names it. *)
Definition running (w : World) : Prop :=
  exists h, rafPending (env w) = Some h /\ animId (viz w) = Some h.


(** Node [j] is the last node of [ns] whose id is [k], and [k] is a key a
    plain object can store. *)
Definition last_named (ns : list Node) (k : string) (j : nat) : Prop :=
  k <> "__proto__" /\
  (n_id <$> ns) !! j = Some k /\
  forall q, j < q -> (n_id <$> ns) !! q <> Some k.


(** * canvas.js: the hero background

    The [HeroCanvas] class: particle creation, the per-frame particle
    update, the connection lines, the scan line, resize and [destroy].
    Numbers are real numbers as above.  The grid and the particle dots only
    produce pixels and are left out; of a frame, the scan-line position and
    the connection lines stroked are recorded. *)

Module Canvas.

Record Particle := mkParticle {
  p_x : R;
  p_y : R;
  p_vx : R;
  p_vy : R;
  p_size : R;
  p_opacity : R
}.

Definition PARTICLE_COUNT : Z := 60.
Definition CONNECTION_DIST : R := 150.
Definition MOUSE_RADIUS : R := 180.

(** [Math.floor]. *)
Definition Math_floor (r : R) : Z := Int_part r.

(** [a % b] on Numbers: the remainder has the sign of the dividend. *)
Definition Number_rem (a b : R) : R :=
  let q := (a / b)%R in
  let t := if Rltb q 0 then (- Int_part (- q))%Z else Int_part q in
  (a - b * IZR t)%R.

(** A connection line stroked between particles [l_from] and [l_to]. *)
Record Line := mkLine {
  l_from : nat;
  l_to : nat;
  l_alpha : R
}.

Record HeroCanvas := mkHero {
  particles : list Particle;
  mouse : R * R;
  animId : option nat;
  time : R;
  width : R;
  height : R
}.

(** The instance, the part of the browser it talks to, and what its last
    frame drew. *)
Record Page := mkPage {
  hero : HeroCanvas;
  randomCalls : nat;
  rafIssued : nat;
  rafPending : option nat;
  bound : bool;
  scanLine : option R;
  strokes : list Line;
  frames : nat
}.

Definition with_hero (h : HeroCanvas) (pg : Page) : Page :=
  mkPage h (randomCalls pg) (rafIssued pg) (rafPending pg) (bound pg)
    (scanLine pg) (strokes pg) (frames pg).

Definition with_particles (ps : list Particle) (h : HeroCanvas) : HeroCanvas :=
  mkHero ps (mouse h) (animId h) (time h) (width h) (height h).

Definition with_mouse (m : R * R) (h : HeroCanvas) : HeroCanvas :=
  mkHero (particles h) m (animId h) (time h) (width h) (height h).

Definition with_size (w ht : R) (h : HeroCanvas) : HeroCanvas :=
  mkHero (particles h) (mouse h) (animId h) (time h) w ht.

Section Particles.
Variable random : nat -> R.

(** The object literal pushed by [_createParticles]: six calls of
    [Math.random], in the order of the properties. *)
Definition newParticle (w ht : R) (k : nat) : Particle :=
  mkParticle (random k * w) (random (1 + k) * ht)
    ((random (2 + k) - 0.5) * 0.4) ((random (3 + k) - 0.5) * 0.4)
    (random (4 + k) * 2 + 1) (random (5 + k) * 0.5 + 0.3).

Fixpoint pushParticles (w ht : R) (n k : nat) : list Particle :=
  match n with
  | O => []
  | S n' => newParticle w ht k :: pushParticles w ht n' (6 + k)
  end.

(** Fewer particles below the 768 pixel breakpoint. *)
Definition particleCount (innerWidth : R) : Z :=
  if Rltb innerWidth 768 then Math_floor (IZR PARTICLE_COUNT * 0.4)
  else PARTICLE_COUNT.

Definition _createParticles (innerWidth : R) (pg : Page) : Page :=
  let n := Z.to_nat (particleCount innerWidth) in
  mkPage
    (with_particles
       (pushParticles (width (hero pg)) (height (hero pg)) n (randomCalls pg))
       (hero pg))
    (6 * n + randomCalls pg) (rafIssued pg) (rafPending pg) (bound pg)
    (scanLine pg) (strokes pg) (frames pg).

(** [_resize]: the new size, and new particles if there were any (the
    pixel size of the backing store and the context scale are not
    modelled). *)
Definition _resize (rect : DOMRect) (innerWidth : R) (pg : Page) : Page :=
  let pg1 :=
    with_hero (with_size (rect_width rect) (rect_height rect) (hero pg)) pg in
  match particles (hero pg1) with
  | [] => pg1
  | _ :: _ => _createParticles innerWidth pg1
  end.

End Particles.

(** ** One frame *)

(** The mouse pushes a particle that is closer than [MOUSE_RADIUS] and not
    exactly under it. *)
Definition repel (m : R * R) (p : Particle) : Particle :=
  let dx := (p_x p - m.1)%R in
  let dy := (p_y p - m.2)%R in
  let dist := sqrt (dx * dx + dy * dy) in
  if Rltb dist MOUSE_RADIUS && Rltb 0 dist then
    let force := ((MOUSE_RADIUS - dist) / MOUSE_RADIUS)%R in
    mkParticle (p_x p) (p_y p)
      (p_vx p + dx / dist * force * 0.3) (p_vy p + dy / dist * force * 0.3)
      (p_size p) (p_opacity p)
  else p.

(** Velocity applied, then damped. *)
Definition advance (p : Particle) : Particle :=
  mkParticle (p_x p + p_vx p) (p_y p + p_vy p)
    (p_vx p * 0.98) (p_vy p * 0.98) (p_size p) (p_opacity p).

(** [if (v < 0) v = limit; if (v > limit) v = 0;] *)
Definition wrapAround (limit v : R) : R :=
  let v1 := if Rltb v 0 then limit else v in
  if Rltb limit v1 then 0%R else v1.

Definition wrap (w ht : R) (p : Particle) : Particle :=
  mkParticle (wrapAround w (p_x p)) (wrapAround ht (p_y p))
    (p_vx p) (p_vy p) (p_size p) (p_opacity p).

Definition updateParticle (m : R * R) (w ht : R) (p : Particle) : Particle :=
  wrap w ht (advance (repel m p)).

Definition _updateParticles (m : R * R) (w ht : R) (ps : list Particle)
    : list Particle :=
  map (updateParticle m w ht) ps.

(** The inner test of [_drawConnections] for particles [i] and [j]. *)
Definition connect (i : nat) (a : Particle) (j : nat) (b : Particle)
    : option Line :=
  let dx := (p_x a - p_x b)%R in
  let dy := (p_y a - p_y b)%R in
  let dist := sqrt (dx * dx + dy * dy) in
  if Rltb dist CONNECTION_DIST then
    Some (mkLine i j ((1 - dist / CONNECTION_DIST) * 0.15))
  else None.

(** The inner loop: [j] runs over the particles after [i]. *)
Fixpoint connectFrom (i : nat) (a : Particle) (j : nat) (rest : list Particle)
    : list Line :=
  match rest with
  | [] => []
  | b :: rest' =>
      match connect i a j b with
      | Some l => l :: connectFrom i a (S j) rest'
      | None => connectFrom i a (S j) rest'
      end
  end.

Fixpoint connectAll (i : nat) (ps : list Particle) : list Line :=
  match ps with
  | [] => []
  | a :: rest => connectFrom i a (S i) rest ++ connectAll (S i) rest
  end.

Definition _drawConnections (ps : list Particle) : list Line :=
  connectAll 0 ps.

(** [_drawScanLine]: where the band is centred. *)
Definition scanLineY (t ht : R) : R :=
  (Number_rem (t * 80) (ht + 100) - 50)%R.

Definition requestAnimationFrame (pg : Page) : Page :=
  let h := S (rafIssued pg) in
  mkPage (mkHero (particles (hero pg)) (mouse (hero pg)) (Some h)
            (time (hero pg)) (width (hero pg)) (height (hero pg)))
    (randomCalls pg) h (Some h) (bound pg) (scanLine pg) (strokes pg)
    (frames pg).

(** [_animate]: the clock, the scan line, the particle update, the
    connections between the updated particles, and the next frame. *)
Definition _animate (pg : Page) : Page :=
  let h := hero pg in
  let t := (time h + 0.005)%R in
  let ps := _updateParticles (mouse h) (width h) (height h) (particles h) in
  requestAnimationFrame
    (mkPage (mkHero ps (mouse h) (animId h) t (width h) (height h))
       (randomCalls pg) (rafIssued pg) (rafPending pg) (bound pg)
       (Some (scanLineY t (height h))) (_drawConnections ps)
       (S (frames pg))).

(** ** The instance *)

Section Instance.
Variable random : nat -> R.

(** [new HeroCanvas(canvasId)]: [_resize], [_createParticles], the
    listeners, the first frame.  Without the canvas element nothing is set
    up. *)
Definition construct (present : bool) (rect : DOMRect) (innerWidth : R)
    (issued : nat) : Page :=
  let pg0 :=
    mkPage (mkHero [] (-1000, -1000)%R None 0%R 0%R 0%R) 0 issued None false
      None [] 0 in
  if present then
    let pg1 := _createParticles random innerWidth
                 (_resize random rect innerWidth pg0) in
    _animate
      (mkPage (hero pg1) (randomCalls pg1) (rafIssued pg1) (rafPending pg1)
         true (scanLine pg1) (strokes pg1) (frames pg1))
  else pg0.

Definition destroy (pg : Page) : Page :=
  match animId (hero pg) with
  | Some (S _ as h) =>
      match rafPending pg with
      | Some p =>
          if Nat.eqb p h then
            mkPage (hero pg) (randomCalls pg) (rafIssued pg) None (bound pg)
              (scanLine pg) (strokes pg) (frames pg)
          else pg
      | None => pg
      end
  | _ => pg
  end.

Inductive event :=
| WindowResize (rect : DOMRect) (innerWidth : R)
| MouseMove (rect : DOMRect) (clientX clientY : R)
| MouseLeave
| AnimationFrame
| Destroy.

Definition dispatch (ev : event) (pg : Page) : Page :=
  match ev with
  | WindowResize rect innerWidth =>
      if bound pg then _resize random rect innerWidth pg else pg
  | MouseMove rect clientX clientY =>
      if bound pg then
        with_hero
          (with_mouse (clientX - rect_left rect, clientY - rect_top rect)%R
             (hero pg)) pg
      else pg
  | MouseLeave =>
      if bound pg then with_hero (with_mouse (-1000, -1000)%R (hero pg)) pg
      else pg
  | AnimationFrame =>
      match rafPending pg with
      | Some _ =>
          _animate
            (mkPage (hero pg) (randomCalls pg) (rafIssued pg) None (bound pg)
               (scanLine pg) (strokes pg) (frames pg))
      | None => pg
      end
  | Destroy => destroy pg
  end.

Definition run (evs : list event) (pg : Page) : Page :=
  fold_left (fun pg ev => dispatch ev pg) evs pg.

End Instance.

(** ** Notions used by the statements *)

(** A particle lies on the canvas and has the size and opacity
    [_createParticles] gives. *)
Definition on_canvas (w ht : R) (p : Particle) : Prop :=
  (0 <= p_x p <= w)%R /\ (0 <= p_y p <= ht)%R.

Definition styled (p : Particle) : Prop :=
  (1 <= p_size p < 3)%R /\ (0.3 <= p_opacity p < 0.8)%R.

Definition unit_random (random : nat -> R) : Prop :=
  forall k, (0 <= random k < 1)%R.

(** The rectangles an event brings have non-negative sides. *)
Definition event_ok (ev : event) : Prop :=
  match ev with
  | WindowResize rect _ => (0 <= rect_width rect)%R /\ (0 <= rect_height rect)%R
  | _ => True
  end.

Definition distance (a b : Particle) : R :=
  sqrt ((p_x a - p_x b) * (p_x a - p_x b) + (p_y a - p_y b) * (p_y a - p_y b)).

End Canvas.


(** The hero canvas is set up, its clock and size are non-negative, and
    its 24 or 60 particles lie on the canvas with their original style. *)
Definition hero_inv (pg : Canvas.Page) : Prop :=
  Canvas.bound pg = true /\
  (0 <= Canvas.time (Canvas.hero pg))%R /\
  (0 <= Canvas.width (Canvas.hero pg))%R /\
  (0 <= Canvas.height (Canvas.hero pg))%R /\
  (length (Canvas.particles (Canvas.hero pg)) = 24 \/
   length (Canvas.particles (Canvas.hero pg)) = 60) /\
  Forall (fun p =>
            Canvas.on_canvas (Canvas.width (Canvas.hero pg))
              (Canvas.height (Canvas.hero pg)) p /\ Canvas.styled p)
    (Canvas.particles (Canvas.hero pg)).




(** * animations.js: the typing effect

    [initTypingEffect] and its [tick] closure.  A character of a string
    stands for one UTF-16 code unit.  Timers are the pending calls of
    [setTimeout]: a handle and the delay asked for; every pending timer of
    this model calls [tick]. *)

Module Typing.

Record State := mkState {
  textContent : string;
  stringIndex : nat;
  charIndex : Z;
  isDeleting : bool;
  timeout : option nat;
  issued : nat;
  pending : list (nat * Z)
}.

(** [s.substring(0, n)]: a negative [n] counts as 0, a large one as the
    length. *)
Definition substring0 (n : Z) (s : string) : string :=
  String.substring 0 (Z.to_nat n) s.

Section Effect.
Variable strings : list string.
Variables typeSpeed deleteSpeed pauseTime : Z.

(** [tick].  When [strings[stringIndex]] is undefined, [charIndex] has
    already moved when [current.substring] throws the TypeError. *)
Definition tick (st : State) : completion State :=
  let c := if isDeleting st then (charIndex st - 1)%Z
           else (charIndex st + 1)%Z in
  match strings !! stringIndex st with
  | None =>
      Throw (mkState (textContent st) (stringIndex st) c (isDeleting st)
               (timeout st) (issued st) (pending st))
  | Some current =>
      let text := substring0 c current in
      let delay := if isDeleting st then deleteSpeed else typeSpeed in
      let typed :=
        negb (isDeleting st) && (c =? Z.of_nat (String.length current))%Z in
      let delay1 := if typed then pauseTime else delay in
      let deleting1 := if typed then true else isDeleting st in
      let erased := deleting1 && (c =? 0)%Z in
      let deleting2 := if erased then false else deleting1 in
      let index2 :=
        if erased then (stringIndex st + 1) mod length strings
        else stringIndex st in
      let delay2 := if erased then 400%Z else delay1 in
      let h := S (issued st) in
      Normal (mkState text index2 c deleting2 (Some h) h
                (pending st ++ [(h, delay2)]))
  end.

(** [clearTimeout(h)]; [h] may be [null]. *)
Definition clearTimeout (h : option nat) (st : State) : State :=
  match h with
  | Some h =>
      mkState (textContent st) (stringIndex st) (charIndex st) (isDeleting st)
        (timeout st) (issued st)
        (List.filter (fun p => negb (Nat.eqb p.1 h)) (pending st))
  | None => st
  end.

(** [initTypingEffect]: nothing without the element; otherwise the first
    tick is scheduled, and its handle is not kept. *)
Definition initTypingEffect (el : option string) (issued0 : nat)
    : option State :=
  match el with
  | None => None
  | Some text =>
      Some (mkState text 0 0 false None (S issued0) [(S issued0, 1200%Z)])
  end.

Inductive event :=
| TimerFires (h : nat)
| Cleanup.

(** A timer that is still pending fires once; the function returned by
    [initTypingEffect] clears the timer whose handle is in [timeout]. *)
Definition dispatch (ev : event) (st : State) : completion State :=
  match ev with
  | TimerFires h =>
      if existsb (fun p => Nat.eqb p.1 h) (pending st) then
        tick (clearTimeout (Some h) st)
      else Normal st
  | Cleanup => Normal (clearTimeout (timeout st) st)
  end.

Definition run (evs : list event) (st : State) : State :=
  fold_left (fun st ev => state_of (dispatch ev st)) evs st.

(** The oldest pending timer fires. *)
Definition fire (st : State) : completion State :=
  match pending st with
  | (h, _) :: _ => dispatch (TimerFires h) st
  | [] => Normal st
  end.

Fixpoint fires (n : nat) (st : State) : completion State :=
  match n with
  | O => Normal st
  | S n' => fire st >>> fires n'
  end.

End Effect.

(** ** Notions used by the statements *)

(** What the element shows [k] ticks into the cycle of a word: the word
    grows for [length s] ticks and then shrinks. *)
Definition shown (s : string) (k : nat) : string :=
  substring0 (Z.of_nat (if k <=? String.length s then k
                        else 2 * String.length s - k)) s.

(** The delay asked for by the [k]-th tick of the cycle of a word. *)
Definition delay_of (typeSpeed deleteSpeed pauseTime : Z) (s : string)
    (k : nat) : Z :=
  if k <? String.length s then typeSpeed
  else if k =? String.length s then pauseTime
  else if k <? 2 * String.length s then deleteSpeed
  else 400%Z.

(** Ticks needed before the word at index [i] starts. *)
Definition offset (strings : list string) (i : nat) : nat :=
  2 * list_sum (map String.length (take i strings)).

(** At the start of the word at index [i], with one timer pending. *)
Definition at_word (st : State) (i : nat) : Prop :=
  stringIndex st = i /\ charIndex st = 0%Z /\ isDeleting st = false /\
  exists h d, pending st = [(h, d)].

End Typing.


(** The state [k] ticks into the cycle of the word [s] at index [i] of a
    list of [n] strings. *)
Definition in_cycle (typeSpeed deleteSpeed pauseTime : Z) (n i : nat)
    (s : string) (k : nat) (st : Typing.State) : Prop :=
  let L := String.length s in
  (exists h d,
     Typing.pending st = [(h, d)] /\
     (1 <= k ->
      d = Typing.delay_of typeSpeed deleteSpeed pauseTime s k /\
      Typing.timeout st = Some h /\
      Typing.textContent st = Typing.shown s k)) /\
  Typing.stringIndex st = (if k <? 2 * L then i else (i + 1) mod n) /\
  Typing.charIndex st = Z.of_nat (if k <=? L then k else 2 * L - k) /\
  Typing.isDeleting st = (L <=? k) && (k <? 2 * L).


(** * main.js: the contact form and the cursor ring

    Field values are sequences of UTF-16 code units.  The pattern of the
    e-mail check is kept as a regular expression and run by a derivative
    matcher; [test] on an anchored pattern without flags is membership in
    its language.  Timers are the pending calls of [setTimeout]. *)

Module Main.

Definition jsstring := list N.

(** The code units of WhiteSpace and LineTerminator: what [trim] strips
    and what the class [\s] matches. *)
Definition is_space (c : N) : bool :=
  match c with
  | 9 | 10 | 11 | 12 | 13 | 32 | 160 | 5760 | 8232 | 8233 | 8239 | 8287
  | 12288 | 65279 => true
  | _ => (8192 <=? c) && (c <=? 8202)
  end%N.

Fixpoint trimStart (s : jsstring) : jsstring :=
  match s with
  | c :: rest => if is_space c then trimStart rest else s
  | [] => []
  end.

(** [s.trim()]. *)
Definition trim (s : jsstring) : jsstring :=
  rev (trimStart (rev (trimStart s))).

(** ** Regular expressions *)

Inductive regex :=
| Void
| Eps
| Class (p : N -> bool)
| Seq (r1 r2 : regex)
| Alt (r1 r2 : regex)
| Star (r : regex).

(** [r+] *)
Definition Plus (r : regex) : regex := Seq r (Star r).

Fixpoint nullable (r : regex) : bool :=
  match r with
  | Void => false
  | Eps => true
  | Class _ => false
  | Seq r1 r2 => nullable r1 && nullable r2
  | Alt r1 r2 => nullable r1 || nullable r2
  | Star _ => true
  end.

Fixpoint deriv (c : N) (r : regex) : regex :=
  match r with
  | Void => Void
  | Eps => Void
  | Class p => if p c then Eps else Void
  | Seq r1 r2 =>
      if nullable r1 then Alt (Seq (deriv c r1) r2) (deriv c r2)
      else Seq (deriv c r1) r2
  | Alt r1 r2 => Alt (deriv c r1) (deriv c r2)
  | Star r1 => Seq (deriv c r1) (Star r1)
  end.

(** [/^r$/.test(s)] *)
Definition test (r : regex) (s : jsstring) : bool :=
  nullable (fold_left (fun r c => deriv c r) s r).

(** [[^\s@]] *)
Definition not_space_at (c : N) : bool := negb (is_space c) && negb (c =? 64)%N.

(** [/^[^\s@]+@[^\s@]+\.[^\s@]+$/] *)
Definition email_pattern : regex :=
  Seq (Plus (Class not_space_at))
    (Seq (Class (N.eqb 64))
       (Seq (Plus (Class not_space_at))
          (Seq (Class (N.eqb 46)) (Plus (Class not_space_at))))).

(** ** The form *)

Inductive action :=
| Succeed
| ClearStatus.

Record Timer := mkTimer {
  t_handle : nat;
  t_delay : Z;
  t_action : action
}.

(** The three fields, the status element ([None]: the page has none) with
    its text and class, the pending timers, and how often the form was
    reset. *)
Record Page := mkPage {
  name : jsstring;
  email : jsstring;
  message : jsstring;
  formStatus : option (string * string);
  timers : list Timer;
  issued : nat;
  resets : nat
}.

Definition setTimeout (a : action) (delay : Z) (pg : Page) : Page :=
  mkPage (name pg) (email pg) (message pg) (formStatus pg)
    (timers pg ++ [mkTimer (S (issued pg)) delay a]) (S (issued pg))
    (resets pg).

Definition set_status (text cls : string) (pg : Page) : Page :=
  mkPage (name pg) (email pg) (message pg) (Some (text, cls)) (timers pg)
    (issued pg) (resets pg).

(** [showFormStatus(msg, type)]: a message with a type clears itself
    after five seconds. *)
Definition showFormStatus (msg type : string) (pg : Page) : Page :=
  match formStatus pg with
  | None => pg
  | Some _ =>
      let pg1 :=
        set_status msg
          ("form-status" +:+ (if String.eqb type "" then "" else " " +:+ type))
          pg in
      if String.eqb type "" then pg1 else setTimeout ClearStatus 5000 pg1
  end.

Section Form.
(** The values [contactForm.reset()] restores. *)
Variable defaults : jsstring * jsstring * jsstring.

(** The submit listener. *)
Definition submit (pg : Page) : Page :=
  let n := trim (name pg) in
  let e := trim (email pg) in
  let m := trim (message pg) in
  match n, e, m with
  | _ :: _, _ :: _, _ :: _ =>
      if test email_pattern e then
        setTimeout Succeed 1500 (showFormStatus "Transmitting…" "" pg)
      else showFormStatus "Please enter a valid email address." "error" pg
  | _, _, _ => showFormStatus "Please fill in all fields." "error" pg
  end.

Definition reset (pg : Page) : Page :=
  mkPage defaults.1.1 defaults.1.2 defaults.2 (formStatus pg) (timers pg)
    (issued pg) (S (resets pg)).

Definition callback (a : action) (pg : Page) : Page :=
  match a with
  | Succeed =>
      reset
        (showFormStatus "✓ Message received! I'll get back to you soon."
           "success" pg)
  | ClearStatus => set_status "" "form-status" pg
  end.

Inductive event :=
| Edit (n e m : jsstring)
| Submit
| TimerFires (h : nat).

Definition drop_timer (h : nat) (pg : Page) : Page :=
  mkPage (name pg) (email pg) (message pg) (formStatus pg)
    (List.filter (fun t => negb (Nat.eqb (t_handle t) h)) (timers pg))
    (issued pg) (resets pg).

Definition dispatch (ev : event) (pg : Page) : Page :=
  match ev with
  | Edit n e m =>
      mkPage n e m (formStatus pg) (timers pg) (issued pg) (resets pg)
  | Submit => submit pg
  | TimerFires h =>
      match List.find (fun t => Nat.eqb (t_handle t) h) (timers pg) with
      | Some t => callback (t_action t) (drop_timer h pg)
      | None => pg
      end
  end.

Definition run (evs : list event) (pg : Page) : Page :=
  fold_left (fun pg ev => dispatch ev pg) evs pg.

End Form.

(** ** The cursor ring *)

Record Cursor := mkCursor {
  mouseX : R;
  mouseY : R;
  ringX : R;
  ringY : R
}.

(** [animateRing]: the ring closes 15% of the gap each frame. *)
Definition animateRing (c : Cursor) : Cursor :=
  mkCursor (mouseX c) (mouseY c)
    (ringX c + (mouseX c - ringX c) * 0.15)
    (ringY c + (mouseY c - ringY c) * 0.15).

Definition mousemove (clientX clientY : R) (c : Cursor) : Cursor :=
  mkCursor clientX clientY (ringX c) (ringY c).

(** ** Notions used by the statements *)

(** The language of a regular expression. *)
Inductive lang : regex -> jsstring -> Prop :=
| lang_Eps : lang Eps []
| lang_Class p c : p c = true -> lang (Class p) [c]
| lang_Seq r1 r2 s1 s2 : lang r1 s1 -> lang r2 s2 -> lang (Seq r1 r2) (s1 ++ s2)
| lang_Alt_l r1 r2 s : lang r1 s -> lang (Alt r1 r2) s
| lang_Alt_r r1 r2 s : lang r2 s -> lang (Alt r1 r2) s
| lang_Star_nil r : lang (Star r) []
| lang_Star_cons r s1 s2 :
    lang r s1 -> lang (Star r) s2 -> lang (Star r) (s1 ++ s2).

(** Neither whitespace nor an at sign. *)
Definition plain (c : N) : Prop := is_space c = false /\ c <> 64%N.

(** What the pattern accepts: a non-empty local part, one at sign, and a
    domain with a dot that is neither its first nor its last code unit;
    no whitespace and no second at sign anywhere. *)
Definition well_formed (s : jsstring) : Prop :=
  exists l d i,
    s = l ++ 64%N :: d /\ l <> [] /\ Forall plain l /\ Forall plain d /\
    0 < i /\ S i < length d /\ d !! i = Some 46%N.

(** The field has a code unit that is not whitespace. *)
Definition has_ink (s : jsstring) : Prop :=
  Exists (fun c => is_space c = false) s.

End Main.


(** A submission passes the checks of the submit listener. *)
Definition acceptable (pg : Main.Page) : Prop :=
  Main.has_ink (Main.name pg) /\ Main.has_ink (Main.message pg) /\
  Main.well_formed (Main.trim (Main.email pg)).


(** Timer handles are distinct and were all issued already. *)
Definition timers_ok (pg : Main.Page) : Prop :=
  Forall (fun t => Main.t_handle t <= Main.issued pg) (Main.timers pg) /\
  NoDup (map Main.t_handle (Main.timers pg)).

(** A step that keeps the pending timers. *)
Definition keeps_timers (pg pg' : Main.Page) : Prop :=
  timers_ok pg ->
  timers_ok pg' /\ forall t, t ∈ Main.timers pg -> t ∈ Main.timers pg'.


(** * animations.js: the skill diagram

    [initSkillDiagram] and its [drawLines] closure.  The rectangles of the
    container and of the node elements are what the browser reports when
    the lines are drawn; the SVG element is the list of its line
    children. *)

Module Diagram.

Record DiagramNode := mkDiagramNode {
  dn_id : string;
  dn_label : string;
  dn_x : R;
  dn_y : R
}.

Definition newline : string := String (Ascii.ascii_of_nat 10) EmptyString.

Definition diagramNodes : list DiagramNode :=
  [ mkDiagramNode "html" "HTML/CSS" 18 30;
    mkDiagramNode "js" "JavaScript" 50 15;
    mkDiagramNode "python" "Python" 82 30;
    mkDiagramNode "algo" "Algorithms" 30 70;
    mkDiagramNode "systems" ("Systems" +:+ newline +:+ "Thinking") 50 50;
    mkDiagramNode "solve" ("Problem" +:+ newline +:+ "Solving") 70 70 ].

Definition diagramEdges : list (string * string) :=
  [ ("html", "js"); ("js", "python");
    ("html", "systems"); ("js", "systems"); ("python", "systems");
    ("algo", "systems"); ("solve", "systems");
    ("algo", "solve"); ("html", "algo"); ("python", "solve") ].

(** [nodeEls]: for every id the node element created for it, named by its
    position among the children appended to the container. *)
Fixpoint nodeEls_from (i : nat) (ns : list DiagramNode) (m : gmap string nat)
    : gmap string nat :=
  match ns with
  | [] => m
  | n :: rest => nodeEls_from (S i) rest (<[dn_id n := i]> m)
  end.

Definition nodeEls : gmap string nat := nodeEls_from 0 diagramNodes ∅.

Record Line := mkLine {
  x1 : R;
  y1 : R;
  x2 : R;
  y2 : R
}.

(** The body of the [forEach] of [drawLines] for one edge. *)
Definition drawLine (containerRect : DOMRect) (rects : nat -> DOMRect)
    (edge : string * string) : option Line :=
  match nodeEls !! edge.1, nodeEls !! edge.2 with
  | Some from, Some to =>
      let fromRect := rects from in
      let toRect := rects to in
      Some (mkLine
              (rect_left fromRect + rect_width fromRect / 2
               - rect_left containerRect)
              (rect_top fromRect + rect_height fromRect / 2
               - rect_top containerRect)
              (rect_left toRect + rect_width toRect / 2
               - rect_left containerRect)
              (rect_top toRect + rect_height toRect / 2
               - rect_top containerRect))
  | _, _ => None
  end.

(** [drawLines]: the SVG is emptied and one line is appended per edge
    whose two ends are known. *)
Definition drawLines (containerRect : DOMRect) (rects : nat -> DOMRect)
    : list Line :=
  omap (drawLine containerRect rects) diagramEdges.

(** The diagram: how many of the two nested animation-frame requests have
    run, whether the resize listener is registered, and the lines in the
    SVG. *)
Record State := mkState {
  framesSeen : nat;
  listening : bool;
  svg : list Line
}.

(** [initSkillDiagram]: without the container nothing is set up. *)
Definition initSkillDiagram (present : bool) : State :=
  mkState 0 present [].

Inductive event :=
| AnimationFrame (containerRect : DOMRect) (rects : nat -> DOMRect)
| WindowResize (containerRect : DOMRect) (rects : nat -> DOMRect).

(** The first frame requests the second, the second draws; every resize
    draws. *)
Definition dispatch (ev : event) (st : State) : State :=
  if listening st then
    match ev with
    | AnimationFrame c r =>
        match framesSeen st with
        | 0 => mkState 1 true (svg st)
        | 1 => mkState 2 true (drawLines c r)
        | _ => st
        end
    | WindowResize c r => mkState (framesSeen st) true (drawLines c r)
    end
  else st.

Definition run (evs : list event) (st : State) : State :=
  fold_left (fun st ev => dispatch ev st) evs st.

(** ** Notions used by the statements *)

Definition is_resize (ev : event) : bool :=
  match ev with
  | WindowResize _ _ => true
  | AnimationFrame _ _ => false
  end.

(** The events so far made [drawLines] run: a resize, or two frames. *)
Definition drawn (evs : list event) : bool :=
  existsb is_resize evs
  || (2 <=? length (List.filter (fun ev => negb (is_resize ev)) evs)).

End Diagram.

(** * Properties *)

(** ** Numbers *)

Lemma Rltb_true (a b : R) : Rltb a b = true <-> (a < b)%R.
Proof.
  unfold Rltb. destruct (Rlt_dec a b) as [H | H]; split; intros G;
    try reflexivity; try assumption; [discriminate | contradiction].
Qed.

Lemma Rltb_false (a b : R) : Rltb a b = false <-> (b <= a)%R.
Proof.
  unfold Rltb. destruct (Rlt_dec a b) as [H | H]; split; intros G;
    try reflexivity; try discriminate; lra.
Qed.

Lemma round_percent_nearest (a t : nat) :
  t <> 0 ->
  (- Z.of_nat t <= 2 * (100 * Z.of_nat a - Z.of_nat t * round_percent a t)
   < Z.of_nat t)%Z.
Proof.
  intros Ht. unfold round_percent.
  set (n := (200 * Z.of_nat a + Z.of_nat t)%Z).
  set (d := (2 * Z.of_nat t)%Z).
  assert (Hd : (0 < d)%Z) by (unfold d; lia).
  pose proof (Z.div_mod n d ltac:(lia)) as Hdm.
  pose proof (Z.mod_pos_bound n d Hd) as Hm.
  assert (Z.of_nat t * (n / d) * 2 = d * (n / d))%Z by (unfold d; ring).
  unfold n, d in *. lia.
Qed.

Lemma Math_round_ratio (a t : nat) :
  t <> 0 -> load_of a t = Integral (round_percent a t).
Proof.
  intros Ht. unfold load_of, length_ratio.
  destruct t as [| t']; [congruence |]. cbn [Number_mul Math_round].
  f_equal. symmetry. apply Int_part_spec.
  set (t := S t') in *.
  pose proof (round_percent_nearest a t Ht) as [Hlo Hhi].
  assert (HT : (0 < INR t)%R) by (apply lt_0_INR; lia).
  set (z := round_percent a t) in *.
  apply IZR_le in Hlo. apply IZR_lt in Hhi.
  rewrite ?opp_IZR, ?mult_IZR, ?minus_IZR, ?mult_IZR, <- ?INR_IZR_INZ in *.
  assert (E : (INR a / INR t * 100 + / 2
               = (200 * INR a + INR t) / (2 * INR t))%R)
    by (field; lra).
  rewrite E. clear E.
  split.
  - apply Rmult_lt_reg_r with (r := (2 * INR t)%R); [lra |].
    unfold Rminus. rewrite Rmult_plus_distr_r.
    unfold Rdiv. rewrite Rmult_assoc, Rinv_l by lra. lra.
  - apply Rmult_le_reg_r with (r := (2 * INR t)%R); [lra |].
    unfold Rdiv. rewrite Rmult_assoc, Rinv_l by lra. lra.
Qed.

(** The limit of the idealisation: away from the shipped table a product
    that is an exact tie in real arithmetic can come out just below it in
    double precision.  With 23 of 40 nodes active the real product is 57.5,
    which rounds up to 58, while the doubles give a value strictly between
    56.5 and 57.5.  No tie occurs with twelve nodes. *)
Remark double_product_below_tie :
  round_percent 23 40 = 58%Z /\
  strictly_nearest (double_product 23 40) 57 = true.
Proof. split; vm_compute; reflexivity. Qed.

(** ** Layout *)

Section LayoutFacts.
Variable random : nat -> R.

Lemma layoutFrom_ids cx cy radius len ds : forall i k,
  map n_id (layoutFrom random cx cy radius len i ds k).1 = map d_id ds.
Proof.
  induction ds as [| data rest IH]; intros i k; [reflexivity |].
  layout_step IH. f_equal. exact IH.
Qed.

Lemma layoutFrom_inactive cx cy radius len ds : forall i k,
  Forall (fun n => n_active n = false)
         (layoutFrom random cx cy radius len i ds k).1.
Proof.
  induction ds as [| data rest IH]; intros i k; [constructor |].
  layout_step IH. constructor; [reflexivity | exact IH].
Qed.

Lemma layoutFrom_sized cx cy radius len ds : forall i k,
  Forall sized (layoutFrom random cx cy radius len i ds k).1.
Proof.
  induction ds as [| data rest IH]; intros i k; [constructor |].
  layout_step IH. constructor; [| exact IH].
  unfold sized. cbn. destruct (is_core _); auto.
Qed.

Lemma layoutFrom_cons cx cy radius len i data rest k :
  (layoutFrom random cx cy radius len i (data :: rest) k).1
  = (layoutNode random cx cy radius len i data k).1
    :: (layoutFrom random cx cy radius len (S i) rest
          (layoutNode random cx cy radius len i data k).2).1.
Proof.
  cbn [layoutFrom].
  destruct (layoutNode random cx cy radius len i data k) as [n k1].
  cbn [fst snd].
  destruct (layoutFrom random cx cy radius len (S i) rest k1) as [ns k2].
  reflexivity.
Qed.

Lemma layoutNodes_length wd ht ds k :
  length (_layoutNodes random wd ht ds k).1 = length ds.
Proof.
  unfold _layoutNodes.
  rewrite <- (length_map n_id), layoutFrom_ids. apply length_map.
Qed.

End LayoutFacts.

(** ** Edge resolution *)

Lemma nodeMap_set_other (m : gmap string nat) k i k' :
  k' <> k -> nodeMap_set m k i !! k' = m !! k'.
Proof.
  intros Hne. unfold nodeMap_set.
  destruct (String.eqb k "__proto__"); [reflexivity |].
  apply lookup_insert_ne. congruence.
Qed.

Lemma nodeMap_from_absent ids : forall i (m : gmap string nat) k,
  k ∉ ids -> nodeMap_from i ids m !! k = m !! k.
Proof.
  induction ids as [| k0 rest IH]; intros i m k Hk; [reflexivity |].
  cbn [nodeMap_from]. rewrite IH.
  - apply nodeMap_set_other. intros ->. apply Hk. left.
  - intros Hin. apply Hk. right. exact Hin.
Qed.

Lemma nodeMap_from_range ids : forall i (m : gmap string nat) k j,
  nodeMap_from i ids m !! k = Some j ->
  m !! k = Some j \/ (i <= j < i + length ids).
Proof.
  induction ids as [| k0 rest IH]; intros i m k j H; [left; exact H |].
  cbn [nodeMap_from] in H. apply IH in H as [H | H].
  - unfold nodeMap_set in H. destruct (String.eqb k0 "__proto__").
    + left; exact H.
    + destruct (decide (k0 = k)) as [-> | Hne].
      * rewrite lookup_insert_eq in H. injection H as <-.
        right. cbn [length]. lia.
      * rewrite lookup_insert_ne in H by exact Hne. left; exact H.
  - right. cbn [length]. lia.
Qed.

Lemma nodeMap_of_range (ns : list Node) k j :
  nodeMap_of ns !! k = Some j -> j < length ns.
Proof.
  unfold nodeMap_of. intros H. apply nodeMap_from_range in H as [H | H].
  - rewrite lookup_empty in H. discriminate.
  - rewrite length_map in H. lia.
Qed.

(** An identity that names a node (other than the key [__proto__]) resolves. *)
Lemma nodeMap_from_present ids : forall i (m : gmap string nat) k,
  k ∈ ids -> k <> "__proto__" -> is_Some (nodeMap_from i ids m !! k).
Proof.
  induction ids as [| k0 rest IH]; intros i m k Hin Hk.
  - inversion Hin.
  - cbn [nodeMap_from].
    destruct (decide (k ∈ rest)) as [Hr | Hr]; [apply IH; assumption |].
    rewrite nodeMap_from_absent by exact Hr.
    apply elem_of_cons in Hin as [-> | Hin]; [| contradiction].
    unfold nodeMap_set. destruct (String.eqb_spec k0 "__proto__") as [E | E];
      [contradiction |].
    rewrite lookup_insert_eq. eexists; reflexivity.
Qed.

(** The key [__proto__] never receives an index. *)
Lemma nodeMap_from_proto ids : forall i (m : gmap string nat),
  nodeMap_from i ids m !! "__proto__" = m !! "__proto__".
Proof.
  induction ids as [| k rest IH]; intros i m; [reflexivity |].
  cbn [nodeMap_from]. rewrite IH. unfold nodeMap_set.
  destruct (String.eqb_spec k "__proto__") as [E | E]; [reflexivity |].
  apply lookup_insert_ne. exact E.
Qed.

Lemma nodeMap_resolves ids k :
  is_Some (nodeMap_from 0 ids ∅ !! k) <-> k ∈ ids /\ k <> "__proto__".
Proof.
  split.
  - intros [j Hj]. split.
    + destruct (decide (k ∈ ids)) as [Hin | Hout]; [exact Hin |].
      rewrite nodeMap_from_absent, lookup_empty in Hj by exact Hout.
      discriminate.
    + intros ->. rewrite nodeMap_from_proto, lookup_empty in Hj.
      discriminate.
  - intros [Hin Hne]. apply nodeMap_from_present; assumption.
Qed.

(** An index the map holds is an index of the node array. *)
Lemma node_at_nodeMap ns k :
  is_Some (node_at ns (nodeMap_of ns !! k)) <-> is_Some (nodeMap_of ns !! k).
Proof.
  split.
  - destruct (nodeMap_of ns !! k); [eexists; reflexivity |].
    intros [n Hn]. discriminate.
  - intros [j Hj]. rewrite Hj. cbn [node_at].
    apply lookup_lt_is_Some. eapply nodeMap_of_range. exact Hj.
Qed.

(** The edges of a table all resolve exactly when every endpoint names a
    node and none of them is the key [__proto__]. *)
Lemma config_ok_spec cfg :
  config_ok cfg = true <->
  forall a b, (a, b) ∈ edgesData cfg ->
    (a ∈ map d_id (nodesData cfg) /\ a <> "__proto__") /\
    (b ∈ map d_id (nodesData cfg) /\ b <> "__proto__").
Proof.
  unfold config_ok. rewrite forallb_forall. split.
  - intros H a b Hin. apply list_elem_of_In in Hin.
    specialize (H (a, b) Hin). cbn [fst snd] in H.
    apply andb_true_iff in H as [Ha Hb].
    apply bool_decide_eq_true in Ha, Hb.
    split; apply nodeMap_resolves; assumption.
  - intros H [a b] Hin. apply list_elem_of_In in Hin.
    destruct (H a b Hin) as [Ha Hb]. cbn [fst snd].
    apply andb_true_iff.
    split; apply bool_decide_eq_true, nodeMap_resolves; assumption.
Qed.

Lemma buildEdges_length ns es : length (_buildEdges ns es) = length es.
Proof. apply length_map. Qed.

Lemma buildEdges_resolved cfg ns :
  config_ok cfg = true ->
  map n_id ns = map d_id (nodesData cfg) ->
  Forall (resolved ns) (_buildEdges ns (edgesData cfg)).
Proof.
  intros Hok Hids. unfold config_ok in Hok. rewrite <- Hids in Hok.
  fold (nodeMap_of ns) in Hok.
  unfold _buildEdges. apply Forall_forall. intros e He.
  apply list_elem_of_In, in_map_iff in He as (p & <- & Hp).
  rewrite forallb_forall in Hok. specialize (Hok p Hp).
  apply andb_true_iff in Hok as [H1 H2].
  apply bool_decide_eq_true in H1 as [i Hi], H2 as [j Hj].
  unfold resolved, resolveEdge. cbn. rewrite Hi, Hj. cbn.
  split; apply lookup_lt_is_Some; eapply nodeMap_of_range; eassumption.
Qed.

(** ** Metrics *)

Lemma endpoints_activeb_spec ns e :
  endpoints_activeb ns e = true <-> endpoints_active ns e.
Proof.
  unfold endpoints_activeb, endpoints_active. split.
  - destruct (node_at ns (e_from e)) as [a |], (node_at ns (e_to e)) as [b |];
      try discriminate.
    intros H. apply andb_true_iff in H as [Ha Hb]. exists a, b. auto.
  - intros (a & b & -> & -> & -> & ->). reflexivity.
Qed.

Lemma bothActive_resolved ns e :
  resolved ns e -> bothActive ns e = Some (endpoints_activeb ns e).
Proof.
  intros [[a Ha] [b Hb]]. unfold bothActive, endpoints_activeb.
  rewrite Ha, Hb. destruct (n_active a); reflexivity.
Qed.

Lemma activeEdges_resolved ns es :
  Forall (resolved ns) es ->
  activeEdges ns es = Some (List.filter (endpoints_activeb ns) es).
Proof.
  induction 1 as [| e rest He _ IH]; [reflexivity |].
  cbn [activeEdges List.filter]. rewrite (bothActive_resolved _ _ He), IH.
  reflexivity.
Qed.

Lemma edgeStroke_resolved ns e :
  resolved ns e ->
  exists s, edgeStroke ns e = Some s /\
            (s = Strong <-> endpoints_activeb ns e = true).
Proof.
  intros [[a Ha] [b Hb]]. unfold edgeStroke, endpoints_activeb.
  rewrite Ha, Hb. cbn.
  destruct (n_active a), (n_active b); cbn; eexists; (split; [reflexivity |]);
    split; congruence.
Qed.

Lemma drawEdges_resolved ns es :
  Forall (resolved ns) es -> is_Some (_drawEdges ns es).
Proof.
  induction 1 as [| e rest He _ [l IH]]; [eexists; reflexivity |].
  destruct (edgeStroke_resolved _ _ He) as (s & Hs & _).
  cbn [_drawEdges]. rewrite Hs, IH. eexists; reflexivity.
Qed.

Lemma updateHUD_resolved w :
  edges_resolved w -> _updateHUD w = Normal (resync w).
Proof.
  intros H. unfold _updateHUD, resync, metrics, activeCount.
  rewrite (activeEdges_resolved _ _ H). reflexivity.
Qed.

(** A dangling endpoint that the filter reaches makes [_updateHUD] throw
    before anything is published. *)
Lemma updateHUD_throw w :
  activeEdges (nodes (viz w)) (edges (viz w)) = None ->
  _updateHUD w = Throw w.
Proof. intros H. unfold _updateHUD. rewrite H. reflexivity. Qed.

(** ** Hit testing and the toggle loop *)

Lemma hit_spec tol mx my n :
  hit tol mx my n = true <->
  (sqrt ((mx - n_x n) * (mx - n_x n) + (my - n_y n) * (my - n_y n))
   < n_radius n + tol)%R.
Proof. unfold hit. apply Rltb_true. Qed.

Lemma hit_false_spec tol mx my n :
  hit tol mx my n = false <->
  (n_radius n + tol
   <= sqrt ((mx - n_x n) * (mx - n_x n) + (my - n_y n) * (my - n_y n)))%R.
Proof. unfold hit. apply Rltb_false. Qed.

(** What [firstHit] returns: the least index whose node passes the test. *)
Lemma firstHit_spec tol mx my ns : forall i0,
  match firstHit tol mx my ns i0 with
  | Some j =>
      exists k n, j = i0 + k /\ ns !! k = Some n /\ hit tol mx my n = true /\
        forall k' n', k' < k -> ns !! k' = Some n' -> hit tol mx my n' = false
  | None => Forall (fun n => hit tol mx my n = false) ns
  end.
Proof.
  induction ns as [| n rest IH]; intros i0; cbn [firstHit]; [constructor |].
  destruct (hit tol mx my n) eqn:Hn.
  - exists 0, n. repeat split; [lia | assumption | intros; lia].
  - specialize (IH (S i0)). destruct (firstHit tol mx my rest (S i0)) as [j |].
    + destruct IH as (k & m & -> & Hk & Hm & Hlt).
      exists (S k), m. repeat split; [lia | exact Hk | exact Hm |].
      intros [| k'] n' Hlt' Hn'; cbn in Hn'.
      * injection Hn' as <-. exact Hn.
      * apply (Hlt k'); [lia | exact Hn'].
    + constructor; assumption.
Qed.

Lemma firstHit_shift tol mx my ns : forall i0,
  firstHit tol mx my ns i0 = (fun j => i0 + j) <$> firstHit tol mx my ns 0.
Proof.
  induction ns as [| n rest IH]; intros i0; cbn [firstHit]; [reflexivity |].
  destruct (hit tol mx my n); [cbn; f_equal; lia |].
  rewrite (IH (S i0)), (IH 1).
  destruct (firstHit tol mx my rest 0); cbn; [f_equal; lia | reflexivity].
Qed.

(** The click loop toggles exactly the node [firstHit] finds. *)
Lemma toggleFirstHit_firstHit tol mx my ns :
  toggleFirstHit tol mx my ns =
  (fun j => alter toggle j ns) <$> firstHit tol mx my ns 0.
Proof.
  induction ns as [| n rest IH]; cbn [toggleFirstHit firstHit]; [reflexivity |].
  destruct (hit tol mx my n); [reflexivity |].
  rewrite IH, (firstHit_shift _ _ _ rest 1).
  destruct (firstHit tol mx my rest 0); reflexivity.
Qed.

Lemma toggle_active n : n_active (toggle n) = negb (n_active n).
Proof. reflexivity. Qed.

Lemma geometry_set_active b n : geometry (set_active b n) = geometry n.
Proof. reflexivity. Qed.

Lemma map_geometry_alter_toggle j ns :
  map geometry (alter toggle j ns) = map geometry ns.
Proof.
  revert j. induction ns as [| n rest IH]; intros [| j]; cbn; try reflexivity.
  f_equal. apply IH.
Qed.

Lemma map_geometry_set_active b ns :
  map geometry (map (set_active b) ns) = map geometry ns.
Proof. rewrite map_map. reflexivity. Qed.

Lemma sized_geometry ns ns' :
  map geometry ns = map geometry ns' -> Forall sized ns -> Forall sized ns'.
Proof.
  revert ns'. induction ns as [| n rest IH]; intros [| n' rest'] E H;
    try discriminate; [constructor |].
  inversion H; subst. cbn in E. injection E as E1 E2.
  constructor; [| apply IH; assumption].
  unfold sized in *. unfold geometry in E1.
  replace (n_radius n') with (n_radius n) by congruence. assumption.
Qed.

Lemma resolved_length ns ns' e :
  length ns = length ns' -> resolved ns e -> resolved ns' e.
Proof.
  intros Hlen [H1 H2]. unfold resolved, node_at in *.
  destruct (e_from e) as [i |], (e_to e) as [j |];
    try (destruct H1; discriminate); try (destruct H2; discriminate).
  apply lookup_lt_is_Some in H1, H2.
  split; apply lookup_lt_is_Some; lia.
Qed.

Lemma Forall_resolved_length ns ns' es :
  length ns = length ns' ->
  Forall (resolved ns) es -> Forall (resolved ns') es.
Proof.
  intros Hlen H. eapply Forall_impl; [exact H |].
  intros e. apply resolved_length, Hlen.
Qed.

Lemma geometry_length ns ns' :
  map geometry ns = map geometry ns' -> length ns = length ns'.
Proof. intros E. rewrite <- (length_map geometry ns), E. apply length_map. Qed.

Lemma drawNodes_length t ns : length (floated t ns) = length ns.
Proof. apply length_map. Qed.

Lemma drawNodes_flags t ns : flags (floated t ns) = flags ns.
Proof. unfold flags, floated. rewrite map_map. reflexivity. Qed.

Lemma drawNodes_sized t ns : Forall sized ns -> Forall sized (floated t ns).
Proof.
  unfold floated. intros H. apply Forall_map.
  eapply Forall_impl; [exact H |]. intros n Hn. exact Hn.
Qed.

Lemma drawNodes_ids t ns : map n_id (floated t ns) = map n_id ns.
Proof. unfold floated. rewrite map_map. reflexivity. Qed.

(** With every colour one of the table's own, [_drawNodes] completes and has
    moved every node. *)
Lemma drawNodesFrom_colored t hov ns : forall i,
  Forall (fun n => has_color (n_color n) = true) ns ->
  drawNodesFrom t hov i ns = Normal (floated t ns).
Proof.
  induction ns as [| n rest IH]; intros i H; [reflexivity |].
  inversion H as [| ? ? Hn Hrest]; subst.
  cbn [drawNodesFrom floated map]. unfold floated in IH.
  rewrite (IH (S i) Hrest).
  destruct (n_color n); [reflexivity | discriminate | discriminate].
Qed.

Lemma drawNodes_colored t hov ns :
  Forall (fun n => has_color (n_color n) = true) ns ->
  _drawNodes t hov ns = Normal (floated t ns).
Proof. apply drawNodesFrom_colored. Qed.

(** With no node active or hovered, a colour that destructures is enough. *)
Lemma drawNodesFrom_idle t ns : forall i,
  Forall (fun n => n_active n = false) ns ->
  Forall (fun n => is_object (n_color n) = true) ns ->
  drawNodesFrom t None i ns = Normal (floated t ns).
Proof.
  induction ns as [| n rest IH]; intros i Ha Hc; [reflexivity |].
  inversion Ha as [| ? ? Hn Hrest]; subst.
  inversion Hc as [| ? ? Hn' Hrest']; subst.
  cbn [drawNodesFrom floated map isHovered]. unfold floated in IH.
  rewrite (IH (S i) Hrest Hrest'), Hn.
  destruct (n_color n); [reflexivity | reflexivity | discriminate].
Qed.

(** When [_drawNodes] completes, every colour destructures and every node
    has moved. *)
Lemma drawNodesFrom_Normal t hov ns : forall i ns',
  drawNodesFrom t hov i ns = Normal ns' ->
  Forall (fun n => is_object (n_color n) = true) ns /\ ns' = floated t ns.
Proof.
  induction ns as [| n rest IH]; intros i ns' E.
  - injection E as <-. split; [constructor | reflexivity].
  - cbn [drawNodesFrom] in E.
    destruct (drawable _ (n_color n)) eqn:Hd; [| discriminate].
    destruct (drawNodesFrom t hov (S i) rest) as [r | r] eqn:Er;
      [| discriminate].
    injection E as <-. destruct (IH (S i) r Er) as [H ->].
    split; [| reflexivity]. constructor; [| exact H].
    destruct (n_color n); [reflexivity | reflexivity | discriminate].
Qed.

(** Whether it completes or throws, [_drawNodes] leaves every node either
    moved or as it was. *)
Lemma moved_refl t ns : Forall2 (moved t) ns ns.
Proof. induction ns; constructor; [right; reflexivity | assumption]. Qed.

Lemma drawNodesFrom_pointwise t hov ns : forall i,
  Forall2 (moved t) ns (state_of (drawNodesFrom t hov i ns)).
Proof.
  induction ns as [| n rest IH]; intros i; [constructor |].
  cbn [drawNodesFrom].
  destruct (drawable _ _).
  - specialize (IH (S i)).
    destruct (drawNodesFrom t hov (S i) rest); cbn [state_of] in *;
      (constructor; [left; reflexivity | exact IH]).
  - cbn [state_of]. constructor; [left; reflexivity | apply moved_refl].
Qed.

Lemma drawNodes_pointwise t hov ns :
  Forall2 (moved t) ns (state_of (_drawNodes t hov ns)).
Proof. apply drawNodesFrom_pointwise. Qed.

Lemma moved_length t ns ns' : Forall2 (moved t) ns ns' -> length ns' = length ns.
Proof. intros H. symmetry. eapply Forall2_length, H. Qed.

Lemma moved_map {A} (f : Node -> A) t ns ns' :
  (forall n, f (floatNode t n) = f n) ->
  Forall2 (moved t) ns ns' -> map f ns' = map f ns.
Proof.
  intros Hf H. induction H as [| n n' rest rest' Hn _ IH]; [reflexivity |].
  cbn [map]. rewrite IH. destruct Hn as [-> | ->]; [rewrite Hf |]; reflexivity.
Qed.

Lemma moved_Forall (P : Node -> Prop) t ns ns' :
  (forall n, P n -> P (floatNode t n)) ->
  Forall2 (moved t) ns ns' -> Forall P ns -> Forall P ns'.
Proof.
  intros Hf H Hns. induction H as [| n n' rest rest' Hn _ IH]; [constructor |].
  inversion Hns; subst. constructor; [| apply IH; assumption].
  destruct Hn as [-> | ->]; [apply Hf |]; assumption.
Qed.

Lemma moved_flags t ns ns' : Forall2 (moved t) ns ns' -> flags ns' = flags ns.
Proof. apply moved_map. reflexivity. Qed.

Lemma floatNode_geometry_free t n :
  n_id (floatNode t n) = n_id n /\ n_label (floatNode t n) = n_label n /\
  n_group (floatNode t n) = n_group n /\ n_radius (floatNode t n) = n_radius n /\
  n_active (floatNode t n) = n_active n /\ n_color (floatNode t n) = n_color n /\
  n_baseX (floatNode t n) = n_baseX n /\ n_baseY (floatNode t n) = n_baseY n /\
  n_pulsePhase (floatNode t n) = n_pulsePhase n.
Proof. repeat split. Qed.

Lemma layoutFrom_colors random cx cy radius len ds : forall i k,
  map n_color (layoutFrom random cx cy radius len i ds k).1
  = map (fun d => groupColors (d_group d)) ds.
Proof.
  induction ds as [| d rest IH]; intros i k; [reflexivity |].
  layout_step IH. f_equal. exact IH.
Qed.

Lemma layout_colors_Forall (P : Color -> bool) random wd ht cfg k :
  forallb (fun d => P (groupColors (d_group d))) (nodesData cfg) = true ->
  Forall (fun n => P (n_color n) = true)
    (_layoutNodes random wd ht (nodesData cfg) k).1.
Proof.
  intros Hp. rewrite forallb_forall in Hp.
  apply Forall_forall. intros n Hn.
  apply (list_elem_of_fmap_2 n_color) in Hn.
  unfold _layoutNodes in Hn.
  change (map n_color ?l) with (n_color <$> l) in *.
  pose proof (layoutFrom_colors random (wd / 2) (ht / 2 - 30)
                (Rmin wd ht * 0.32) (length (nodesData cfg)) (nodesData cfg) 0 k)
    as E.
  change (map n_color ?l) with (n_color <$> l) in E. rewrite E in Hn.
  apply list_elem_of_fmap in Hn as (d & -> & Hd).
  apply Hp, list_elem_of_In, Hd.
Qed.

Lemma layout_colored random wd ht cfg k :
  palette_ok cfg = true ->
  Forall (fun n => has_color (n_color n) = true)
    (_layoutNodes random wd ht (nodesData cfg) k).1.
Proof. apply layout_colors_Forall. Qed.

Lemma layout_defined random wd ht cfg k :
  palette_defined cfg = true ->
  Forall (fun n => is_object (n_color n) = true)
    (_layoutNodes random wd ht (nodesData cfg) k).1.
Proof. apply layout_colors_Forall. Qed.

Lemma has_color_is_object c : has_color c = true -> is_object c = true.
Proof. destruct c; [reflexivity | discriminate | discriminate]. Qed.

Lemma palette_ok_defined cfg :
  palette_ok cfg = true -> palette_defined cfg = true.
Proof.
  unfold palette_ok, palette_defined. rewrite !forallb_forall.
  intros H d Hd. apply has_color_is_object, H, Hd.
Qed.

Lemma activeCount_flags ns :
  activeCount ns = length (List.filter (fun b : bool => b) (flags ns)).
Proof.
  unfold activeCount, flags. induction ns as [| n rest IH]; [reflexivity |].
  cbn. destruct (n_active n); cbn; rewrite IH; reflexivity.
Qed.

Lemma animate_resolved w :
  edges_resolved w ->
  Forall (fun n => has_color (n_color n) = true) (nodes (viz w)) ->
  _animate w =
  Normal (requestAnimationFrame
            (with_env (env_frame (env w))
               (with_nodes (floated (time (viz w) + 0.015) (nodes (viz w)))
                  (with_time (time (viz w) + 0.015) w)))).
Proof.
  intros H Hc. unfold _animate.
  change (nodes (viz (with_time (time (viz w) + 0.015) w)))
    with (nodes (viz w)).
  change (edges (viz (with_time (time (viz w) + 0.015) w)))
    with (edges (viz w)).
  change (time (viz (with_time (time (viz w) + 0.015) w)))
    with (time (viz w) + 0.015)%R.
  destruct (drawEdges_resolved _ _ H) as [l ->].
  rewrite (drawNodes_colored _ _ _ Hc). reflexivity.
Qed.

(** The first frame: nothing is active or hovered yet. *)
Lemma animate_idle w :
  edges_resolved w ->
  hoveredNode (viz w) = None ->
  Forall (fun n => n_active n = false) (nodes (viz w)) ->
  Forall (fun n => is_object (n_color n) = true) (nodes (viz w)) ->
  _animate w =
  Normal (requestAnimationFrame
            (with_env (env_frame (env w))
               (with_nodes (floated (time (viz w) + 0.015) (nodes (viz w)))
                  (with_time (time (viz w) + 0.015) w)))).
Proof.
  intros H Hh Ha Hc. unfold _animate, hoveredIndex. fields.
  destruct (drawEdges_resolved _ _ H) as [l ->].
  rewrite Hh. unfold _drawNodes.
  rewrite (drawNodesFrom_idle _ _ _ Ha Hc). reflexivity.
Qed.

(** A frame, completed or not, leaves the connections, the document, the HUD
    log and the listeners as they are, and every node moved or in place. *)
Lemma animate_frame w :
  let w' := state_of (_animate w) in
  Forall2 (moved (time (viz w) + 0.015)) (nodes (viz w)) (nodes (viz w')) /\
  edges (viz w') = edges (viz w) /\
  hudIds (viz w') = hudIds (viz w) /\
  hoveredNode (viz w') = hoveredNode (viz w) /\
  mouse (viz w') = mouse (viz w) /\
  width (viz w') = width (viz w) /\
  height (viz w') = height (viz w) /\
  time (viz w') = (time (viz w) + 0.015)%R /\
  document (env w') = document (env w) /\
  hudLog (env w') = hudLog (env w) /\
  bound (env w') = bound (env w) /\
  activateBound (env w') = activateBound (env w) /\
  resetBound (env w') = resetBound (env w) /\
  generation (env w') = generation (env w) /\
  randomCalls (env w') = randomCalls (env w) /\
  cursor (env w') = cursor (env w).
Proof.
  unfold _animate. fields.
  destruct (_drawEdges _ _) as [l |]; cbn [state_of].
  - pose proof (drawNodes_pointwise (time (viz w) + 0.015)
                  (hoveredIndex (with_time (time (viz w) + 0.015) w))
                  (nodes (viz w))) as Hm.
    destruct (_drawNodes _ _ _) as [ns | ns]; cbn [state_of] in Hm;
      unfold requestAnimationFrame; fields; repeat split; exact Hm.
  - fields. repeat split. apply moved_refl.
Qed.

(** ** The invariant of a well-configured instance *)

Section Invariant.
Variable random : nat -> R.
Variable cfg : Config.

Lemma relayout_nodes w :
  nodes (viz (relayout random cfg w))
  = (_layoutNodes random (width (viz w)) (height (viz w)) (nodesData cfg)
       (randomCalls (env w))).1.
Proof.
  unfold relayout. destruct (_layoutNodes _ _ _ _ _) as [ns k]. reflexivity.
Qed.

Lemma relayout_frame w :
  edges (viz (relayout random cfg w)) = edges (viz w) /\
  animId (viz (relayout random cfg w)) = animId (viz w) /\
  hudIds (viz (relayout random cfg w)) = hudIds (viz w) /\
  rafPending (env (relayout random cfg w)) = rafPending (env w) /\
  rafIssued (env (relayout random cfg w)) = rafIssued (env w) /\
  bound (env (relayout random cfg w)) = bound (env w) /\
  document (env (relayout random cfg w)) = document (env w) /\
  hudLog (env (relayout random cfg w)) = hudLog (env w) /\
  frames (env (relayout random cfg w)) = frames (env w).
Proof.
  unfold relayout. destruct (_layoutNodes _ _ _ _ _) as [ns k].
  repeat split; reflexivity.
Qed.

Lemma onResize_nodes rect w :
  nodes (viz (onResize random cfg rect w))
  = (_layoutNodes random (rect_width rect) (rect_height rect) (nodesData cfg)
       (randomCalls (env w))).1.
Proof. unfold onResize, rebuildEdges. cbn. rewrite relayout_nodes. reflexivity. Qed.

Lemma onResize_edges rect w :
  edges (viz (onResize random cfg rect w))
  = _buildEdges (nodes (viz (onResize random cfg rect w))) (edgesData cfg).
Proof. reflexivity. Qed.

Lemma onResize_frame rect w :
  animId (viz (onResize random cfg rect w)) = animId (viz w) /\
  hudIds (viz (onResize random cfg rect w)) = hudIds (viz w) /\
  rafPending (env (onResize random cfg rect w)) = rafPending (env w) /\
  rafIssued (env (onResize random cfg rect w)) = rafIssued (env w) /\
  bound (env (onResize random cfg rect w)) = bound (env w) /\
  document (env (onResize random cfg rect w)) = document (env w) /\
  hudLog (env (onResize random cfg rect w)) = hudLog (env w) /\
  frames (env (onResize random cfg rect w)) = frames (env w).
Proof.
  unfold onResize, rebuildEdges. cbn.
  destruct (relayout_frame (_resize rect w))
    as (_ & H1 & H2 & H3 & H4 & H5 & H6 & H7 & H8).
  repeat split; assumption.
Qed.

(** Resize resets every flag: the nodes are built anew. *)
Lemma onResize_inactive rect w :
  Forall (fun n => n_active n = false) (nodes (viz (onResize random cfg rect w))).
Proof. rewrite onResize_nodes. apply layoutFrom_inactive. Qed.

Hypothesis Hok : config_ok cfg = true.

Lemma onResize_resolved rect w : edges_resolved (onResize random cfg rect w).
Proof.
  unfold edges_resolved. rewrite onResize_edges.
  apply buildEdges_resolved; [exact Hok |].
  rewrite onResize_nodes. apply layoutFrom_ids.
Qed.

Lemma onResize_inv rect w :
  bound (env w) = true -> inv cfg w -> inv cfg (onResize random cfg rect w).
Proof.
  intros Hb (_ & _ & _ & Hraf).
  destruct (onResize_frame rect w) as (Ha & _ & Hp & _ & Hbd & _).
  split; [apply onResize_resolved |]. split; [| split].
  - rewrite onResize_nodes. apply layoutFrom_sized.
  - rewrite Hbd, Hb, onResize_nodes. apply layoutNodes_length.
  - intros h. rewrite Hp, Ha. apply Hraf.
Qed.

Lemma updateHUD_inv w :
  inv cfg w -> exists w', _updateHUD w = Normal w' /\ inv cfg w' /\ viz w' = viz w.
Proof.
  intros (He & Hs & Hl & Hraf). rewrite (updateHUD_resolved w He).
  eexists. split; [reflexivity |]. split; [| reflexivity].
  repeat split; try assumption; apply (Hraf h); assumption.
Qed.

Lemma with_nodes_inv ns w :
  length ns = length (nodes (viz w)) -> Forall sized ns ->
  inv cfg w -> inv cfg (with_nodes ns w).
Proof.
  intros Hlen Hs (He & _ & Hl & Hraf). repeat split; cbn.
  - unfold edges_resolved in *. cbn.
    eapply Forall_resolved_length; [symmetry; exact Hlen | exact He].
  - exact Hs.
  - rewrite Hlen. exact Hl.
  - apply Hraf. assumption.
  - apply (Hraf h). assumption.
Qed.

Lemma pointerDown_inv tol rect cx cy w :
  inv cfg w -> exists w', pointerDown tol rect cx cy w = Normal w' /\ inv cfg w'.
Proof.
  intros H. unfold pointerDown. rewrite toggleFirstHit_firstHit.
  destruct (firstHit tol _ _ (nodes (viz w)) 0) as [j |]; cbn.
  - destruct (updateHUD_inv (with_nodes (alter toggle j (nodes (viz w))) w))
      as (w' & E & Hi & _).
    + apply with_nodes_inv; [apply length_alter | | exact H].
      eapply sized_geometry; [| apply H].
      symmetry. apply map_geometry_alter_toggle.
    + exists w'. split; assumption.
  - exists w. split; [reflexivity | exact H].
Qed.

Lemma setAll_inv b w :
  inv cfg w ->
  exists w', _updateHUD (with_nodes (map (set_active b) (nodes (viz w))) w)
             = Normal w' /\ inv cfg w'.
Proof.
  intros H.
  destruct (updateHUD_inv (with_nodes (map (set_active b) (nodes (viz w))) w))
    as (w' & E & Hi & _).
  - apply with_nodes_inv; [apply length_map | | exact H].
    eapply sized_geometry; [| apply H].
    symmetry. apply map_geometry_set_active.
  - exists w'. split; assumption.
Qed.

Lemma animate_inv w : inv cfg w -> inv cfg (state_of (_animate w)).
Proof.
  intros (He & Hs & Hl & Hraf).
  destruct (animate_frame w)
    as (Hm & Hed & _ & _ & _ & _ & _ & _ & _ & _ & Hb & _).
  pose proof (moved_length _ _ _ Hm) as Hlen.
  split; [| split; [| split]].
  - unfold edges_resolved. rewrite Hed.
    eapply Forall_resolved_length; [symmetry; exact Hlen | exact He].
  - eapply moved_Forall; [| exact Hm | exact Hs]. intros n H. exact H.
  - rewrite Hlen, Hb. exact Hl.
  - unfold _animate. fields.
    destruct (_drawEdges _ _) as [l |]; cbn [state_of]; [| exact Hraf].
    destruct (_drawNodes _ _ _) as [ns | ns]; cbn [state_of];
      [| exact Hraf].
    intros h Hh. cbn in Hh. injection Hh as <-.
    split; [reflexivity | discriminate].
Qed.

Lemma animate_normal w :
  inv cfg w ->
  Forall (fun n => has_color (n_color n) = true) (nodes (viz w)) ->
  exists w', _animate w = Normal w' /\ inv cfg w'.
Proof.
  intros H Hc. pose proof (animate_inv w H) as Hi.
  rewrite (animate_resolved w (proj1 H) Hc) in Hi |- *.
  eexists. split; [reflexivity | exact Hi].
Qed.

Lemma destroy_inv w : inv cfg w -> inv cfg (destroy w).
Proof.
  intros H. unfold destroy. destruct (animId (viz w)) as [[| h] |]; try exact H.
  unfold cancelAnimationFrame. destruct (rafPending (env w)) as [p |]; [| exact H].
  destruct (Nat.eqb p (S h)); [| exact H].
  destruct H as (He & Hs & Hl & Hraf). repeat split; cbn; try assumption;
    discriminate.
Qed.

(** Every handler but the frame callback completes. *)
Lemma dispatch_normal ev w :
  inv cfg w -> is_frame ev = false ->
  exists w', dispatch random cfg ev w = Normal w' /\ inv cfg w'.
Proof.
  intros H Hf. destruct ev; try discriminate; cbn [dispatch].
  - destruct (bound (env w)) eqn:Hb; eexists; (split; [reflexivity |]);
      [apply onResize_inv |]; assumption.
  - destruct (bound (env w)); eexists; (split; [reflexivity |]); [| exact H].
    unfold _updateHover. cbn.
    destruct (firstHit _ _ _ _ _); exact H.
  - destruct (bound (env w)); eexists; (split; [reflexivity |]); exact H.
  - destruct (bound (env w)); [apply pointerDown_inv; exact H |].
    exists w; split; [reflexivity | exact H].
  - destruct (bound (env w)); [apply pointerDown_inv; exact H |].
    exists w; split; [reflexivity | exact H].
  - destruct (activateBound (env w)); [apply setAll_inv; exact H |].
    exists w; split; [reflexivity | exact H].
  - destruct (resetBound (env w)); [apply setAll_inv; exact H |].
    exists w; split; [reflexivity | exact H].
  - exists (destroy w). split; [reflexivity | apply destroy_inv, H].
Qed.

Lemma dispatch_inv ev w :
  inv cfg w -> inv cfg (state_of (dispatch random cfg ev w)).
Proof.
  intros H. destruct (is_frame ev) eqn:Hf.
  - destruct ev; try discriminate. cbn [dispatch].
    destruct (rafPending (env w)) as [p |] eqn:Hp; [| exact H].
    apply animate_inv. destruct H as (He & Hs & Hl & Hraf).
    repeat split; cbn; try assumption; discriminate.
  - destruct (dispatch_normal ev w H Hf) as (w' & -> & H'). exact H'.
Qed.

Lemma bindEvents_inv rect w0 :
  rafPending (env w0) = None ->
  exists w3,
    _bindEvents (onResize random cfg rect w0) = Normal w3 /\ inv cfg w3.
Proof.
  intros Hp0. unfold _bindEvents.
  set (w2 := with_env _ _).
  assert (H2 : inv cfg w2).
  { destruct (onResize_frame rect w0) as (Ha & _ & Hp & _ & Hbd & _).
    split; [| split; [| split]].
    - exact (onResize_resolved rect w0).
    - change (Forall sized (nodes (viz (onResize random cfg rect w0)))).
      rewrite onResize_nodes. apply layoutFrom_sized.
    - change (length (nodes (viz (onResize random cfg rect w0)))
              = length (nodesData cfg)).
      rewrite onResize_nodes. apply layoutNodes_length.
    - intros p Hh.
      change (rafPending (env (onResize random cfg rect w0)) = Some p) in Hh.
      rewrite Hp, Hp0 in Hh. discriminate. }
  destruct (updateHUD_inv w2 H2) as (w3 & E & H3 & _).
  exists w3. split; assumption.
Qed.

Lemma construct_inv canvasId h rect d issued :
  inv cfg (state_of (construct random cfg canvasId h rect d issued)).
Proof.
  unfold construct. destruct (d !! canvasId) as [c |].
  - unfold _init.
    set (w0 := mkWorld _ _).
    change (rebuildEdges cfg (relayout random cfg (_resize rect w0)))
      with (onResize random cfg rect w0).
    destruct (bindEvents_inv rect w0 eq_refl) as (w3 & E & H3).
    unfold _bindEvents in E |- *. rewrite E. cbn [bind].
    apply animate_inv, H3.
  - repeat split; cbn; try constructor; discriminate.
Qed.

Lemma reachable_inv w : reachable random cfg w -> inv cfg w.
Proof.
  induction 1 as [canvasId h rect d issued | w ev _ IH].
  - apply construct_inv.
  - apply dispatch_inv, IH.
Qed.

(** With every edge resolved, no listener ever throws. *)
Lemma reachable_dispatch_normal w ev :
  reachable random cfg w -> is_frame ev = false ->
  is_Normal (dispatch random cfg ev w) = true.
Proof.
  intros H Hf.
  destruct (dispatch_normal ev w (reachable_inv w H) Hf) as (w' & -> & _).
  reflexivity.
Qed.

End Invariant.

(** ** What the constructor leaves behind *)

Lemma activeCount_inactive ns :
  Forall (fun n => n_active n = false) ns -> activeCount ns = 0.
Proof.
  unfold activeCount. induction 1 as [| n rest Hn _ IH]; [reflexivity |].
  cbn. rewrite Hn. exact IH.
Qed.

Lemma no_active_edges ns es :
  Forall (fun n => n_active n = false) ns ->
  List.filter (endpoints_activeb ns) es = [].
Proof.
  intros Hns. induction es as [| e rest IH]; [reflexivity |].
  cbn. rewrite IH. unfold endpoints_activeb.
  destruct (node_at ns (e_from e)) as [a |] eqn:Ha; [| reflexivity].
  destruct (node_at ns (e_to e)) as [b |]; [| reflexivity].
  assert (n_active a = false) as ->; [| reflexivity].
  unfold node_at in Ha. destruct (e_from e) as [i |]; [| discriminate].
  rewrite Forall_forall in Hns. apply Hns.
  eapply list_elem_of_lookup_2. exact Ha.
Qed.

Section Constructed.
Variable random : nat -> R.
Variable cfg : Config.

Lemma relayout_eq w :
  relayout random cfg w =
  let l := _layoutNodes random (width (viz w)) (height (viz w)) (nodesData cfg)
             (randomCalls (env w)) in
  with_nodes l.1 (with_env (env_layout l.2 (env w)) w).
Proof. unfold relayout. destruct (_layoutNodes _ _ _ _ _). reflexivity. Qed.

(** The constructor up to the first frame: the state [_bindEvents] leaves
    when every edge resolves. *)
Lemma construct_bound canvasId h rect d issued :
  config_ok cfg = true ->
  is_Some (d !! canvasId) ->
  exists w3,
    construct random cfg canvasId h rect d issued = _animate w3 /\
    nodes (viz w3) = initial_layout random cfg rect /\
    edges (viz w3) = _buildEdges (initial_layout random cfg rect) (edgesData cfg) /\
    hudIds (viz w3) = h /\
    hudLog (env w3) = [initial_snapshot cfg] /\
    document (env w3) = publish h (initial_snapshot cfg) d /\
    bound (env w3) = true /\
    activateBound (env w3) = bool_decide (is_Some (d !! "activate-all")) /\
    resetBound (env w3) = bool_decide (is_Some (d !! "reset-all")) /\
    rafPending (env w3) = None /\
    rafIssued (env w3) = issued /\
    animId (viz w3) = None /\
    frames (env w3) = 0 /\
    time (viz w3) = 0%R /\
    hoveredNode (viz w3) = None.
Proof.
  intros Hok [c Hc]. unfold construct. rewrite Hc.
  unfold _init, _bindEvents, onResize, rebuildEdges.
  rewrite relayout_eq.
  cbn -[_layoutNodes _buildEdges _updateHUD _animate bool_decide].
  fold (initial_layout random cfg rect).
  assert (Hres : Forall (resolved (initial_layout random cfg rect))
                   (_buildEdges (initial_layout random cfg rect) (edgesData cfg))).
  { apply buildEdges_resolved; [exact Hok |]. apply layoutFrom_ids. }
  assert (Hin : Forall (fun n => n_active n = false) (initial_layout random cfg rect))
    by apply layoutFrom_inactive.
  rewrite updateHUD_resolved by exact Hres.
  unfold resync, metrics.
  cbn -[_layoutNodes _buildEdges _animate bool_decide publish snapshot
        activeCount endpoints_activeb initial_layout].
  rewrite (activeCount_inactive _ Hin), (no_active_edges _ _ Hin).
  replace (length (initial_layout random cfg rect)) with (length (nodesData cfg))
    by (symmetry; apply layoutNodes_length).
  cbn [length]. fold (initial_snapshot cfg).
  eexists. split; [reflexivity |]. repeat split.
Qed.

Lemma construct_eq canvasId h rect d issued :
  config_ok cfg = true ->
  palette_defined cfg = true ->
  is_Some (d !! canvasId) ->
  exists w,
    construct random cfg canvasId h rect d issued = Normal w /\
    nodes (viz w) = floated (0 + 0.015) (initial_layout random cfg rect) /\
    edges (viz w) = _buildEdges (initial_layout random cfg rect) (edgesData cfg) /\
    hudIds (viz w) = h /\
    hudLog (env w) = [initial_snapshot cfg] /\
    document (env w) = publish h (initial_snapshot cfg) d /\
    bound (env w) = true /\
    activateBound (env w) = bool_decide (is_Some (d !! "activate-all")) /\
    resetBound (env w) = bool_decide (is_Some (d !! "reset-all")) /\
    rafPending (env w) = Some (S issued) /\
    animId (viz w) = Some (S issued) /\
    frames (env w) = 1.
Proof.
  intros Hok Hpal Hd.
  destruct (construct_bound canvasId h rect d issued Hok Hd)
    as (w3 & -> & Hn & He & Hh & Hlog & Hdoc & Hb & Ha & Hr & Hp & Hi & Hid
        & Hf & Ht & Hhov).
  rewrite animate_idle.
  - eexists. split; [reflexivity |]. unfold requestAnimationFrame. fields.
    rewrite Hn, Ht, Hi, Hf. repeat split; assumption.
  - unfold edges_resolved. rewrite Hn, He.
    apply buildEdges_resolved; [exact Hok |]. apply layoutFrom_ids.
  - exact Hhov.
  - rewrite Hn. apply layoutFrom_inactive.
  - rewrite Hn. apply layout_defined, Hpal.
Qed.

End Constructed.

(** ** Pointer and button handlers on a resolved state *)

Lemma pointerDown_hit tol rect cx cy w i :
  edges_resolved w ->
  firstHit tol (cx - rect_left rect) (cy - rect_top rect) (nodes (viz w)) 0
    = Some i ->
  pointerDown tol rect cx cy w
  = Normal (resync (with_nodes (alter toggle i (nodes (viz w))) w)).
Proof.
  intros He Hi. unfold pointerDown. rewrite toggleFirstHit_firstHit, Hi.
  cbn [fmap option_fmap option_map]. apply updateHUD_resolved.
  unfold edges_resolved in *. cbn.
  eapply Forall_resolved_length; [| exact He].
  symmetry. apply length_alter.
Qed.

Lemma pointerDown_miss tol rect cx cy w :
  firstHit tol (cx - rect_left rect) (cy - rect_top rect) (nodes (viz w)) 0
    = None ->
  pointerDown tol rect cx cy w = Normal w.
Proof.
  intros Hi. unfold pointerDown. rewrite toggleFirstHit_firstHit, Hi.
  reflexivity.
Qed.

Lemma setAll_resolved b w :
  edges_resolved w ->
  _updateHUD (with_nodes (map (set_active b) (nodes (viz w))) w)
  = Normal (resync (with_nodes (map (set_active b) (nodes (viz w))) w)).
Proof.
  intros He. apply updateHUD_resolved. unfold edges_resolved in *. cbn.
  eapply Forall_resolved_length; [| exact He].
  symmetry. apply length_map.
Qed.

Lemma firstHit_None tol mx my ns :
  firstHit tol mx my ns 0 = None <->
  Forall (fun n => hit tol mx my n = false) ns.
Proof.
  split.
  - intros H. pose proof (firstHit_spec tol mx my ns 0) as S.
    rewrite H in S. exact S.
  - intros H. pose proof (firstHit_spec tol mx my ns 0) as S.
    destruct (firstHit tol mx my ns 0) as [j |]; [| reflexivity].
    destruct S as (k & n & _ & Hk & Hn & _).
    rewrite Forall_forall in H.
    rewrite (H n) in Hn; [discriminate |].
    eapply list_elem_of_lookup_2. exact Hk.
Qed.

Lemma firstHit_Some tol mx my ns i :
  firstHit tol mx my ns 0 = Some i <->
  exists n, ns !! i = Some n /\ hit tol mx my n = true /\
    forall j m, j < i -> ns !! j = Some m -> hit tol mx my m = false.
Proof.
  split.
  - intros H. pose proof (firstHit_spec tol mx my ns 0) as S.
    rewrite H in S. destruct S as (k & n & -> & Hk & Hn & Hlt).
    exists n. auto.
  - intros (n & Hi & Hn & Hlt).
    pose proof (firstHit_spec tol mx my ns 0) as S.
    destruct (firstHit tol mx my ns 0) as [j |].
    + destruct S as (k & m & -> & Hk & Hm & Hlt'). cbn. f_equal.
      destruct (Nat.lt_trichotomy k i) as [Hlt0 | [-> | Hgt]];
        [| reflexivity |].
      * rewrite (Hlt k m Hlt0 Hk) in Hm. discriminate.
      * rewrite (Hlt' i n Hgt Hi) in Hn. discriminate.
    + rewrite Forall_forall in S.
      rewrite (S n) in Hn; [discriminate |].
      eapply list_elem_of_lookup_2. exact Hi.
Qed.

Lemma endpoints_activeb_flags ns e :
  endpoints_activeb ns e = edge_lit (flags ns) e.
Proof.
  unfold endpoints_activeb, edge_lit, node_at, flag_at, flags.
  destruct (e_from e) as [i |], (e_to e) as [j |]; try reflexivity;
    rewrite ?list_lookup_fmap.
  - destruct (ns !! i), (ns !! j); reflexivity.
  - destruct (ns !! i); reflexivity.
Qed.

Lemma metrics_flags w :
  metrics w =
  snapshot (length (List.filter (fun b : bool => b) (flags (nodes (viz w)))))
           (length (flags (nodes (viz w))))
           (length (List.filter (edge_lit (flags (nodes (viz w))))
                      (edges (viz w)))).
Proof.
  unfold metrics. rewrite activeCount_flags.
  replace (length (flags (nodes (viz w)))) with (length (nodes (viz w)))
    by (symmetry; apply length_map).
  do 2 f_equal.
  apply List.filter_ext. intros e. apply endpoints_activeb_flags.
Qed.

Lemma flags_alter_toggle i ns :
  flags (alter toggle i ns) = alter negb i (flags ns).
Proof.
  unfold flags. revert i. induction ns as [| n rest IH]; intros [| i]; cbn;
    try reflexivity.
  f_equal. apply IH.
Qed.

Lemma flags_set_all b ns :
  flags (map (set_active b) ns) = repeat b (length ns).
Proof.
  unfold flags. induction ns as [| n rest IH]; [reflexivity |].
  cbn. f_equal. exact IH.
Qed.

Lemma flags_inactive ns :
  Forall (fun n => n_active n = false) ns ->
  flags ns = repeat false (length ns).
Proof.
  unfold flags. induction 1 as [| n rest Hn _ IH]; [reflexivity |].
  cbn. rewrite Hn, IH. reflexivity.
Qed.

(** ** The shipped graph *)

Lemma shipped_ok : config_ok shipped = true.
Proof. vm_compute. reflexivity. Qed.

Lemma shipped_defined : palette_defined shipped = true.
Proof. reflexivity. Qed.

Lemma shipped_palette : palette_ok shipped = true.
Proof. vm_compute. reflexivity. Qed.

Lemma buildEdges_shipped ns :
  map n_id ns = map d_id shipped_nodesData ->
  _buildEdges ns shipped_edgesData = shipped_edges.
Proof.
  intros H. unfold _buildEdges, nodeMap_of. rewrite H.
  vm_compute. reflexivity.
Qed.

Lemma snapshot_texts a t c :
  t <> 0 ->
  snapshot a t c =
  mkSnapshot (nat_to_string a +:+ " / " +:+ nat_to_string t)
             (nat_to_string c)
             (Z_to_string (round_percent a t) +:+ "%").
Proof. intros Ht. unfold snapshot. rewrite Math_round_ratio by exact Ht. reflexivity. Qed.

(** The core node sits at the centre of the layout and drifts by at most
    three pixels on each axis, so the centre always hits it. *)
Lemma centre_hits_core random cx cy radius len i data k t tol :
  is_core (d_group data) = true ->
  (0 <= tol)%R ->
  hit tol cx cy (floatNode t (layoutNode random cx cy radius len i data k).1)
  = true.
Proof.
  intros Hc Htol. apply hit_spec. unfold floatNode, layoutNode.
  rewrite Hc. cbn [fst set_position n_x n_y n_radius n_baseX n_baseY
                   n_pulsePhase].
  set (a := (INR i / INR len * PI * 2 - PI / 2)%R).
  set (p := (random k * PI * 2)%R).
  pose proof (SIN_bound (t + p)) as [Hs1 Hs2].
  pose proof (COS_bound (t * 0.8 + p)) as [Hc1 Hc2].
  set (s := sin (t + p)) in *. set (c := cos (t * 0.8 + p)) in *.
  replace (cx - (cx + cos a * (0 + 0) + s * 3))%R with (- (s * 3))%R by ring.
  replace (cy - (cy + sin a * (0 + 0) + c * 3))%R with (- (c * 3))%R by ring.
  apply Rlt_le_trans with (r2 := 28%R); [| lra].
  rewrite <- (sqrt_square 28) by lra.
  apply sqrt_lt_1_alt. split; nra.
Qed.

Section ShippedInstance.
Variable random : nat -> R.

Lemma initial_layout_shipped_ids rect :
  map n_id (initial_layout random shipped rect) = map d_id shipped_nodesData.
Proof. apply layoutFrom_ids. Qed.

Lemma initial_layout_shipped_flags rect :
  flags (initial_layout random shipped rect) = repeat false 12.
Proof.
  rewrite flags_inactive by apply layoutFrom_inactive.
  unfold initial_layout. rewrite layoutNodes_length. reflexivity.
Qed.

(** A click at the centre of the layout, right after construction, lands on
    the core node, which is the first of the array. *)
Lemma centre_first_hit rect t tol :
  (0 <= tol)%R ->
  firstHit tol (rect_width rect / 2) (rect_height rect / 2 - 30)
    (floated t (initial_layout random shipped rect)) 0 = Some 0.
Proof.
  intros Htol. unfold initial_layout, _layoutNodes.
  unfold shipped, shipped_nodesData. cbn [nodesData].
  rewrite layoutFrom_cons. unfold floated. cbn [map firstHit].
  rewrite centre_hits_core; [reflexivity | reflexivity | exact Htol].
Qed.

(** One click on the core node of a state that still has the flags of the
    initial layout. *)
Lemma click_core_step rect t w clientX clientY :
  nodes (viz w) = floated t (initial_layout random shipped rect) ->
  edges (viz w)
  = _buildEdges (initial_layout random shipped rect) (edgesData shipped) ->
  bound (env w) = true ->
  (clientX - rect_left rect = rect_width rect / 2)%R ->
  (clientY - rect_top rect = rect_height rect / 2 - 30)%R ->
  let w1 := with_nodes (alter toggle 0 (nodes (viz w))) w in
  dispatch random shipped (Click rect clientX clientY) w = Normal (resync w1)
  /\ flags (nodes (viz w)) = repeat false 12
  /\ flags (nodes (viz w1)) = true :: repeat false 11
  /\ metrics w1 = mkSnapshot "1 / 12" "0" "8%".
Proof.
  intros Hn He Hb Hx Hy w1.
  assert (Hres : edges_resolved w).
  { unfold edges_resolved. rewrite Hn, He.
    eapply Forall_resolved_length; [symmetry; apply drawNodes_length |].
    apply buildEdges_resolved; [exact shipped_ok |].
    apply initial_layout_shipped_ids. }
  assert (Hfl : flags (nodes (viz w)) = repeat false 12)
    by (rewrite Hn, drawNodes_flags; apply initial_layout_shipped_flags).
  assert (Hfl1 : flags (nodes (viz w1)) = true :: repeat false 11)
    by (unfold w1; fields; rewrite flags_alter_toggle, Hfl; reflexivity).
  assert (Hedges : edges (viz w1) = shipped_edges).
  { change (edges (viz w1)) with (edges (viz w)). rewrite He.
    apply buildEdges_shipped, initial_layout_shipped_ids. }
  split; [| split; [exact Hfl | split; [exact Hfl1 |]]].
  - cbn [dispatch]. rewrite Hb. apply (pointerDown_hit _ _ _ _ _ 0 Hres).
    rewrite Hx, Hy, Hn. apply centre_first_hit. unfold click_tolerance. lra.
  - rewrite metrics_flags, Hfl1, Hedges.
    rewrite snapshot_texts by (cbn; lia). vm_compute. reflexivity.
Qed.

(** Construction followed by one click on the core node. *)
Lemma click_core canvasId h rect d issued clientX clientY :
  is_Some (d !! canvasId) ->
  (clientX - rect_left rect = rect_width rect / 2)%R ->
  (clientY - rect_top rect = rect_height rect / 2 - 30)%R ->
  exists w0 w1,
    construct random shipped canvasId h rect d issued = Normal w0 /\
    dispatch random shipped (Click rect clientX clientY) w0 = Normal w1 /\
    flags (nodes (viz w0)) = repeat false 12 /\
    flags (nodes (viz w1)) = true :: repeat false 11 /\
    hudLog (env w1) = [mkSnapshot "1 / 12" "0" "8%";
                       mkSnapshot "0 / 12" "0" "0%"] /\
    document (env w1)
    = publish h (mkSnapshot "1 / 12" "0" "8%")
        (publish h (mkSnapshot "0 / 12" "0" "0%") d) /\
    bound (env w1) = true /\
    hudIds (viz w1) = h /\
    rafPending (env w1) = Some (S issued) /\
    animId (viz w1) = Some (S issued) /\
    frames (env w1) = 1.
Proof.
  intros Hd Hx Hy.
  destruct (construct_eq random shipped canvasId h rect d issued shipped_ok
              shipped_defined Hd)
    as (w0 & E & Hn & He & Hh & Hlog & Hdoc & Hb & _ & _ & Hp & Ha & Hf).
  destruct (click_core_step rect _ w0 clientX clientY Hn He Hb Hx Hy)
    as (E1 & Hfl & Hfl1 & Hm).
  exists w0. eexists. split; [exact E |]. split; [exact E1 |].
  split; [exact Hfl |]. split; [exact Hfl1 |].
  unfold resync. rewrite Hm. fields.
  rewrite Hlog, Hdoc, Hh, Hb, Hp, Ha, Hf.
  unfold initial_snapshot. rewrite snapshot_texts by (cbn; lia).
  repeat split.
Qed.

End ShippedInstance.

(** ** The page as main.js sets it up *)

Lemma page_canvas : is_Some (page_document !! "system-canvas").
Proof. vm_compute. eexists. reflexivity. Qed.

Lemma page_clicked_facts :
  flags (nodes (viz page_clicked)) = true :: repeat false 11 /\
  hudLog (env page_clicked) = [mkSnapshot "1 / 12" "0" "8%";
                               mkSnapshot "0 / 12" "0" "0%"] /\
  document (env page_clicked)
  = publish page_hud (mkSnapshot "1 / 12" "0" "8%")
      (publish page_hud (mkSnapshot "0 / 12" "0" "0%") page_document) /\
  bound (env page_clicked) = true /\
  rafPending (env page_clicked) = Some 1 /\
  animId (viz page_clicked) = Some 1 /\
  frames (env page_clicked) = 1 /\
  reachable steady shipped page_clicked.
Proof.
  destruct (click_core steady "system-canvas" page_hud page_rect page_document
              0 400 270 page_canvas)
    as (w0 & w1 & E0 & E1 & _ & Hf & Hl & Hd & Hb & _ & Hp & Ha & Hfr);
    [cbn; lra | cbn; lra |].
  assert (R1 : reachable steady shipped page_clicked)
    by (apply reach_dispatch, reach_construct).
  unfold page_clicked, page_start in *. rewrite E0 in *. cbn [state_of] in *.
  rewrite E1 in *. cbn [state_of] in *.
  repeat split; assumption.
Qed.

(** C1 (the code departs from the claim): on the shipped page, after a click
    has activated the core node and the HUD reads 1 / 12, a resize event
    leaves every node inactive; it does not resynchronise the HUD, which
    still reads 1 / 12. *)
Theorem C1_resize_resets_active_flags :
  flags (nodes (viz page_clicked)) = true :: repeat false 11 /\
  document (env page_clicked) !! "hud-active" = Some "1 / 12" /\
  flags (nodes (viz page_resized)) = repeat false 12 /\
  document (env page_resized) !! "hud-active" = Some "1 / 12" /\
  hudLog (env page_resized) = hudLog (env page_clicked).
Proof.
  destruct page_clicked_facts as (Hf & Hl & Hd & Hb & _).
  split; [exact Hf |]. split; [rewrite Hd; vm_compute; reflexivity |].
  unfold page_resized. cbn [dispatch]. rewrite Hb. cbn [state_of].
  destruct (onResize_frame steady shipped page_rect page_clicked)
    as (_ & _ & _ & _ & _ & Hdoc & Hlog & _).
  split; [| split; [| exact Hlog]].
  - rewrite flags_inactive by apply onResize_inactive.
    rewrite onResize_nodes, layoutNodes_length. reflexivity.
  - rewrite Hdoc, Hd. vm_compute. reflexivity.
Qed.

(** ** An edge that names no node *)

(** [_buildEdges] keeps every declared pair, and an endpoint that names no
    node becomes an unresolved index: nothing is dropped or reported. *)
Lemma buildEdges_dangling_to ns es a b :
  (a, b) ∈ es -> b ∉ map n_id ns ->
  mkEdge (nodeMap_of ns !! a) None ∈ _buildEdges ns es.
Proof.
  intros Hin Hb. unfold _buildEdges. apply list_elem_of_fmap.
  exists (a, b). split; [| exact Hin].
  unfold resolveEdge. cbn [fst snd]. f_equal. symmetry.
  unfold nodeMap_of. rewrite nodeMap_from_absent by exact Hb.
  apply lookup_empty.
Qed.

Lemma buildEdges_dangling_from ns es a b :
  (a, b) ∈ es -> a ∉ map n_id ns ->
  mkEdge None (nodeMap_of ns !! b) ∈ _buildEdges ns es.
Proof.
  intros Hin Ha. unfold _buildEdges. apply list_elem_of_fmap.
  exists (a, b). split; [| exact Hin].
  unfold resolveEdge. cbn [fst snd]. f_equal. symmetry.
  unfold nodeMap_of. rewrite nodeMap_from_absent by exact Ha.
  apply lookup_empty.
Qed.

(** C2, counterexample: [_buildEdges] takes its input from the fields
    [this.nodes] and [this.edgesData].  With the twelve shipped nodes and
    the edge list [("core", "ghost")] it returns a connection record whose
    target is unresolved, without any report.  A constructor with this list
    goes on, binds the listeners and publishes the first HUD snapshot; only
    the first frame throws, a [TypeError] in [_drawEdges]. *)
Lemma C2_buildEdges_keeps_dangling_edge :
  _buildEdges (initial_layout steady ghost_config page_rect)
    (edgesData ghost_config) = [mkEdge (Some 0) None] /\
  exists w,
    construct steady ghost_config "system-canvas" page_hud page_rect
      page_document 0 = Throw w /\
    edges (viz w) = [mkEdge (Some 0) None] /\
    bound (env w) = true /\
    hudLog (env w) = [mkSnapshot "0 / 12" "0" "0%"] /\
    rafPending (env w) = None /\
    frames (env w) = 0.
Proof.
  assert (Hb : _buildEdges (initial_layout steady ghost_config page_rect)
                 (edgesData ghost_config) = [mkEdge (Some 0) None]).
  { unfold _buildEdges, nodeMap_of, initial_layout, _layoutNodes.
    rewrite layoutFrom_ids. vm_compute. reflexivity. }
  split; [exact Hb |].
  destruct page_canvas as [c Hc].
  unfold construct. rewrite Hc.
  unfold _init, _bindEvents, rebuildEdges.
  rewrite relayout_eq. cbn zeta. unfold _resize, fresh_env. fields.
  fold (initial_layout steady ghost_config page_rect). rewrite Hb.
  assert (Hl : exists n rest,
             initial_layout steady ghost_config page_rect = n :: rest /\
             n_active n = false /\ length rest = 11).
  { unfold initial_layout, _layoutNodes, ghost_config, shipped_nodesData.
    cbn [nodesData]. rewrite layoutFrom_cons.
    eexists _, _. split; [reflexivity |]. split; [reflexivity |].
    rewrite <- (length_map n_id), layoutFrom_ids. reflexivity. }
  destruct Hl as (n & rest & Hl & Hn & Hlen).
  assert (Hrest : length (List.filter n_active rest) = 0).
  { apply activeCount_inactive.
    pose proof (layoutFrom_inactive steady
                  (rect_width page_rect / 2) (rect_height page_rect / 2 - 30)
                  (Rmin (rect_width page_rect) (rect_height page_rect) * 0.32)
                  (length (nodesData ghost_config)) (nodesData ghost_config)
                  0 0) as Hall.
    fold (_layoutNodes steady (rect_width page_rect) (rect_height page_rect)
            (nodesData ghost_config) 0) in Hall.
    fold (initial_layout steady ghost_config page_rect) in Hall.
    rewrite Hl in Hall. inversion Hall; assumption. }
  unfold _updateHUD. fields. rewrite Hl.
  cbn [activeEdges bothActive node_at e_from e_to lookup list_lookup].
  rewrite Hn. cbn [List.filter length bind]. rewrite Hn, Hlen.
  rewrite snapshot_texts by discriminate. rewrite Hrest.
  unfold _animate, requestAnimationFrame. fields.
  cbn [_drawEdges edgeStroke node_at e_from e_to lookup list_lookup option_map].
  rewrite Hn.
  eexists. split; [reflexivity |]. fields.
  repeat split.
Qed.

(** C2, as amended: [_buildEdges] validates nothing.  For every node array
    and edge list it returns one connection record per pair, in the order of
    the list; an endpoint is an index exactly when its identity occurs in the
    node array (and is not the key [__proto__]), and undefined otherwise,
    without any report; so the records all resolve exactly when every
    identity of the list names a node.  The edge list the constructor
    declares has no other pair: in every state the shipped instance can
    reach, every connection resolves. *)
Theorem C2_buildEdges_validates_nothing :
  (forall ns es,
     length (_buildEdges ns es) = length es /\
     (forall i a b, es !! i = Some (a, b) ->
        exists e,
          _buildEdges ns es !! i = Some e /\
          (is_Some (e_from e) <-> a ∈ map n_id ns /\ a <> "__proto__") /\
          (is_Some (e_to e) <-> b ∈ map n_id ns /\ b <> "__proto__") /\
          (resolved ns e <-> is_Some (e_from e) /\ is_Some (e_to e))) /\
     (Forall (resolved ns) (_buildEdges ns es) <->
      forall a b, (a, b) ∈ es ->
        (a ∈ map n_id ns /\ a <> "__proto__") /\
        (b ∈ map n_id ns /\ b <> "__proto__"))) /\
  config_ok shipped = true /\
  (forall random w, reachable random shipped w -> edges_resolved w).
Proof.
  assert (Hres : forall ns p,
            resolved ns (resolveEdge (nodeMap_of ns) p) <->
            is_Some (nodeMap_of ns !! p.1) /\ is_Some (nodeMap_of ns !! p.2)).
  { intros ns p. unfold resolved, resolveEdge. cbn [e_from e_to].
    rewrite !node_at_nodeMap. reflexivity. }
  split; [| split; [exact shipped_ok |]].
  - intros ns es. split; [apply buildEdges_length |]. split.
    + intros i a b Hi. exists (resolveEdge (nodeMap_of ns) (a, b)).
      split.
      { unfold _buildEdges. change (map ?f ?l) with (f <$> l).
        rewrite list_lookup_fmap, Hi. reflexivity. }
      split; [apply nodeMap_resolves |]. split; [apply nodeMap_resolves |].
      apply Hres.
    + unfold _buildEdges. rewrite Forall_forall. split.
      * intros H a b Hin.
        assert (He : resolveEdge (nodeMap_of ns) (a, b)
                     ∈ map (resolveEdge (nodeMap_of ns)) es).
        { apply list_elem_of_fmap. exists (a, b). split; [reflexivity | exact Hin]. }
        apply H, Hres in He as [Ha Hb]. cbn [fst snd] in Ha, Hb.
        split; apply nodeMap_resolves; assumption.
      * intros H e He. apply list_elem_of_fmap in He as ([a b] & -> & Hin).
        apply Hres. cbn [fst snd].
        destruct (H a b Hin) as [Ha Hb].
        split; apply nodeMap_resolves; assumption.
  - intros random w Hr. apply (reachable_inv random shipped shipped_ok w Hr).
Qed.

(** ** The frame loop and teardown *)

Lemma same_loop_refl w : same_loop w w.
Proof. repeat split. Qed.

Lemma same_loop_trans w1 w2 w3 :
  same_loop w1 w2 -> same_loop w2 w3 -> same_loop w1 w3.
Proof. unfold same_loop. intros (? & ? & ?) (? & ? & ?). repeat split; congruence. Qed.

Lemma updateHUD_same_loop w : same_loop w (state_of (_updateHUD w)).
Proof.
  unfold _updateHUD. destruct (activeEdges _ _); repeat split.
Qed.

Lemma pointerDown_same_loop tol rect cx cy w :
  same_loop w (state_of (pointerDown tol rect cx cy w)).
Proof.
  unfold pointerDown. destruct (toggleFirstHit _ _ _ _) as [ns |];
    [| apply same_loop_refl].
  eapply same_loop_trans; [| apply updateHUD_same_loop]. repeat split.
Qed.

Lemma setAll_same_loop b w :
  same_loop w
    (state_of (_updateHUD (with_nodes (map (set_active b) (nodes (viz w))) w))).
Proof.
  eapply same_loop_trans; [| apply updateHUD_same_loop]. repeat split.
Qed.

Lemma loop_inv_same w w' : same_loop w w' -> loop_inv w -> loop_inv w'.
Proof.
  intros (Ha & Hp & _) H h. rewrite Hp, Ha. apply H.
Qed.

Lemma animate_loop_inv w :
  rafPending (env w) = None -> loop_inv (state_of (_animate w)).
Proof.
  intros Hp. unfold _animate. destruct (_drawEdges _ _) as [l |]; cbn [state_of];
    [| intros h Hh; cbn in Hh; congruence].
  destruct (_drawNodes _ _ _) as [ns | ns]; cbn [state_of]; intros h Hh;
    cbn in Hh.
  - injection Hh as <-. split; [reflexivity | discriminate].
  - congruence.
Qed.

Lemma destroy_viz w : viz (destroy w) = viz w.
Proof.
  unfold destroy, cancelAnimationFrame.
  destruct (animId (viz w)) as [[| h] |]; try reflexivity.
  destruct (rafPending (env w)) as [p |]; [| reflexivity].
  destruct (Nat.eqb p (S h)); reflexivity.
Qed.

Lemma destroy_frames w :
  frames (env (destroy w)) = frames (env w) /\
  hudLog (env (destroy w)) = hudLog (env w) /\
  document (env (destroy w)) = document (env w) /\
  bound (env (destroy w)) = bound (env w).
Proof.
  unfold destroy, cancelAnimationFrame.
  destruct (animId (viz w)) as [[| h] |]; try (repeat split; reflexivity).
  destruct (rafPending (env w)) as [p |]; [| repeat split; reflexivity].
  destruct (Nat.eqb p (S h)); repeat split; reflexivity.
Qed.

(** [destroy] cancels the pending frame of a state that satisfies the loop
    invariant. *)
Lemma destroy_cancels w : loop_inv w -> rafPending (env (destroy w)) = None.
Proof.
  intros H. unfold destroy, cancelAnimationFrame.
  destruct (rafPending (env w)) as [p |] eqn:Hp.
  - destruct (H p Hp) as [-> Hne].
    destruct p as [| p']; [congruence |].
    rewrite Nat.eqb_refl. reflexivity.
  - destruct (animId (viz w)) as [[| h] |]; exact Hp.
Qed.

Lemma destroy_stopped w : rafPending (env w) = None -> destroy w = w.
Proof.
  intros Hp. unfold destroy, cancelAnimationFrame. rewrite Hp.
  destruct (animId (viz w)) as [[| h] |]; reflexivity.
Qed.

Section Loop.
Variable random : nat -> R.
Variable cfg : Config.

Lemma onResize_same_loop rect w : same_loop w (onResize random cfg rect w).
Proof.
  destruct (onResize_frame random cfg rect w)
    as (Ha & _ & Hp & _ & _ & _ & _ & Hf).
  repeat split; assumption.
Qed.

Lemma updateHover_same_loop w : same_loop w (_updateHover w).
Proof.
  unfold _updateHover. destruct (mouse (viz w)) as [mx my].
  destruct (firstHit _ _ _ _ _); repeat split.
Qed.

(** Once no frame is pending, no event brings the loop back. *)
Lemma dispatch_stopped ev w :
  rafPending (env w) = None ->
  same_loop w (state_of (dispatch random cfg ev w)).
Proof.
  intros Hp. destruct ev; cbn [dispatch].
  - destruct (bound (env w)); [apply onResize_same_loop | apply same_loop_refl].
  - destruct (bound (env w)); [| apply same_loop_refl]. cbn [state_of].
    eapply same_loop_trans; [| apply updateHover_same_loop]. repeat split.
  - destruct (bound (env w)); repeat split.
  - destruct (bound (env w));
      [apply pointerDown_same_loop | apply same_loop_refl].
  - destruct (bound (env w));
      [apply pointerDown_same_loop | apply same_loop_refl].
  - destruct (activateBound (env w));
      [apply setAll_same_loop | apply same_loop_refl].
  - destruct (resetBound (env w));
      [apply setAll_same_loop | apply same_loop_refl].
  - rewrite Hp. apply same_loop_refl.
  - cbn [state_of]. rewrite destroy_stopped by exact Hp. apply same_loop_refl.
Qed.

Lemma run_stopped evs : forall w,
  rafPending (env w) = None -> same_loop w (run random cfg evs w).
Proof.
  induction evs as [| ev rest IH]; intros w Hp; [apply same_loop_refl |].
  cbn [run fold_left].
  pose proof (dispatch_stopped ev w Hp) as Hs.
  eapply same_loop_trans; [exact Hs |]. apply IH.
  destruct Hs as (_ & -> & _). exact Hp.
Qed.

Lemma dispatch_loop_inv ev w :
  loop_inv w -> loop_inv (state_of (dispatch random cfg ev w)).
Proof.
  intros H. destruct ev; cbn [dispatch].
  - destruct (bound (env w)); [| exact H].
    eapply loop_inv_same; [apply onResize_same_loop | exact H].
  - destruct (bound (env w)); [| exact H]. cbn [state_of].
    eapply loop_inv_same; [apply updateHover_same_loop |]. exact H.
  - destruct (bound (env w)); exact H.
  - destruct (bound (env w)); [| exact H].
    eapply loop_inv_same; [apply pointerDown_same_loop | exact H].
  - destruct (bound (env w)); [| exact H].
    eapply loop_inv_same; [apply pointerDown_same_loop | exact H].
  - destruct (activateBound (env w)); [| exact H].
    eapply loop_inv_same; [apply setAll_same_loop | exact H].
  - destruct (resetBound (env w)); [| exact H].
    eapply loop_inv_same; [apply setAll_same_loop | exact H].
  - destruct (rafPending (env w)) as [p |]; [| exact H].
    apply animate_loop_inv. reflexivity.
  - cbn [state_of]. intros h Hh.
    rewrite destroy_cancels in Hh by exact H. discriminate.
Qed.

Lemma construct_loop_inv canvasId h rect d issued :
  loop_inv (state_of (construct random cfg canvasId h rect d issued)).
Proof.
  unfold construct. destruct (d !! canvasId) as [c |];
    [| intros p Hp; discriminate].
  unfold _init, _bindEvents.
  set (w2 := with_env _ _).
  assert (Hp2 : rafPending (env w2) = None).
  { unfold w2, rebuildEdges. fields.
    destruct (relayout_frame random cfg
                (_resize rect
                   (mkWorld (mkViz true h (-1000, -1000)%R None None 0%R 0%R
                               0%R [] []) (fresh_env d issued))))
      as (_ & _ & _ & Hp & _).
    exact Hp. }
  pose proof (updateHUD_same_loop w2) as (_ & Hp3 & _).
  destruct (_updateHUD w2) as [w3 | w3]; cbn [bind state_of] in *.
  - apply animate_loop_inv. congruence.
  - intros p Hp. congruence.
Qed.

Lemma reachable_loop_inv w : reachable random cfg w -> loop_inv w.
Proof.
  induction 1 as [canvasId h rect d issued | w ev _ IH].
  - apply construct_loop_inv.
  - apply dispatch_loop_inv, IH.
Qed.

End Loop.

(** C3, counterexample: on the shipped page, [destroy] cancels the pending
    frame, yet a click on the core node that arrives afterwards still
    toggles it and pushes a new snapshot to the HUD. *)
Lemma C3_stray_click_pushes_metrics :
  rafPending (env page_destroyed) = None /\
  hudLog (env page_destroyed) = [mkSnapshot "0 / 12" "0" "0%"] /\
  hudLog (env page_stray_click) = [mkSnapshot "1 / 12" "0" "8%";
                                   mkSnapshot "0 / 12" "0" "0%"] /\
  document (env page_stray_click) !! "hud-active" = Some "1 / 12".
Proof.
  destruct (construct_eq steady shipped "system-canvas" page_hud page_rect
              page_document 0 shipped_ok shipped_defined page_canvas)
    as (w0 & E & Hn & He & Hh & Hlog & Hdoc & Hb & _ & _ & Hp & Ha & Hf).
  assert (Hinv : loop_inv w0).
  { intros h Hh'. rewrite Hp in Hh'. injection Hh' as <-.
    split; [exact Ha | discriminate]. }
  unfold page_stray_click, page_destroyed, page_start. rewrite E.
  cbn [state_of dispatch].
  destruct (destroy_frames w0) as (_ & Hl' & Hd' & Hb').
  pose proof (destroy_viz w0) as Hv.
  split; [apply destroy_cancels, Hinv |].
  split; [rewrite Hl'; rewrite Hlog; unfold initial_snapshot;
          rewrite snapshot_texts by (cbn; lia); reflexivity |].
  destruct (click_core_step steady page_rect (0 + 0.015) (destroy w0) 400 270)
    as (E1 & _ & _ & Hm).
  - rewrite Hv. exact Hn.
  - rewrite Hv. exact He.
  - rewrite Hb'. exact Hb.
  - cbn. lra.
  - cbn. lra.
  - cbn [dispatch] in E1. rewrite E1. cbn [state_of]. unfold resync.
    rewrite Hm. fields. rewrite Hl', Hd', Hv, Hlog, Hdoc, Hh.
    unfold initial_snapshot. rewrite snapshot_texts by (cbn; lia).
    split; [reflexivity |]. vm_compute. reflexivity.
Qed.

(** C3, as amended: after [destroy] no frame is pending, and whatever events
    arrive afterwards none is scheduled or rendered; [destroy] completes
    normally on every reachable state, also one whose loop never started,
    and a second call changes nothing.  The listeners stay registered: a
    click or tap that hits a node after teardown toggles it and pushes the
    metrics once more. *)
Theorem C3_destroy_stops_frames random cfg w :
  reachable random cfg w ->
  dispatch random cfg Destroy w = Normal (destroy w) /\
  rafPending (env (destroy w)) = None /\
  (forall evs,
      rafPending (env (run random cfg evs (destroy w))) = None /\
      frames (env (run random cfg evs (destroy w))) = frames (env w)) /\
  dispatch random cfg Destroy (destroy w) = Normal (destroy w) /\
  (forall ev tol rect clientX clientY i,
      (ev = Click rect clientX clientY /\ tol = click_tolerance \/
       ev = TouchStart rect clientX clientY /\ tol = touch_tolerance) ->
      edges_resolved w -> bound (env w) = true ->
      firstHit tol (clientX - rect_left rect) (clientY - rect_top rect)
        (nodes (viz w)) 0 = Some i ->
      let w1 := with_nodes (alter toggle i (nodes (viz w))) (destroy w) in
      dispatch random cfg ev (destroy w) = Normal (resync w1) /\
      hudLog (env (resync w1)) = metrics w1 :: hudLog (env w)).
Proof.
  intros Hr. pose proof (reachable_loop_inv random cfg w Hr) as Hinv.
  pose proof (destroy_cancels w Hinv) as Hnone.
  split; [reflexivity |]. split; [exact Hnone |]. split; [| split].
  - intros evs.
    destruct (run_stopped random cfg evs (destroy w) Hnone) as (_ & Hp & Hf).
    destruct (destroy_frames w) as (Hf' & _).
    split; congruence.
  - cbn [dispatch]. rewrite (destroy_stopped _ Hnone). reflexivity.
  - intros ev tol rect clientX clientY i Hev Hres Hb Hi w1.
    destruct (destroy_frames w) as (_ & Hl & _ & Hb').
    assert (Hres' : edges_resolved (destroy w))
      by (unfold edges_resolved; rewrite destroy_viz; exact Hres).
    assert (E : pointerDown tol rect clientX clientY (destroy w)
                = Normal (resync w1)).
    { unfold w1. rewrite <- (destroy_viz w) at 1.
      apply pointerDown_hit; [exact Hres' |]. rewrite destroy_viz. exact Hi. }
    split.
    + destruct Hev as [[-> ->] | [-> ->]]; cbn [dispatch]; rewrite Hb', Hb;
        exact E.
    + unfold resync, w1. fields. rewrite Hl. reflexivity.
Qed.

Lemma C3_destroy_stops_frames_witness :
  reachable steady shipped page_start /\
  rafPending (env (destroy page_start)) = None /\
  dispatch steady shipped Destroy (destroy page_start)
  = Normal (destroy page_start).
Proof.
  assert (Hr : reachable steady shipped page_start) by apply reach_construct.
  destruct (C3_destroy_stops_frames steady shipped page_start Hr)
    as (_ & H1 & _ & H2 & _).
  split; [exact Hr |]. split; [exact H1 | exact H2].
Defined.

(** ** The sinks *)

Lemma setEl_same id text (d : gmap string string) :
  is_Some (d !! id) -> setEl id text d !! id = Some text.
Proof.
  intros [v Hv]. unfold setEl. rewrite Hv. apply lookup_insert_eq.
Qed.

Lemma setEl_other id text (d : gmap string string) k :
  k <> id -> setEl id text d !! k = d !! k.
Proof.
  intros Hne. unfold setEl. destruct (d !! id); [| reflexivity].
  apply lookup_insert_ne. congruence.
Qed.

Lemma setEl_is_Some id text (d : gmap string string) k :
  is_Some (d !! k) -> is_Some (setEl id text d !! k).
Proof.
  intros Hk. destruct (decide (k = id)) as [-> | Hne].
  - rewrite setEl_same by exact Hk. eexists; reflexivity.
  - rewrite setEl_other by exact Hne. exact Hk.
Qed.

(** The load is written last, so its sink always shows it. *)
Lemma publish_load h s (d : gmap string string) :
  is_Some (d !! hud_load h) -> publish h s d !! hud_load h = Some (s_load s).
Proof.
  intros H. unfold publish. apply setEl_same. do 2 apply setEl_is_Some.
  exact H.
Qed.

Lemma publish_connections h s (d : gmap string string) :
  hud_connections h <> hud_load h ->
  is_Some (d !! hud_connections h) ->
  publish h s d !! hud_connections h = Some (s_connections s).
Proof.
  intros Hne H. unfold publish. rewrite setEl_other by exact Hne.
  apply setEl_same, setEl_is_Some. exact H.
Qed.

(** ** Claims on the metrics *)

(** C4: every recomputation of the metrics on a non-empty node array
    publishes the load [round_percent active total], the integer nearest to
    100 * active / total (a tie going up), and writes it to the load sink
    when the page has one.  With twelve nodes, three active ones give 25%
    and a single one gives "1 / 12" and "8%"; these are the texts after one
    click on the core node of a freshly constructed shipped instance.  For
    each of the thirteen counts the twelve shipped nodes allow, the product
    computed in double precision lies strictly within one half of that
    integer, so the rounding of the source gives the same percentage. *)
Theorem C4_load_is_rounded_percentage :
  (forall w,
      edges_resolved w -> nodes (viz w) <> [] ->
      let a := activeCount (nodes (viz w)) in
      let t := length (nodes (viz w)) in
      exists w' s,
        _updateHUD w = Normal w' /\
        hudLog (env w') = s :: hudLog (env w) /\
        s_active s = nat_to_string a +:+ " / " +:+ nat_to_string t /\
        s_load s = Z_to_string (round_percent a t) +:+ "%" /\
        (- Z.of_nat t <= 2 * (100 * Z.of_nat a - Z.of_nat t * round_percent a t)
         < Z.of_nat t)%Z /\
        (is_Some (document (env w) !! hud_load (hudIds (viz w))) ->
         document (env w') !! hud_load (hudIds (viz w)) = Some (s_load s)) /\
        (t = 12 -> a = 3 -> s_load s = "25%") /\
        (t = 12 -> a = 1 -> s_active s = "1 / 12" /\ s_load s = "8%")) /\
  (forall random canvasId h rect d issued clientX clientY,
      is_Some (d !! canvasId) ->
      (clientX - rect_left rect = rect_width rect / 2)%R ->
      (clientY - rect_top rect = rect_height rect / 2 - 30)%R ->
      exists w0 w1,
        construct random shipped canvasId h rect d issued = Normal w0 /\
        dispatch random shipped (Click rect clientX clientY) w0 = Normal w1 /\
        flags (nodes (viz w1)) = true :: repeat false 11 /\
        hudLog (env w1) = mkSnapshot "1 / 12" "0" "8%" :: hudLog (env w0)) /\
  forallb (fun a => strictly_nearest (double_product a 12) (round_percent a 12))
          (seq 0 13) = true.
Proof.
  split; [| split; [| vm_compute; reflexivity]].
  - intros w Hres Hne a t.
    assert (Ht : t <> 0)
      by (unfold t; destruct (nodes (viz w)); [congruence | discriminate]).
    rewrite (updateHUD_resolved w Hres).
    exists (resync w), (metrics w). split; [reflexivity |].
    split; [reflexivity |].
    unfold metrics. fold a t. rewrite snapshot_texts by exact Ht.
    cbn [s_active s_load].
    split; [reflexivity |]. split; [reflexivity |].
    split; [apply round_percent_nearest, Ht |].
    split; [| split].
    + intros Hs. unfold resync. fields.
      rewrite publish_load by exact Hs. unfold metrics. fold a t.
      rewrite snapshot_texts by exact Ht. reflexivity.
    + intros -> ->. reflexivity.
    + intros -> ->. split; reflexivity.
  - intros random canvasId h rect d issued clientX clientY Hd Hx Hy.
    destruct (click_core random canvasId h rect d issued clientX clientY
                Hd Hx Hy)
      as (w0 & w1 & E0 & E1 & _ & Hf & Hl & _).
    destruct (construct_eq random shipped canvasId h rect d issued
                shipped_ok shipped_defined Hd)
      as (w0' & E0' & _ & _ & _ & Hl0 & _).
    rewrite E0 in E0'. injection E0' as <-.
    exists w0, w1. split; [exact E0 |]. split; [exact E1 |].
    split; [exact Hf |]. rewrite Hl, Hl0. unfold initial_snapshot.
    rewrite snapshot_texts by (cbn; lia). reflexivity.
Qed.

Lemma C4_load_is_rounded_percentage_witness :
  let w := sample_world [true; false; true; true; false; false;
                         false; false; false; false; false; false]
             [mkEdge (Some 0) (Some 2); mkEdge (Some 0) (Some 1)] in
  edges_resolved w /\ nodes (viz w) <> [] /\
  exists w' s,
    _updateHUD w = Normal w' /\ hudLog (env w') = s :: hudLog (env w) /\
    s_load s = "25%".
Proof.
  intros w.
  assert (Hres : edges_resolved w)
    by (repeat constructor; eexists; reflexivity).
  assert (Hne : nodes (viz w) <> []) by discriminate.
  split; [exact Hres |]. split; [exact Hne |].
  destruct (proj1 C4_load_is_rounded_percentage w Hres Hne)
    as (w' & s & E & Hl & _ & _ & _ & _ & H25 & _).
  exists w', s. split; [exact E |]. split; [exact Hl |].
  apply H25; reflexivity.
Defined.

(** C5: on a state whose connections resolve, the filter of [_updateHUD]
    and the style decision of [_drawEdges] hold a connection for active
    exactly when both its endpoint nodes are active, and the published
    connection count is the number of such edges. *)
Theorem C5_both_active_iff_endpoints_active w :
  edges_resolved w ->
  let ns := nodes (viz w) in
  (forall e, e ∈ edges (viz w) ->
     exists b s,
       bothActive ns e = Some b /\ (b = true <-> endpoints_active ns e) /\
       edgeStroke ns e = Some s /\ (s = Strong <-> endpoints_active ns e)) /\
  (forall e, endpoints_activeb ns e = true <-> endpoints_active ns e) /\
  exists w' s,
    _updateHUD w = Normal w' /\
    hudLog (env w') = s :: hudLog (env w) /\
    s_connections s
    = nat_to_string (length (List.filter (endpoints_activeb ns) (edges (viz w))))
    /\
    (hud_connections (hudIds (viz w)) <> hud_load (hudIds (viz w)) ->
     is_Some (document (env w) !! hud_connections (hudIds (viz w))) ->
     document (env w') !! hud_connections (hudIds (viz w))
     = Some (s_connections s)).
Proof.
  intros Hres ns. split; [| split].
  - intros e He. unfold edges_resolved in Hres. rewrite Forall_forall in Hres.
    specialize (Hres e He).
    destruct (edgeStroke_resolved ns e Hres) as (s & Hs & Hiff).
    exists (endpoints_activeb ns e), s.
    split; [apply bothActive_resolved, Hres |].
    split; [apply endpoints_activeb_spec |].
    split; [exact Hs |].
    rewrite Hiff. apply endpoints_activeb_spec.
  - intros e. apply endpoints_activeb_spec.
  - rewrite (updateHUD_resolved w Hres).
    exists (resync w), (metrics w). split; [reflexivity |].
    split; [reflexivity |]. split; [reflexivity |].
    intros Hne Hs. unfold resync. fields.
    apply publish_connections; assumption.
Qed.

Lemma C5_both_active_iff_endpoints_active_witness :
  let w := sample_world [true; false; true]
             [mkEdge (Some 0) (Some 2); mkEdge (Some 0) (Some 1)] in
  edges_resolved w /\
  exists w' s,
    _updateHUD w = Normal w' /\ hudLog (env w') = s :: hudLog (env w) /\
    s_connections s = "1".
Proof.
  intros w.
  assert (Hres : edges_resolved w)
    by (repeat constructor; eexists; reflexivity).
  split; [exact Hres |].
  destruct (C5_both_active_iff_endpoints_active w Hres)
    as (_ & _ & w' & s & E & Hl & Hc & _).
  exists w', s. split; [exact E |]. split; [exact Hl |]. exact Hc.
Defined.

(** ** Claims on construction *)

(** C6: an instance constructed on an existing canvas from a node table of
    N >= 1 entries (the constructor's own has 12) and edges that all resolve
    has, in the state the constructor leaves, N nodes that are all inactive,
    and its one publication so far reports "0 / N" active nodes, 0 active
    connections and load "0%"; the constructor returns normally when no
    group lacks a colour. *)
Theorem C6_initial_metrics_zero random cfg canvasId h rect d issued :
  config_ok cfg = true ->
  nodesData cfg <> [] ->
  is_Some (d !! canvasId) ->
  let c := construct random cfg canvasId h rect d issued in
  let w := state_of c in
  let first :=
    mkSnapshot ("0 / " +:+ nat_to_string (length (nodesData cfg))) "0" "0%" in
  length (nodes (viz w)) = length (nodesData cfg) /\
  length (edges (viz w)) = length (edgesData cfg) /\
  Forall (fun n => n_active n = false) (nodes (viz w)) /\
  activeCount (nodes (viz w)) = 0 /\
  length (List.filter (endpoints_activeb (nodes (viz w))) (edges (viz w))) = 0 /\
  hudLog (env w) = [first] /\
  document (env w) = publish h first d /\
  (palette_defined cfg = true -> c = Normal w).
Proof.
  intros Hok Hne Hd c w first.
  destruct (construct_bound random cfg canvasId h rect d issued Hok Hd)
    as (w3 & E & Hn & He & _ & Hl & Hdoc & _).
  destruct (animate_frame w3)
    as (Hm & Hed & _ & _ & _ & _ & _ & _ & Hdoc' & Hlog' & _).
  fold c in E. rewrite <- E in Hm, Hed, Hdoc', Hlog'. fold w in Hm, Hed, Hdoc', Hlog'.
  assert (Hin : Forall (fun n => n_active n = false) (nodes (viz w))).
  { eapply moved_Forall; [| exact Hm |].
    - intros n Hna. exact Hna.
    - rewrite Hn. apply layoutFrom_inactive. }
  assert (Hs : initial_snapshot cfg = first).
  { unfold initial_snapshot, first.
    rewrite snapshot_texts
      by (destruct (nodesData cfg); [congruence | discriminate]).
    unfold round_percent.
    rewrite Z.div_small by (destruct (nodesData cfg); [congruence | cbn; lia]).
    reflexivity. }
  split; [rewrite (moved_length _ _ _ Hm), Hn; apply layoutNodes_length |].
  split; [rewrite Hed, He; apply buildEdges_length |].
  split; [exact Hin |].
  split; [apply activeCount_inactive, Hin |].
  split; [rewrite (no_active_edges _ _ Hin); reflexivity |].
  split; [rewrite Hlog', Hl, Hs; reflexivity |].
  split; [rewrite Hdoc', Hdoc, Hs; reflexivity |].
  intros Hpal.
  destruct (construct_eq random cfg canvasId h rect d issued Hok Hpal Hd)
    as (w' & E' & _).
  unfold w. fold c in E'. rewrite E'. reflexivity.
Qed.

Lemma C6_initial_metrics_zero_witness :
  config_ok shipped = true /\ nodesData shipped <> [] /\
  is_Some (page_document !! "system-canvas") /\
  exists w,
    construct steady shipped "system-canvas" page_hud page_rect page_document 0
    = Normal w /\
    length (nodes (viz w)) = 12 /\
    Forall (fun n => n_active n = false) (nodes (viz w)) /\
    hudLog (env w) = [mkSnapshot "0 / 12" "0" "0%"].
Proof.
  assert (Hne : nodesData shipped <> []) by discriminate.
  split; [exact shipped_ok |]. split; [exact Hne |].
  split; [exact page_canvas |].
  destruct (C6_initial_metrics_zero steady shipped "system-canvas" page_hud
              page_rect page_document 0 shipped_ok Hne page_canvas)
    as (Hlen & _ & Hin & _ & _ & Hl & _ & E).
  eexists. split; [exact (E eq_refl) |].
  split; [exact Hlen |]. split; [exact Hin | exact Hl].
Defined.

(** ** Claims on the pointer handlers *)

Lemma dispatch_pointer random cfg ev tol rect clientX clientY w :
  pointer_event ev tol rect clientX clientY ->
  dispatch random cfg ev w
  = if bound (env w) then pointerDown tol rect clientX clientY w else Normal w.
Proof. intros [[-> ->] | [-> ->]]; reflexivity. Qed.

Lemma lookup_alter_toggle_ne (ns : list Node) i j :
  j <> i -> alter toggle i ns !! j = ns !! j.
Proof. intros H. apply list_lookup_alter_ne. congruence. Qed.

Lemma lookup_alter_toggle (ns : list Node) i n :
  ns !! i = Some n -> alter toggle i ns !! i = Some (toggle n).
Proof. intros H. rewrite list_lookup_alter_eq, H. reflexivity. Qed.

(** C7: in every reachable state of a well-configured instance, a click or
    tap whose position hits some node flips the flag of exactly one node
    that it hits, leaves every other node, all positions and identities and
    the connections as they were, and publishes the metrics once; a click or
    tap that hits no node changes nothing and publishes nothing. *)
Theorem C7_click_toggles_only_hit_node
    random cfg w ev tol rect clientX clientY :
  config_ok cfg = true ->
  reachable random cfg w ->
  pointer_event ev tol rect clientX clientY ->
  let mx := (clientX - rect_left rect)%R in
  let my := (clientY - rect_top rect)%R in
  ((exists n, n ∈ nodes (viz w) /\ hit tol mx my n = true) ->
   exists i n w',
     nodes (viz w) !! i = Some n /\ hit tol mx my n = true /\
     dispatch random cfg ev w = Normal w' /\
     nodes (viz w') !! i = Some (toggle n) /\
     n_active (toggle n) = negb (n_active n) /\
     (forall j, j <> i -> nodes (viz w') !! j = nodes (viz w) !! j) /\
     map geometry (nodes (viz w')) = map geometry (nodes (viz w)) /\
     edges (viz w') = edges (viz w) /\
     hudLog (env w') = metrics w' :: hudLog (env w)) /\
  ((forall n, n ∈ nodes (viz w) -> hit tol mx my n = false) ->
   dispatch random cfg ev w = Normal w).
Proof.
  intros Hok Hr Hev mx my.
  pose proof (reachable_inv random cfg Hok w Hr) as (Hres & _ & Hlen & _).
  rewrite (dispatch_pointer random cfg ev tol rect clientX clientY w Hev).
  split.
  - intros (n0 & Hin0 & Hhit0).
    destruct (bound (env w)).
    2:{ destruct (nodes (viz w)); [inversion Hin0 | discriminate]. }
    destruct (firstHit tol mx my (nodes (viz w)) 0) as [i |] eqn:Hi.
    + pose proof Hi as Hi'. apply firstHit_Some in Hi' as (n & Hn & Hhit & _).
      exists i, n. eexists.
      split; [exact Hn |]. split; [exact Hhit |].
      split; [apply (pointerDown_hit _ _ _ _ _ i Hres Hi) |].
      unfold resync. fields.
      split; [apply lookup_alter_toggle, Hn |].
      split; [reflexivity |].
      split; [intros j Hj; apply lookup_alter_toggle_ne, Hj |].
      split; [apply map_geometry_alter_toggle |].
      split; reflexivity.
    + apply firstHit_None in Hi. rewrite Forall_forall in Hi.
      rewrite (Hi n0 Hin0) in Hhit0. discriminate.
  - intros Hmiss. destruct (bound (env w)); [| reflexivity].
    apply pointerDown_miss. apply firstHit_None, Forall_forall. exact Hmiss.
Qed.

Lemma page_start_centre_hit :
  exists n, n ∈ nodes (viz page_start) /\
            hit click_tolerance (400 - 0) (270 - 0) n = true.
Proof.
  destruct (construct_eq steady shipped "system-canvas" page_hud page_rect
              page_document 0 shipped_ok shipped_defined page_canvas)
    as (w0 & E & Hn & _).
  unfold page_start. rewrite E. cbn [state_of].
  pose proof (centre_first_hit steady page_rect (0 + 0.015) click_tolerance)
    as Hc.
  rewrite <- Hn in Hc.
  replace (rect_width page_rect / 2)%R with (400 - 0)%R in Hc by (cbn; lra).
  replace (rect_height page_rect / 2 - 30)%R with (270 - 0)%R in Hc
    by (cbn; lra).
  apply firstHit_Some in Hc as (n & Hl & Hh & _);
    [| unfold click_tolerance; lra].
  exists n. split; [eapply list_elem_of_lookup_2; exact Hl | exact Hh].
Qed.

Lemma C7_click_toggles_only_hit_node_witness :
  config_ok shipped = true /\
  reachable steady shipped page_start /\
  pointer_event (Click page_rect 400 270) click_tolerance page_rect 400 270 /\
  exists i n w',
    nodes (viz page_start) !! i = Some n /\
    dispatch steady shipped (Click page_rect 400 270) page_start = Normal w' /\
    nodes (viz w') !! i = Some (toggle n) /\
    hudLog (env w') = metrics w' :: hudLog (env page_start).
Proof.
  assert (Hr : reachable steady shipped page_start) by apply reach_construct.
  assert (Hev : pointer_event (Click page_rect 400 270) click_tolerance
                  page_rect 400 270) by (left; split; reflexivity).
  split; [exact shipped_ok |]. split; [exact Hr |]. split; [exact Hev |].
  destruct (proj1 (C7_click_toggles_only_hit_node steady shipped page_start
                     (Click page_rect 400 270) click_tolerance page_rect
                     400 270 shipped_ok Hr Hev) page_start_centre_hit)
    as (i & n & w' & Hn & _ & E & Ht & _ & _ & _ & _ & Hl).
  exists i, n, w'. repeat split; assumption.
Defined.

(** C8: from every reachable state of a well-configured instance, "activate
    all" sets every flag and "reset all" clears every flag, so that the
    pair leaves no node active whatever the flags were before; each of the
    two publishes the metrics exactly once, and neither moves a node. *)
Theorem C8_activate_then_reset random cfg w :
  config_ok cfg = true ->
  reachable random cfg w ->
  exists w1 w2,
    activateAll w = Normal w1 /\
    resetAll w1 = Normal w2 /\
    (activateBound (env w) = true ->
     dispatch random cfg ActivateAllClick w = Normal w1) /\
    (resetBound (env w) = true ->
     dispatch random cfg ResetAllClick w1 = Normal w2) /\
    Forall (fun n => n_active n = true) (nodes (viz w1)) /\
    Forall (fun n => n_active n = false) (nodes (viz w2)) /\
    activeCount (nodes (viz w1)) = length (nodes (viz w)) /\
    activeCount (nodes (viz w2)) = 0 /\
    map geometry (nodes (viz w2)) = map geometry (nodes (viz w)) /\
    hudLog (env w1) = metrics w1 :: hudLog (env w) /\
    hudLog (env w2) = metrics w2 :: hudLog (env w1).
Proof.
  intros Hok Hr.
  pose proof (reachable_inv random cfg Hok w Hr) as (Hres & _).
  unfold activateAll, resetAll.
  rewrite (setAll_resolved true w Hres).
  set (w1 := resync (with_nodes (map (set_active true) (nodes (viz w))) w)).
  assert (Hres1 : edges_resolved w1).
  { unfold edges_resolved, w1, resync. fields.
    eapply Forall_resolved_length; [| exact Hres].
    symmetry. apply length_map. }
  exists w1.
  rewrite (setAll_resolved false w1 Hres1).
  set (w2 := resync (with_nodes (map (set_active false) (nodes (viz w1))) w1)).
  assert (Hall1 : Forall (fun n => n_active n = true) (nodes (viz w1))).
  { unfold w1, resync. fields. apply Forall_map, Forall_forall.
    intros n _. reflexivity. }
  assert (Hall2 : Forall (fun n => n_active n = false) (nodes (viz w2))).
  { unfold w2, resync. fields. apply Forall_map, Forall_forall.
    intros n _. reflexivity. }
  exists w2. split; [reflexivity |]. split; [reflexivity |].
  split; [intros Hb; cbn [dispatch]; rewrite Hb;
          apply (setAll_resolved true w Hres) |].
  split; [intros Hb; cbn [dispatch];
          change (resetBound (env w1)) with (resetBound (env w));
          rewrite Hb; apply (setAll_resolved false w1 Hres1) |].
  split; [exact Hall1 |]. split; [exact Hall2 |].
  split.
  { rewrite activeCount_flags. unfold w1, resync. fields.
    rewrite flags_set_all. generalize (length (nodes (viz w))).
    intros k. induction k as [| k IH]; [reflexivity |].
    cbn. f_equal. exact IH. }
  split; [apply activeCount_inactive, Hall2 |].
  split.
  { unfold w2, w1, resync. fields.
    rewrite !map_geometry_set_active. reflexivity. }
  split; reflexivity.
Qed.

Lemma C8_activate_then_reset_witness :
  config_ok shipped = true /\
  reachable steady shipped page_clicked /\
  activeCount (nodes (viz page_clicked)) = 1 /\
  exists w1 w2,
    activateAll page_clicked = Normal w1 /\ resetAll w1 = Normal w2 /\
    activeCount (nodes (viz w2)) = 0.
Proof.
  destruct page_clicked_facts as (Hf & _ & _ & _ & _ & _ & _ & Hr).
  split; [exact shipped_ok |]. split; [exact Hr |].
  split; [rewrite activeCount_flags, Hf; reflexivity |].
  destruct (C8_activate_then_reset steady shipped page_clicked shipped_ok Hr)
    as (w1 & w2 & E1 & E2 & _ & _ & _ & _ & _ & H0 & _).
  exists w1, w2. repeat split; assumption.
Defined.

Lemma hit_centre tol n :
  (0 < n_radius n + tol)%R -> hit tol (n_x n) (n_y n) n = true.
Proof.
  intros H. apply hit_spec.
  replace ((n_x n - n_x n) * (n_x n - n_x n)
           + (n_y n - n_y n) * (n_y n - n_y n))%R with 0%R by ring.
  rewrite sqrt_0. exact H.
Qed.

Lemma alter_toggle_changes (ns : list Node) j m :
  ns !! j = Some m -> alter toggle j ns <> ns.
Proof.
  intros Hj E. apply (f_equal (fun l => n_active <$> l !! j)) in E.
  rewrite list_lookup_alter_eq, Hj in E. cbn in E.
  destruct (n_active m); discriminate.
Qed.

(** A click or tap with some node under it: the listener runs to its end
    and has toggled the first such node. *)
Lemma pointer_hit random cfg w ev tol rect clientX clientY i n :
  inv cfg w ->
  pointer_event ev tol rect clientX clientY ->
  nodes (viz w) !! i = Some n ->
  hit tol (clientX - rect_left rect) (clientY - rect_top rect) n = true ->
  exists j m,
    j <= i /\ nodes (viz w) !! j = Some m /\
    hit tol (clientX - rect_left rect) (clientY - rect_top rect) m = true /\
    (forall k m', k < j -> nodes (viz w) !! k = Some m' ->
       hit tol (clientX - rect_left rect) (clientY - rect_top rect) m' = false)
    /\
    dispatch random cfg ev w
    = Normal (resync (with_nodes (alter toggle j (nodes (viz w))) w)).
Proof.
  intros (Hres & _ & Hlen & _) Hev Hi Hn.
  assert (Hb : bound (env w) = true).
  { destruct (bound (env w)); [reflexivity |].
    apply lookup_lt_Some in Hi. lia. }
  destruct (firstHit tol (clientX - rect_left rect) (clientY - rect_top rect)
              (nodes (viz w)) 0) as [j |] eqn:Hf.
  - pose proof Hf as Hf'. apply firstHit_Some in Hf' as (m & Hj & Hm & Hlt).
    exists j, m. split.
    { destruct (Nat.le_gt_cases j i) as [Hle | Hgt]; [exact Hle |].
      rewrite (Hlt i n Hgt Hi) in Hn. discriminate. }
    split; [exact Hj |]. split; [exact Hm |]. split; [exact Hlt |].
    rewrite (dispatch_pointer random cfg ev tol rect clientX clientY w Hev), Hb.
    apply pointerDown_hit; assumption.
  - apply firstHit_None in Hf. rewrite Forall_forall in Hf.
    rewrite (Hf n) in Hn; [discriminate |].
    eapply list_elem_of_lookup_2. exact Hi.
Qed.

Lemma pointer_miss random cfg w ev tol rect clientX clientY :
  pointer_event ev tol rect clientX clientY ->
  (forall n, n ∈ nodes (viz w) ->
     hit tol (clientX - rect_left rect) (clientY - rect_top rect) n = false) ->
  firstHit tol (clientX - rect_left rect) (clientY - rect_top rect)
    (nodes (viz w)) 0 = None /\
  dispatch random cfg ev w = Normal w.
Proof.
  intros Hev Hfar.
  assert (Hnone : firstHit tol (clientX - rect_left rect)
                    (clientY - rect_top rect) (nodes (viz w)) 0 = None)
    by (apply firstHit_None, Forall_forall; exact Hfar).
  split; [exact Hnone |].
  rewrite (dispatch_pointer random cfg ev tol rect clientX clientY w Hev).
  destruct (bound (env w)); [| reflexivity].
  apply pointerDown_miss, Hnone.
Qed.

(** The core node right after a resize of the shipped page: it sits at the
    centre of the layout, (400, 270) on the 800 by 600 canvas. *)
Lemma page_resized_core :
  exists n,
    nodes (viz page_resized) !! 0 = Some n /\
    n_x n = 400%R /\ n_y n = 270%R /\ n_radius n = 28%R.
Proof.
  destruct page_clicked_facts as (_ & _ & _ & Hb & _).
  unfold page_resized. cbn [dispatch]. rewrite Hb. cbn [state_of].
  rewrite onResize_nodes. unfold _layoutNodes, shipped, shipped_nodesData.
  cbn [nodesData]. rewrite layoutFrom_cons.
  eexists. split; [reflexivity |].
  unfold layoutNode. cbn. repeat split; lra.
Qed.

(** C9, counterexample: the shipped page after a click and a resize, before
    the next frame; the core node is at (400, 270) with radius 28.  A click
    at clientX = 402.8525356234577, clientY = 237.123518428565 is nearer to
    that centre than 33 = radius + tolerance (by 9e-16), so the distance
    test holds; but evaluated in double precision, as the listener does,
    [Math.sqrt(dx * dx + dy * dy)] is 33 exactly and the test fails. *)
Lemma C9_double_test_misses_below_bound :
  let mX := 442941047197037%positive in
  let mY := 8343042103403643%positive in
  (exists n,
     nodes (viz page_resized) !! 0 = Some n /\
     n_x n = 400%R /\ n_y n = 270%R /\ n_radius n = 28%R /\
     (distance (dyadic_real mX 40 - rect_left page_rect)
               (dyadic_real mY 45 - rect_top page_rect) n
      < n_radius n + click_tolerance)%R) /\
  hit_double (double_of_Z 5) (dyadic_double mX 40) (dyadic_double mY 45)
    (double_of_Z 0) (double_of_Z 0) (double_of_Z 400) (double_of_Z 270)
    (double_of_Z 28) = false /\
  PrimFloat.eqb (dyadic_double mX 40) Literal.clickX = true /\
  PrimFloat.eqb (dyadic_double mY 45) Literal.clickY = true.
Proof.
  intros mX mY. split; [| split; [| split]]; [| vm_compute; reflexivity ..].
  destruct page_resized_core as (n & Hn & Hx & Hy & Hr).
  exists n. split; [exact Hn |]. split; [exact Hx |]. split; [exact Hy |].
  split; [exact Hr |].
  unfold distance, dyadic_real, click_tolerance, mX, mY. rewrite Hx, Hy, Hr.
  cbn [rect_left rect_top page_rect].
  replace (28 + 5)%R with (sqrt (33 * 33)) by (rewrite sqrt_square; lra).
  apply sqrt_lt_1_alt.
  change (Pos.pow 2 (Pos.of_nat 40)) with 1099511627776%positive.
  change (Pos.pow 2 (Pos.of_nat 45)) with 35184372088832%positive.
  split; [nra | lra].
Qed.

(** In the other direction: for a node of radius 22 at
    (2.8692218302027315, 2.859348502295565) and a click at
    (27.031656452223572, 14.908280120350694), the distance is not below 27,
    yet the double-precision square root is 26.999999999999996 and the test
    passes. *)
Remark double_test_hits_at_bound :
  let nX := dyadic_real 6460913182672157 51 in
  let nY := dyadic_real 3219340212365173 50 in
  let pX := dyadic_real 1902183717585021 46 in
  let pY := dyadic_real 8392615599343295 49 in
  (22 + click_tolerance
   <= sqrt ((pX - nX) * (pX - nX) + (pY - nY) * (pY - nY)))%R /\
  hit_double (double_of_Z 5)
    (dyadic_double 1902183717585021 46) (dyadic_double 8392615599343295 49)
    (double_of_Z 0) (double_of_Z 0)
    (dyadic_double 6460913182672157 51) (dyadic_double 3219340212365173 50)
    (double_of_Z 22) = true.
Proof.
  intros nX nY pX pY. split; [| vm_compute; reflexivity].
  unfold nX, nY, pX, pY, dyadic_real, click_tolerance.
  change (Pos.pow 2 (Pos.of_nat 51)) with 2251799813685248%positive.
  change (Pos.pow 2 (Pos.of_nat 50)) with 1125899906842624%positive.
  change (Pos.pow 2 (Pos.of_nat 46)) with 70368744177664%positive.
  change (Pos.pow 2 (Pos.of_nat 49)) with 562949953421312%positive.
  replace (22 + 5)%R with (sqrt (27 * 27)) by (rewrite sqrt_square; lra).
  apply sqrt_le_1_alt. lra.
Qed.

(** C9, as amended: in exact arithmetic the hit test passes exactly when
    the Euclidean distance from the pointer to the rendered position [x],
    [y] of the node (the anchor plays no part) is below the radius plus the
    tolerance, 5 for a click and 10 for a tap.  In every reachable state of
    a well-configured instance a pointer at the rendered centre of a node
    passes the test for that node; a click or tap nearer to some node than
    its radius plus the listener's tolerance toggles the first such node and
    publishes the metrics; one at a distance of at least radius plus
    tolerance from every node changes nothing; and a position that is out
    of every node's reach for a click but within some node's reach for a
    tap is ignored by the click listener and toggles a node by the touch
    listener.  The source evaluates the test in double precision: at the
    core node of the shipped page the centre is a hit there too, and a
    position 35 units away is a miss for a click and a hit for a tap. *)
Theorem C9_hit_test :
  (forall tol mx my n,
      hit tol mx my n = true <-> (distance mx my n < n_radius n + tol)%R) /\
  (forall tol mx my n n',
      n_x n = n_x n' -> n_y n = n_y n' -> n_radius n = n_radius n' ->
      hit tol mx my n = hit tol mx my n') /\
  (0 < click_tolerance < touch_tolerance)%R /\
  (forall random cfg w ev tol rect clientX clientY,
      config_ok cfg = true ->
      reachable random cfg w ->
      pointer_event ev tol rect clientX clientY ->
      let mx := (clientX - rect_left rect)%R in
      let my := (clientY - rect_top rect)%R in
      (forall n, n ∈ nodes (viz w) -> hit tol (n_x n) (n_y n) n = true) /\
      (forall i n,
          nodes (viz w) !! i = Some n ->
          (distance mx my n < n_radius n + tol)%R ->
          exists j m w',
            j <= i /\ nodes (viz w) !! j = Some m /\
            (distance mx my m < n_radius m + tol)%R /\
            (forall k m', k < j -> nodes (viz w) !! k = Some m' ->
               (n_radius m' + tol <= distance mx my m')%R) /\
            dispatch random cfg ev w = Normal w' /\
            nodes (viz w') = alter toggle j (nodes (viz w)) /\
            nodes (viz w') <> nodes (viz w) /\
            hudLog (env w') = metrics w' :: hudLog (env w)) /\
      ((forall n, n ∈ nodes (viz w) ->
          (n_radius n + tol <= distance mx my n)%R)
       -> firstHit tol mx my (nodes (viz w)) 0 = None /\
          dispatch random cfg ev w = Normal w)) /\
  (forall random cfg w rect clientX clientY,
      config_ok cfg = true ->
      reachable random cfg w ->
      let mx := (clientX - rect_left rect)%R in
      let my := (clientY - rect_top rect)%R in
      (forall n, n ∈ nodes (viz w) ->
         (n_radius n + click_tolerance <= distance mx my n)%R) ->
      (exists n, n ∈ nodes (viz w) /\
         (distance mx my n < n_radius n + touch_tolerance)%R) ->
      dispatch random cfg (Click rect clientX clientY) w = Normal w /\
      exists j w',
        dispatch random cfg (TouchStart rect clientX clientY) w = Normal w' /\
        nodes (viz w') = alter toggle j (nodes (viz w)) /\
        nodes (viz w') <> nodes (viz w)) /\
  (let core tol cx cy :=
     hit_double (double_of_Z tol) (double_of_Z cx) (double_of_Z cy)
       (double_of_Z 0) (double_of_Z 0) (double_of_Z 400) (double_of_Z 270)
       (double_of_Z 28) in
   core 5%Z 400%Z 270%Z = true /\ core 10%Z 400%Z 270%Z = true /\
   core 5%Z 400%Z 305%Z = false /\ core 10%Z 400%Z 305%Z = true).
Proof.
  split; [apply hit_spec |]. split; [| split; [| split; [| split]]].
  - intros tol mx my n n' Hx Hy Hr. unfold hit. rewrite Hx, Hy, Hr.
    reflexivity.
  - unfold click_tolerance, touch_tolerance. lra.
  - intros random cfg w ev tol rect clientX clientY Hok Hr Hev mx my.
    pose proof (reachable_inv random cfg Hok w Hr) as Hinv.
    split; [| split].
    + intros n Hn. destruct Hinv as (_ & Hs & _).
      rewrite Forall_forall in Hs. specialize (Hs n Hn).
      apply hit_centre.
      assert (0 < tol)%R
        by (destruct Hev as [[_ ->] | [_ ->]];
            unfold click_tolerance, touch_tolerance; lra).
      destruct Hs as [-> | ->]; lra.
    + intros i n Hi Hnear. apply hit_spec in Hnear.
      destruct (pointer_hit random cfg w ev tol rect clientX clientY i n
                  Hinv Hev Hi Hnear) as (j & m & Hle & Hj & Hm & Hlt & E).
      exists j, m. eexists. split; [exact Hle |]. split; [exact Hj |].
      split; [apply hit_spec, Hm |].
      split; [intros k m' Hk Hm'; apply hit_false_spec, (Hlt k m' Hk Hm') |].
      split; [exact E |]. split; [reflexivity |].
      split; [| reflexivity].
      unfold resync. fields. eapply alter_toggle_changes. exact Hj.
    + intros Hfar.
      apply (pointer_miss random cfg w ev tol rect clientX clientY Hev).
      intros n Hn. apply hit_false_spec, Hfar, Hn.
  - intros random cfg w rect clientX clientY Hok Hr mx my Hfar (n & Hn & Hnear).
    pose proof (reachable_inv random cfg Hok w Hr) as Hinv.
    split.
    + apply (pointer_miss random cfg w (Click rect clientX clientY)
               click_tolerance rect clientX clientY);
        [left; split; reflexivity |].
      intros n' Hn'. apply hit_false_spec, Hfar, Hn'.
    + apply list_elem_of_lookup_1 in Hn as [i Hi]. apply hit_spec in Hnear.
      destruct (pointer_hit random cfg w (TouchStart rect clientX clientY)
                  touch_tolerance rect clientX clientY i n Hinv
                  (or_intror (conj eq_refl eq_refl)) Hi Hnear)
        as (j & m & _ & Hj & _ & _ & E).
      exists j. eexists. split; [exact E |]. split; [reflexivity |].
      unfold resync. fields. eapply alter_toggle_changes. exact Hj.
  - vm_compute. repeat split.
Qed.

Lemma C9_hit_test_witness :
  config_ok shipped = true /\
  reachable steady shipped page_start /\
  pointer_event (Click page_rect 400 270) click_tolerance page_rect 400 270 /\
  (forall n, n ∈ nodes (viz page_start) ->
             hit click_tolerance (n_x n) (n_y n) n = true) /\
  exists j w',
    dispatch steady shipped (Click page_rect 400 270) page_start = Normal w' /\
    nodes (viz w') = alter toggle j (nodes (viz page_start)) /\
    nodes (viz w') <> nodes (viz page_start).
Proof.
  assert (Hr : reachable steady shipped page_start) by apply reach_construct.
  assert (Hev : pointer_event (Click page_rect 400 270) click_tolerance
                  page_rect 400 270) by (left; split; reflexivity).
  split; [exact shipped_ok |]. split; [exact Hr |]. split; [exact Hev |].
  destruct C9_hit_test as (Hspec & _ & _ & H & _).
  destruct (H steady shipped page_start (Click page_rect 400 270)
              click_tolerance page_rect 400%R 270%R shipped_ok Hr Hev)
    as (Hcentre & Hhit & _).
  split; [exact Hcentre |].
  destruct page_start_centre_hit as (n & Hn & Hh).
  apply list_elem_of_lookup_1 in Hn as [i Hi].
  destruct (Hhit i n Hi (proj1 (Hspec _ _ _ _) Hh))
    as (j & m & w' & _ & _ & _ & _ & E & Hns & Hne & _).
  exists j, w'. split; [exact E |]. split; [exact Hns | exact Hne].
Defined.

(** C10: a click or tap toggles at most one node.  On a state whose
    connections resolve, the node toggled is the first one in declaration
    order that passes the hit test, every other node keeps its flag (so a
    later node under the same pointer is left alone), and with no node
    under the pointer nothing changes.  The hover test picks its node by
    the same first-match loop. *)
Theorem C10_first_hit_wins random cfg w ev tol rect clientX clientY :
  edges_resolved w ->
  bound (env w) = true ->
  pointer_event ev tol rect clientX clientY ->
  let mx := (clientX - rect_left rect)%R in
  let my := (clientY - rect_top rect)%R in
  exists w',
    dispatch random cfg ev w = Normal w' /\
    match firstHit tol mx my (nodes (viz w)) 0 with
    | Some i =>
        nodes (viz w') = alter toggle i (nodes (viz w)) /\
        (exists n, nodes (viz w) !! i = Some n /\ hit tol mx my n = true) /\
        (forall j m, j < i -> nodes (viz w) !! j = Some m ->
                     hit tol mx my m = false) /\
        (forall j, j <> i -> nodes (viz w') !! j = nodes (viz w) !! j)
    | None => w' = w
    end /\
    (forall i j ni nj,
        nodes (viz w) !! i = Some ni -> nodes (viz w) !! j = Some nj ->
        i < j -> hit tol mx my ni = true -> hit tol mx my nj = true ->
        nodes (viz w') !! j = Some nj) /\
    hoveredNode
      (viz (state_of (dispatch random cfg (MouseMove rect clientX clientY) w)))
    = (fun i => (generation (env w), i))
      <$> firstHit click_tolerance mx my (nodes (viz w)) 0.
Proof.
  intros Hres Hb Hev mx my.
  rewrite (dispatch_pointer random cfg ev tol rect clientX clientY w Hev), Hb.
  assert (Hhover :
    hoveredNode
      (viz (state_of (dispatch random cfg (MouseMove rect clientX clientY) w)))
    = (fun i => (generation (env w), i))
      <$> firstHit click_tolerance mx my (nodes (viz w)) 0).
  { cbn [dispatch]. rewrite Hb. cbn [state_of]. unfold _updateHover. fields.
    fold mx my. destruct (firstHit click_tolerance mx my (nodes (viz w)) 0);
      reflexivity. }
  pose proof (firstHit_spec tol mx my (nodes (viz w)) 0) as Hspec.
  destruct (firstHit tol mx my (nodes (viz w)) 0) as [i |] eqn:Hi.
  - destruct Hspec as (k & n & Hk & Hn & Hhit & Hleast). cbn in Hk. subst k.
    eexists. split; [apply (pointerDown_hit _ _ _ _ _ i Hres Hi) |].
    unfold resync. fields.
    split; [| split; [| exact Hhover]].
    + split; [reflexivity |]. split; [exists n; split; assumption |].
      split; [exact Hleast |].
      intros j Hj. apply lookup_alter_toggle_ne, Hj.
    + intros i' j ni nj Hni Hnj Hlt Hhi Hhj.
      rewrite lookup_alter_toggle_ne; [exact Hnj |].
      intros ->. rewrite (Hleast i' ni Hlt Hni) in Hhi. discriminate.
  - exists w. split; [apply pointerDown_miss, Hi |].
    split; [reflexivity |]. split; [| exact Hhover].
    intros i j ni nj Hni Hnj _ Hhi _.
    rewrite Forall_forall in Hspec.
    rewrite (Hspec ni) in Hhi; [discriminate |].
    eapply list_elem_of_lookup_2. exact Hni.
Qed.

(** Two nodes drawn on top of each other and a click on both. *)
Lemma C10_first_hit_wins_witness :
  let w := sample_world [false; false] [] in
  edges_resolved w /\ bound (env w) = true /\
  pointer_event (Click page_rect 0 0) click_tolerance page_rect 0 0 /\
  hit click_tolerance (0 - 0) (0 - 0) (sample_node false) = true /\
  exists w',
    dispatch steady shipped (Click page_rect 0 0) w = Normal w' /\
    flags (nodes (viz w')) = [true; false].
Proof.
  intros w.
  assert (Hres : edges_resolved w) by constructor.
  assert (Hev : pointer_event (Click page_rect 0 0) click_tolerance
                  page_rect 0 0) by (left; split; reflexivity).
  assert (Hhit : hit click_tolerance (0 - 0) (0 - 0) (sample_node false)
                 = true).
  { apply hit_spec. cbn [sample_node n_x n_y n_radius].
    replace ((0 - 0 - 0) * (0 - 0 - 0) + (0 - 0 - 0) * (0 - 0 - 0))%R
      with 0%R by ring.
    rewrite sqrt_0. unfold click_tolerance. lra. }
  split; [exact Hres |]. split; [reflexivity |]. split; [exact Hev |].
  split; [exact Hhit |].
  destruct (C10_first_hit_wins steady shipped w (Click page_rect 0 0)
              click_tolerance page_rect 0 0 Hres eq_refl Hev)
    as (w' & E & Hfirst & _).
  exists w'. split; [exact E |].
  cbn [w sample_world nodes viz map firstHit rect_left rect_top page_rect]
    in Hfirst.
  rewrite Hhit in Hfirst. destruct Hfirst as (-> & _). reflexivity.
Defined.

(** * Further properties *)

(** ** The shape of the node array *)

Lemma Forall_geometry (P : Node -> Prop) ns ns' :
  (forall n n', geometry n = geometry n' -> P n -> P n') ->
  map geometry ns = map geometry ns' -> Forall P ns -> Forall P ns'.
Proof.
  intros HP. revert ns'. induction ns as [| n rest IH]; intros [| n' rest'] E H;
    try discriminate; [constructor |].
  cbn in E. assert (E1 : geometry n = geometry n') by congruence.
  assert (E2 : map geometry rest = map geometry rest') by congruence.
  inversion H; subst. constructor; [eapply HP; eassumption | apply IH; assumption].
Qed.

Lemma near_anchor_geometry n n' :
  geometry n = geometry n' -> near_anchor n -> near_anchor n'.
Proof.
  unfold geometry, near_anchor. intros E.
  injection E as _ _ _ Hx Hy Hbx Hby _ _ _. rewrite Hx, Hy, Hbx, Hby. auto.
Qed.

Lemma near_anchor_layout random cx cy radius len ds : forall i k,
  Forall near_anchor (layoutFrom random cx cy radius len i ds k).1.
Proof.
  induction ds as [| data rest IH]; intros i k; [constructor |].
  rewrite layoutFrom_cons. constructor; [| apply IH].
  unfold near_anchor, layoutNode. cbn [fst n_x n_y n_baseX n_baseY].
  rewrite !Rminus_diag, Rabs_R0. lra.
Qed.

Lemma near_anchor_float t n : near_anchor (floatNode t n).
Proof.
  unfold near_anchor, floatNode. cbn [set_position n_x n_y n_baseX n_baseY].
  pose proof (SIN_bound (t + n_pulsePhase n)) as [Hs1 Hs2].
  pose proof (COS_bound (t * 0.8 + n_pulsePhase n)) as [Hc1 Hc2].
  split; apply Rabs_le; lra.
Qed.

Lemma static_geometry n n' : geometry n = geometry n' -> static n = static n'.
Proof.
  unfold geometry, static. intros E.
  injection E as -> -> -> _ _ _ _ -> _ ->. reflexivity.
Qed.

Lemma map_static_geometry ns ns' :
  map geometry ns = map geometry ns' -> map static ns = map static ns'.
Proof.
  revert ns'. induction ns as [| n rest IH]; intros [| n' rest'] E;
    try discriminate; [reflexivity |].
  cbn in E. assert (E1 : geometry n = geometry n') by congruence.
  assert (E2 : map geometry rest = map geometry rest') by congruence.
  cbn. rewrite (static_geometry _ _ E1), (IH _ E2). reflexivity.
Qed.

Lemma map_static_layout random cx cy radius len ds : forall i k,
  map static (layoutFrom random cx cy radius len i ds k).1 = map static_data ds.
Proof.
  induction ds as [| data rest IH]; intros i k; [reflexivity |].
  rewrite layoutFrom_cons. cbn [map]. rewrite IH. reflexivity.
Qed.

Lemma laid_out_geometry cfg ns ns' :
  map geometry ns' = map geometry ns ->
  laid_out cfg ns -> laid_out cfg ns'.
Proof.
  intros E (Hn & Hs). split.
  - eapply Forall_geometry; [apply near_anchor_geometry | | exact Hn].
    symmetry. exact E.
  - rewrite (map_static_geometry _ _ E). exact Hs.
Qed.

Lemma laid_out_moved cfg t ns ns' :
  Forall2 (moved t) ns ns' -> laid_out cfg ns -> laid_out cfg ns'.
Proof.
  intros Hm (Hn & Hs). split.
  - eapply moved_Forall; [| exact Hm | exact Hn].
    intros n _. apply near_anchor_float.
  - rewrite (moved_map static t ns ns'); [exact Hs | reflexivity | exact Hm].
Qed.

Lemma laid_out_layout random cfg wd ht k :
  laid_out cfg (_layoutNodes random wd ht (nodesData cfg) k).1.
Proof. split; [apply near_anchor_layout | apply map_static_layout]. Qed.

Lemma updateHUD_viz w : viz (state_of (_updateHUD w)) = viz w.
Proof. unfold _updateHUD. destruct (activeEdges _ _); reflexivity. Qed.

Lemma updateHUD_listeners w :
  bound (env (state_of (_updateHUD w))) = bound (env w) /\
  activateBound (env (state_of (_updateHUD w))) = activateBound (env w) /\
  resetBound (env (state_of (_updateHUD w))) = resetBound (env w).
Proof. unfold _updateHUD. destruct (activeEdges _ _); repeat split. Qed.

Section Shape.
Variable random : nat -> R.
Variable cfg : Config.

Lemma shape_updateHUD w :
  shape cfg w -> shape cfg (state_of (_updateHUD w)).
Proof.
  unfold shape. destruct (updateHUD_listeners w) as (-> & -> & ->).
  pose proof (updateHUD_same_loop w) as (-> & -> & _).
  rewrite updateHUD_viz. auto.
Qed.

Lemma shape_with_nodes ns w :
  bound (env w) = true ->
  map geometry ns = map geometry (nodes (viz w)) ->
  shape cfg w -> shape cfg (with_nodes ns w).
Proof.
  unfold shape. fields. intros -> E H.
  eapply laid_out_geometry; eassumption.
Qed.

Lemma shape_pointerDown tol rect cx cy w :
  bound (env w) = true ->
  shape cfg w ->
  shape cfg (state_of (pointerDown tol rect cx cy w)).
Proof.
  intros Hb H. unfold pointerDown. rewrite toggleFirstHit_firstHit.
  destruct (firstHit _ _ _ _ _) as [i |]; cbn [fmap option_fmap option_map];
    [| exact H].
  apply shape_updateHUD, shape_with_nodes; [exact Hb | | exact H].
  apply map_geometry_alter_toggle.
Qed.

Lemma shape_setAll b w :
  shape cfg w ->
  shape cfg
    (state_of (_updateHUD (with_nodes (map (set_active b) (nodes (viz w))) w))).
Proof.
  intros H. apply shape_updateHUD. unfold shape in *. fields.
  destruct (bound (env w)).
  - eapply laid_out_geometry; [| exact H]. apply map_geometry_set_active.
  - destruct H as (-> & H). split; [reflexivity | exact H].
Qed.

Lemma shape_animate w :
  bound (env w) = true ->
  shape cfg w -> shape cfg (state_of (_animate w)).
Proof.
  intros Hb H. unfold shape in *.
  destruct (animate_frame w)
    as (Hm & _ & _ & _ & _ & _ & _ & _ & _ & _ & Hb' & _).
  rewrite Hb', Hb in *. eapply laid_out_moved; eassumption.
Qed.

Lemma shape_onResize rect w :
  bound (env w) = true -> shape cfg (onResize random cfg rect w).
Proof.
  intros Hb. unfold shape.
  destruct (onResize_frame random cfg rect w) as (_ & _ & _ & _ & -> & _).
  rewrite Hb, onResize_nodes. apply laid_out_layout.
Qed.

Lemma shape_dispatch ev w :
  shape cfg w -> shape cfg (state_of (dispatch random cfg ev w)).
Proof.
  intros H. destruct ev; cbn [dispatch].
  - destruct (bound (env w)) eqn:Hb; [apply shape_onResize, Hb | exact H].
  - destruct (bound (env w)) eqn:Hb; [| exact H]. cbn [state_of].
    unfold _updateHover. fields.
    destruct (firstHit _ _ _ _ _); unfold shape in *; fields; rewrite Hb in *;
      exact H.
  - destruct (bound (env w)) eqn:Hb; [| exact H]. cbn [state_of].
    unfold shape in *. fields. rewrite Hb in *. exact H.
  - destruct (bound (env w)) eqn:Hb; [apply shape_pointerDown; assumption |].
    exact H.
  - destruct (bound (env w)) eqn:Hb; [apply shape_pointerDown; assumption |].
    exact H.
  - destruct (activateBound (env w)); [apply shape_setAll, H | exact H].
  - destruct (resetBound (env w)); [apply shape_setAll, H | exact H].
  - destruct (rafPending (env w)) as [p |] eqn:Hp; [| exact H].
    destruct (bound (env w)) eqn:Hb.
    + apply shape_animate; [exact Hb |]. unfold shape in *. fields.
      rewrite Hb in *. exact H.
    + unfold shape in H. rewrite Hb in H.
      destruct H as (_ & _ & _ & _ & Hn & _). congruence.
  - cbn [state_of]. unfold shape in *.
    destruct (destroy_frames w) as (_ & _ & _ & ->).
    rewrite destroy_viz.
    destruct (bound (env w)); [exact H |].
    destruct H as (Hn & He & Ha & Hr & Hp & Hi).
    repeat split; try assumption.
    + unfold destroy. rewrite Hi. exact Ha.
    + unfold destroy. rewrite Hi. exact Hr.
    + unfold destroy. rewrite Hi. exact Hp.
Qed.

Lemma shape_construct canvasId h rect d issued :
  shape cfg (state_of (construct random cfg canvasId h rect d issued)).
Proof.
  unfold construct. destruct (d !! canvasId) as [c |].
  - unfold _init, _bindEvents.
    set (w2 := with_env _ _).
    assert (H2 : shape cfg w2).
    { unfold shape, w2. fields. unfold rebuildEdges. fields.
      rewrite relayout_nodes. apply laid_out_layout. }
    assert (Hb2 : bound (env w2) = true) by reflexivity.
    pose proof (shape_updateHUD w2 H2) as H3.
    destruct (updateHUD_listeners w2) as (Hb3 & _).
    destruct (_updateHUD w2) as [w3 | w3]; cbn [bind state_of] in *.
    + apply shape_animate; [congruence | exact H3].
    + exact H3.
  - unfold shape. cbn. repeat split.
Qed.

Lemma reachable_shape w : reachable random cfg w -> shape cfg w.
Proof.
  induction 1 as [canvasId h rect d issued | w ev _ IH].
  - apply shape_construct.
  - apply shape_dispatch, IH.
Qed.

End Shape.



(** X5: while the listeners are bound, the node array mirrors the table:
    one node per entry, in order, with the identity, label and group of the
    entry, radius 28 for the core group and 22 otherwise, and the colour of
    the group.  No event adds, removes, reorders or relabels a node. *)
Theorem X5_nodes_mirror_table random cfg w :
  reachable random cfg w ->
  bound (env w) = true ->
  map static (nodes (viz w)) = map static_data (nodesData cfg) /\
  length (nodes (viz w)) = length (nodesData cfg).
Proof.
  intros Hr Hb. pose proof (reachable_shape random cfg w Hr) as Hs.
  unfold shape in Hs. rewrite Hb in Hs.
  destruct Hs as (_ & E).
  split; [exact E |].
  rewrite <- (length_map static), E. apply length_map.
Qed.

Lemma X5_nodes_mirror_table_witness :
  reachable steady shipped page_clicked /\
  bound (env page_clicked) = true /\
  map n_id (nodes (viz page_clicked)) = map d_id shipped_nodesData.
Proof.
  destruct page_clicked_facts as (_ & _ & _ & Hb & _ & _ & _ & Hr).
  split; [exact Hr |]. split; [exact Hb |].
  destruct (X5_nodes_mirror_table steady shipped page_clicked Hr Hb) as (E & _).
  apply (f_equal (map (fun s : string * string * string * R * Color =>
                         s.1.1.1.1))) in E.
  rewrite !map_map in E. exact E.
Defined.


(** ** The layout *)





(** ** Construction *)

Lemma edgeStroke_Some ns e s : edgeStroke ns e = Some s -> resolved ns e.
Proof.
  unfold edgeStroke, resolved.
  destruct (node_at ns (e_from e)) as [a |]; [| discriminate].
  destruct (node_at ns (e_to e)) as [b |]; [intros _; split; eexists; reflexivity |].
  destruct (n_active a); discriminate.
Qed.

Lemma drawEdges_Some ns es l :
  _drawEdges ns es = Some l -> Forall (resolved ns) es.
Proof.
  revert l. induction es as [| e rest IH]; intros l H; [constructor |].
  cbn [_drawEdges] in H.
  destruct (edgeStroke ns e) as [s |] eqn:Hs; [| discriminate].
  destruct (_drawEdges ns rest) as [l' |]; [| discriminate].
  constructor; [eapply edgeStroke_Some; exact Hs | eapply IH; reflexivity].
Qed.

Lemma buildEdges_resolved_inv cfg ns :
  map n_id ns = map d_id (nodesData cfg) ->
  Forall (resolved ns) (_buildEdges ns (edgesData cfg)) ->
  config_ok cfg = true.
Proof.
  intros Hids H. unfold config_ok. rewrite <- Hids. fold (nodeMap_of ns).
  apply forallb_forall. intros p Hp.
  rewrite Forall_forall in H.
  assert (Hin : resolveEdge (nodeMap_of ns) p ∈ _buildEdges ns (edgesData cfg)).
  { unfold _buildEdges. apply list_elem_of_fmap. exists p.
    split; [reflexivity | apply list_elem_of_In; exact Hp]. }
  destruct (H _ Hin) as [[a Ha] [b Hb]]. unfold resolveEdge in Ha, Hb.
  cbn [e_from e_to] in Ha, Hb. unfold node_at in Ha, Hb.
  apply andb_true_iff. split; apply bool_decide_eq_true.
  - destruct (nodeMap_of ns !! p.1); [eexists; reflexivity | discriminate].
  - destruct (nodeMap_of ns !! p.2); [eexists; reflexivity | discriminate].
Qed.

Lemma config_ok_froms cfg : config_ok cfg = true -> froms_ok cfg = true.
Proof.
  unfold config_ok, froms_ok. rewrite !forallb_forall. intros H p Hp.
  specialize (H p Hp). apply andb_true_iff in H as [H _]. exact H.
Qed.

Lemma buildEdges_froms cfg ns :
  map n_id ns = map d_id (nodesData cfg) ->
  forallb (fun e => bool_decide (is_Some (node_at ns (e_from e))))
    (_buildEdges ns (edgesData cfg))
  = froms_ok cfg.
Proof.
  intros Hids. unfold froms_ok, _buildEdges. rewrite <- Hids.
  fold (nodeMap_of ns).
  induction (edgesData cfg) as [| p rest IH]; [reflexivity |].
  cbn [map forallb]. rewrite IH. f_equal.
  apply bool_decide_ext. unfold resolveEdge. cbn [e_from].
  apply node_at_nodeMap.
Qed.

(** With no node active the filter of [_updateHUD] reads the [from] node of
    each edge and nothing else. *)
Lemma activeEdges_idle ns es :
  Forall (fun n => n_active n = false) ns ->
  activeEdges ns es
  = if forallb (fun e => bool_decide (is_Some (node_at ns (e_from e)))) es
    then Some [] else None.
Proof.
  intros Hin. induction es as [| e rest IH]; [reflexivity |].
  cbn [activeEdges forallb]. unfold bothActive.
  destruct (node_at ns (e_from e)) as [a |] eqn:Ha.
  - assert (Hf : n_active a = false).
    { unfold node_at in Ha. destruct (e_from e) as [i |]; [| discriminate].
      rewrite Forall_forall in Hin. apply Hin.
      eapply list_elem_of_lookup_2. exact Ha. }
    rewrite Hf, IH.
    rewrite bool_decide_eq_true_2 by (eexists; reflexivity). cbn [andb].
    destruct (forallb _ rest); reflexivity.
  - rewrite bool_decide_eq_false_2; [reflexivity |].
    intros [x Hx]. discriminate.
Qed.

(** With nothing active or hovered, [_drawNodes] throws at the first node
    whose colour is undefined: this node and those before it have moved. *)
Lemma drawNodesFrom_idle_throw t ns : forall i,
  Forall (fun n => n_active n = false) ns ->
  forallb (fun n => is_object (n_color n)) ns = false ->
  exists k n,
    ns !! k = Some n /\ n_color n = UndefinedColor /\
    (forall j m, j < k -> ns !! j = Some m -> is_object (n_color m) = true) /\
    drawNodesFrom t None i ns
    = Throw (floated t (take (S k) ns) ++ drop (S k) ns).
Proof.
  induction ns as [| n rest IH]; intros i Ha Hc; [discriminate |].
  inversion Ha as [| ? ? Hn Hrest]; subst.
  cbn [forallb] in Hc. cbn [drawNodesFrom isHovered]. rewrite Hn.
  destruct (n_color n) as [c | |] eqn:Hcol; cbn [is_object andb orb drawable negb]
    in *.
  - destruct (IH (S i) Hrest Hc) as (k & m & Hk & Hm & Hlt & ->).
    exists (S k), m. split; [exact Hk |]. split; [exact Hm |].
    split; [| reflexivity].
    intros [| j] m' Hj Hm'; cbn in Hm'.
    + injection Hm' as <-. rewrite Hcol. reflexivity.
    + apply (Hlt j); [lia | exact Hm'].
  - destruct (IH (S i) Hrest Hc) as (k & m & Hk & Hm & Hlt & ->).
    exists (S k), m. split; [exact Hk |]. split; [exact Hm |].
    split; [| reflexivity].
    intros [| j] m' Hj Hm'; cbn in Hm'.
    + injection Hm' as <-. rewrite Hcol. reflexivity.
    + apply (Hlt j); [lia | exact Hm'].
  - exists 0, n. split; [reflexivity |]. split; [exact Hcol |].
    split; [intros; lia |]. cbn [take drop floated map app].
    rewrite drop_0. reflexivity.
Qed.

Lemma layout_undefined random wd ht cfg k :
  forallb (fun n => is_object (n_color n))
    (_layoutNodes random wd ht (nodesData cfg) k).1
  = palette_defined cfg.
Proof.
  unfold palette_defined, _layoutNodes.
  pose proof (layoutFrom_colors random (wd / 2) (ht / 2 - 30)
                (Rmin wd ht * 0.32) (length (nodesData cfg)) (nodesData cfg) 0 k)
    as E.
  revert E. generalize (layoutFrom random (wd / 2) (ht / 2 - 30)
                          (Rmin wd ht * 0.32) (length (nodesData cfg)) 0
                          (nodesData cfg) k).1.
  induction (nodesData cfg) as [| d rest IH]; intros [| n ns] E;
    try discriminate; [reflexivity |].
  cbn [map] in E. injection E as Hn Hns.
  cbn [forallb]. rewrite Hn, (IH ns Hns). reflexivity.
Qed.

Lemma layoutFrom_group_color random cx cy radius len ds : forall i k,
  Forall (fun n => n_color n = groupColors (n_group n))
    (layoutFrom random cx cy radius len i ds k).1.
Proof.
  induction ds as [| d rest IH]; intros i k; [constructor |].
  rewrite layoutFrom_cons. constructor; [reflexivity | apply IH].
Qed.

Section ConstructSteps.
Variable random : nat -> R.
Variable cfg : Config.

(** The constructor up to the call of [_updateHUD] that ends
    [_bindEvents]. *)
Lemma construct_steps canvasId h rect d issued :
  is_Some (d !! canvasId) ->
  exists w2,
    construct random cfg canvasId h rect d issued
    = _updateHUD w2 >>> _animate /\
    nodes (viz w2) = initial_layout random cfg rect /\
    edges (viz w2) = _buildEdges (initial_layout random cfg rect) (edgesData cfg)
    /\
    hudIds (viz w2) = h /\ hoveredNode (viz w2) = None /\
    animId (viz w2) = None /\ time (viz w2) = 0%R /\
    hudLog (env w2) = [] /\ document (env w2) = d /\ bound (env w2) = true /\
    rafPending (env w2) = None /\ frames (env w2) = 0.
Proof.
  intros [c Hc]. unfold construct. rewrite Hc.
  unfold _init, _bindEvents, onResize, rebuildEdges.
  rewrite relayout_eq.
  cbn -[_layoutNodes _buildEdges _updateHUD _animate bool_decide].
  fold (initial_layout random cfg rect).
  eexists. split; [reflexivity |]. repeat split.
Qed.

End ConstructSteps.

(** X1: on an existing canvas the constructor registers its listeners and
    then completes normally exactly when every edge of the table resolves
    and no group's colour is undefined.  Where it throws tells the defect
    apart: an edge whose [from] names no node makes the first [_updateHUD]
    throw, before anything is published; otherwise an edge whose [to] names
    no node lets that publication through and makes [_drawEdges] throw in
    the first frame, before any node has moved; otherwise a group without
    colour makes [_drawNodes] throw at the first node of such a group, which
    has moved like those before it.  In each case no frame was rendered to
    its end and none is scheduled. *)
Theorem X1_construct_throw_sites random cfg canvasId h rect d issued :
  is_Some (d !! canvasId) ->
  let c := construct random cfg canvasId h rect d issued in
  let w := state_of c in
  let layout := initial_layout random cfg rect in
  (is_Normal c = true <-> config_ok cfg = true /\ palette_defined cfg = true) /\
  bound (env w) = true /\
  (is_Normal c = false ->
   rafPending (env w) = None /\ animId (viz w) = None /\ frames (env w) = 0) /\
  (froms_ok cfg = false ->
   is_Normal c = false /\ hudLog (env w) = [] /\ document (env w) = d /\
   time (viz w) = 0%R /\ nodes (viz w) = layout) /\
  (froms_ok cfg = true -> config_ok cfg = false ->
   is_Normal c = false /\ hudLog (env w) = [initial_snapshot cfg] /\
   time (viz w) = (0 + 0.015)%R /\ nodes (viz w) = layout) /\
  (config_ok cfg = true -> palette_defined cfg = false ->
   is_Normal c = false /\ hudLog (env w) = [initial_snapshot cfg] /\
   time (viz w) = (0 + 0.015)%R /\
   exists k n,
     layout !! k = Some n /\ groupColors (n_group n) = UndefinedColor /\
     (forall j m, j < k -> layout !! j = Some m ->
                  groupColors (n_group m) <> UndefinedColor) /\
     nodes (viz w)
     = floated (0 + 0.015) (take (S k) layout) ++ drop (S k) layout).
Proof.
  intros Hd c w layout.
  destruct (construct_steps random cfg canvasId h rect d issued Hd)
    as (w2 & E & Hn & He & Hh & Hhov & Hid & Ht & Hlog & Hdoc & Hb & Hp & Hf).
  fold c in E. fold layout in Hn, He.
  assert (Hin : Forall (fun n => n_active n = false) layout)
    by apply layoutFrom_inactive.
  assert (Hids : map n_id layout = map d_id (nodesData cfg))
    by apply layoutFrom_ids.
  assert (Hgrp : forall m, m ∈ layout -> n_color m = groupColors (n_group m)).
  { intros m Hm.
    pose proof (layoutFrom_group_color random (rect_width rect / 2)
                  (rect_height rect / 2 - 30)
                  (Rmin (rect_width rect) (rect_height rect) * 0.32)
                  (length (nodesData cfg)) (nodesData cfg) 0 0) as Hall.
    rewrite Forall_forall in Hall. apply Hall. exact Hm. }
  destruct (froms_ok cfg) eqn:Hfr.
  - (* the first publication completes *)
    assert (E2 : _updateHUD w2
                 = Normal (with_env
                             (env_published (initial_snapshot cfg)
                                (env_document
                                   (publish h (initial_snapshot cfg) d) (env w2)))
                             w2)).
    { unfold _updateHUD. rewrite Hn, He, (activeEdges_idle _ _ Hin).
      rewrite (buildEdges_froms cfg layout Hids), Hfr.
      fold (activeCount layout). rewrite (activeCount_inactive _ Hin).
      assert (Hlen : length layout = length (nodesData cfg))
        by apply layoutNodes_length.
      rewrite Hlen. cbn [length]. fold (initial_snapshot cfg).
      rewrite Hh, Hdoc. reflexivity. }
    rewrite E2 in E. cbn [bind] in E. set (w3 := with_env _ w2) in E.
    assert (H3 : nodes (viz w3) = layout /\ edges (viz w3) = edges (viz w2) /\
                 time (viz w3) = 0%R /\ hoveredNode (viz w3) = None /\
                 animId (viz w3) = None /\
                 hudLog (env w3) = [initial_snapshot cfg] /\
                 bound (env w3) = true /\ rafPending (env w3) = None /\
                 frames (env w3) = 0).
    { unfold w3. fields. rewrite Hlog. repeat split; assumption. }
    destruct H3 as (Hn3 & He3 & Ht3 & Hhov3 & Hid3 & Hlog3 & Hb3 & Hp3 & Hf3).
    clearbody w3.
    destruct (config_ok cfg) eqn:Hok.
    + assert (Hres : edges_resolved w3).
      { unfold edges_resolved. rewrite Hn3, He3, He.
        apply buildEdges_resolved; assumption. }
      destruct (palette_defined cfg) eqn:Hpal.
      * (* the constructor completes *)
        assert (Ea : is_Normal c = true).
        { rewrite E, animate_idle; [reflexivity | exact Hres | exact Hhov3 | |].
          - rewrite Hn3. exact Hin.
          - rewrite Hn3. apply layout_defined, Hpal. }
        destruct (animate_frame w3)
          as (_ & _ & _ & _ & _ & _ & _ & _ & _ & _ & Hb' & _).
        rewrite <- E in Hb'. fold w in Hb'.
        split; [split; [auto | intros _; exact Ea] |].
        split; [congruence |].
        split; [congruence |].
        split; [discriminate |]. split; [discriminate |]. discriminate.
      * (* [_drawNodes] throws *)
        assert (Hc : forallb (fun n => is_object (n_color n)) layout = false).
        { unfold layout, initial_layout. rewrite layout_undefined. exact Hpal. }
        destruct (drawNodesFrom_idle_throw (0 + 0.015) layout 0 Hin Hc)
          as (k & n & Hk & Hcol & Hlt & Edn).
        assert (Ea : c = Throw (with_nodes
                                  (floated (0 + 0.015) (take (S k) layout)
                                   ++ drop (S k) layout)
                                  (with_time (0 + 0.015) w3))).
        { rewrite E. unfold _animate, hoveredIndex. fields.
          destruct (drawEdges_resolved _ _ Hres) as [l ->].
          rewrite Hhov3, Hn3, Ht3. unfold _drawNodes. rewrite Edn.
          reflexivity. }
        unfold w. rewrite Ea. cbn [is_Normal state_of]. fields.
        split; [split; [discriminate | intros [_ H]; discriminate] |].
        split; [exact Hb3 |].
        split; [intros _; repeat split; assumption |].
        split; [discriminate |]. split; [discriminate |].
        intros _ _. split; [reflexivity |]. split; [exact Hlog3 |].
        split; [reflexivity |].
        exists k, n. split; [exact Hk |].
        split; [rewrite <- Hgrp; [exact Hcol | eapply list_elem_of_lookup_2, Hk] |].
        split; [| reflexivity].
        intros j m Hj Hm. rewrite <- Hgrp by (eapply list_elem_of_lookup_2, Hm).
        specialize (Hlt j m Hj Hm). intros Hu. rewrite Hu in Hlt. discriminate.
    + (* [_drawEdges] throws *)
      assert (Ea : c = Throw (with_time (0 + 0.015) w3)).
      { rewrite E. unfold _animate. fields. rewrite Ht3.
        destruct (_drawEdges (nodes (viz w3)) (edges (viz w3))) as [l |] eqn:Hl;
          [| reflexivity].
        apply drawEdges_Some in Hl. rewrite Hn3, He3, He in Hl.
        rewrite (buildEdges_resolved_inv cfg layout Hids Hl) in Hok.
        discriminate. }
      unfold w. rewrite Ea. cbn [is_Normal state_of]. fields.
      split; [split; [discriminate | intros [H _]; discriminate] |].
      split; [exact Hb3 |].
      split; [intros _; repeat split; assumption |].
      split; [discriminate |].
      split; [| discriminate].
      intros _ _. repeat split; assumption.
  - (* the first [_updateHUD] throws *)
    assert (Ea : c = Throw w2).
    { rewrite E, updateHUD_throw; [reflexivity |].
      rewrite Hn, He, (activeEdges_idle _ _ Hin).
      rewrite (buildEdges_froms cfg layout Hids), Hfr. reflexivity. }
    unfold w. rewrite Ea. cbn [is_Normal state_of].
    split.
    { split; [discriminate |]. intros [H _].
      rewrite (config_ok_froms cfg H) in Hfr. discriminate. }
    split; [exact Hb |].
    split; [intros _; repeat split; assumption |].
    split; [intros _; repeat split; assumption |].
    split; [discriminate |].
    intros H. rewrite (config_ok_froms cfg H) in Hfr. discriminate.
Qed.

Lemma X1_construct_throw_sites_witness :
  is_Some (page_document !! "system-canvas") /\
  froms_ok ghost_config = true /\ config_ok ghost_config = false /\
  (let c := construct steady ghost_config "system-canvas" page_hud page_rect
              page_document 0 in
   is_Normal c = false /\
   hudLog (env (state_of c)) = [initial_snapshot ghost_config] /\
   bound (env (state_of c)) = true /\ rafPending (env (state_of c)) = None) /\
  is_Normal (construct steady shipped "system-canvas" page_hud page_rect
               page_document 0) = true.
Proof.
  split; [exact page_canvas |].
  assert (Hf : froms_ok ghost_config = true) by (vm_compute; reflexivity).
  assert (Hg : config_ok ghost_config = false) by (vm_compute; reflexivity).
  split; [exact Hf |]. split; [exact Hg |].
  destruct (X1_construct_throw_sites steady ghost_config
              "system-canvas" page_hud page_rect page_document 0 page_canvas)
    as (_ & Hb & Hstop & _ & Hto & _).
  destruct (X1_construct_throw_sites steady shipped
              "system-canvas" page_hud page_rect page_document 0 page_canvas)
    as (Hiff & _).
  split.
  - destruct (Hto Hf Hg) as (Hn & Hl & _).
    split; [exact Hn |]. split; [exact Hl |]. split; [exact Hb |].
    exact (proj1 (Hstop Hn)).
  - apply Hiff. split; [exact shipped_ok | exact shipped_defined].
Defined.

(** X2: without the canvas element the constructor returns an inert
    instance, and whatever events are delivered afterwards nothing changes:
    no listener runs, nothing is published, no frame is scheduled, and
    [destroy] has nothing to cancel. *)
Theorem X2_inert_without_canvas random cfg canvasId h rect d issued evs :
  d !! canvasId = None ->
  exists w,
    construct random cfg canvasId h rect d issued = Normal w /\
    run random cfg evs w = w /\
    nodes (viz w) = [] /\ hudLog (env w) = [] /\ document (env w) = d /\
    rafPending (env w) = None /\ bound (env w) = false.
Proof.
  intros Hd. unfold construct. rewrite Hd. eexists. split; [reflexivity |].
  split; [| repeat split].
  induction evs as [| ev rest IH]; [reflexivity |].
  cbn [run fold_left]. unfold run in IH.
  replace (state_of (dispatch random cfg ev _)) with
    (mkWorld (mkViz false h (0, 0)%R None None 0%R 0%R 0%R [] [])
       (fresh_env d issued)); [exact IH |].
  destruct ev; reflexivity.
Qed.

Lemma X2_inert_without_canvas_witness :
  (∅ : gmap string string) !! "system-canvas" = None /\
  exists w,
    construct steady shipped "system-canvas" page_hud page_rect ∅ 0 = Normal w /\
    run steady shipped [Click page_rect 400 270; AnimationFrame; Destroy] w = w.
Proof.
  split; [apply lookup_empty |].
  destruct (X2_inert_without_canvas steady shipped "system-canvas" page_hud
              page_rect ∅ 0 [Click page_rect 400 270; AnimationFrame; Destroy]
              (lookup_empty _)) as (w & E & Hrun & _).
  exists w. split; [exact E | exact Hrun].
Defined.


(** ** The HUD between resizes *)

Lemma metrics_same w w' :
  flags (nodes (viz w')) = flags (nodes (viz w)) ->
  edges (viz w') = edges (viz w) ->
  metrics w' = metrics w.
Proof. intros Hf He. rewrite !metrics_flags, Hf, He. reflexivity. Qed.

Lemma setEl_is_Some_inv id text (d : gmap string string) k :
  is_Some (setEl id text d !! k) -> is_Some (d !! k).
Proof.
  unfold setEl. destruct (d !! id) as [v |] eqn:Hid; [| auto].
  destruct (decide (k = id)) as [-> | Hne].
  - intros _. rewrite Hid. eexists; reflexivity.
  - rewrite lookup_insert_ne by congruence. auto.
Qed.

Lemma publish_is_Some_inv h s (d : gmap string string) k :
  is_Some (publish h s d !! k) -> is_Some (d !! k).
Proof.
  unfold publish. intros H. do 3 apply setEl_is_Some_inv in H. exact H.
Qed.

Lemma publish_active h s (d : gmap string string) :
  hud_active h <> hud_connections h -> hud_active h <> hud_load h ->
  is_Some (d !! hud_active h) ->
  publish h s d !! hud_active h = Some (s_active s).
Proof.
  intros H1 H2 H. unfold publish. rewrite !setEl_other by assumption.
  apply setEl_same, H.
Qed.

Lemma synced_resync w : synced (resync w).
Proof.
  exists (hudLog (env w)), (document (env w)). split; reflexivity.
Qed.

Lemma synced_same w w' :
  flags (nodes (viz w')) = flags (nodes (viz w)) ->
  edges (viz w') = edges (viz w) ->
  hudIds (viz w') = hudIds (viz w) ->
  hudLog (env w') = hudLog (env w) ->
  document (env w') = document (env w) ->
  synced w -> synced w'.
Proof.
  intros Hf He Hh Hl Hd (rest & d & H1 & H2).
  exists rest, d. rewrite (metrics_same w w' Hf He), Hh, Hl, Hd.
  split; assumption.
Qed.

Section Synced.
Variable random : nat -> R.
Variable cfg : Config.
Hypothesis Hok : config_ok cfg = true.

Lemma dispatch_synced ev w :
  is_resize ev = false ->
  inv cfg w -> synced w ->
  synced (state_of (dispatch random cfg ev w)) /\
  hudIds (viz (state_of (dispatch random cfg ev w))) = hudIds (viz w).
Proof.
  intros Hev Hinv Hs.
  pose proof Hinv as (Hres & _).
  destruct ev; cbn [dispatch is_resize] in *; try discriminate.
  - destruct (bound (env w)); cbn [state_of]; [| split; [exact Hs | reflexivity]].
    unfold _updateHover. fields.
    destruct (firstHit _ _ _ _ _); (split; [| reflexivity]);
      revert Hs; apply synced_same; reflexivity.
  - destruct (bound (env w)); cbn [state_of]; (split; [| reflexivity]);
      [| exact Hs].
    revert Hs. apply synced_same; reflexivity.
  - destruct (bound (env w)); [| split; [exact Hs | reflexivity]].
    destruct (firstHit click_tolerance (clientX - rect_left rect)
                (clientY - rect_top rect) (nodes (viz w)) 0) as [i |] eqn:Hi.
    + rewrite (pointerDown_hit _ _ _ _ _ i Hres Hi). cbn [state_of].
      split; [apply synced_resync | reflexivity].
    + rewrite (pointerDown_miss _ _ _ _ _ Hi).
      split; [exact Hs | reflexivity].
  - destruct (bound (env w)); [| split; [exact Hs | reflexivity]].
    destruct (firstHit touch_tolerance (clientX - rect_left rect)
                (clientY - rect_top rect) (nodes (viz w)) 0) as [i |] eqn:Hi.
    + rewrite (pointerDown_hit _ _ _ _ _ i Hres Hi). cbn [state_of].
      split; [apply synced_resync | reflexivity].
    + rewrite (pointerDown_miss _ _ _ _ _ Hi).
      split; [exact Hs | reflexivity].
  - destruct (activateBound (env w)); [| split; [exact Hs | reflexivity]].
    unfold activateAll. rewrite (setAll_resolved true w Hres).
    split; [apply synced_resync | reflexivity].
  - destruct (resetBound (env w)); [| split; [exact Hs | reflexivity]].
    unfold resetAll. rewrite (setAll_resolved false w Hres).
    split; [apply synced_resync | reflexivity].
  - destruct (rafPending (env w)) as [p |]; [| split; [exact Hs | reflexivity]].
    destruct (animate_frame
                (with_env (env_raf (rafIssued (env w)) None (env w)) w))
      as (Hm & He & Hh & _ & _ & _ & _ & _ & Hd & Hl & _).
    split; [| exact Hh].
    revert Hs. apply synced_same; try assumption.
    eapply moved_flags. exact Hm.
  - cbn [state_of]. rewrite destroy_viz. split; [| reflexivity]. revert Hs.
    destruct (destroy_frames w) as (_ & Hl & Hd & _).
    apply synced_same; rewrite ?destroy_viz; try reflexivity; assumption.
Qed.

Lemma run_synced evs : forall w,
  forallb (fun ev => negb (is_resize ev)) evs = true ->
  inv cfg w -> synced w ->
  synced (run random cfg evs w) /\
  hudIds (viz (run random cfg evs w)) = hudIds (viz w).
Proof.
  induction evs as [| ev rest IH]; intros w Hevs Hinv Hs;
    [split; [assumption | reflexivity] |].
  cbn [forallb] in Hevs. apply andb_true_iff in Hevs as [Hev Hrest].
  apply negb_true_iff in Hev.
  destruct (dispatch_synced ev w Hev Hinv Hs) as (Hs' & Hh').
  cbn [run fold_left].
  destruct (IH (state_of (dispatch random cfg ev w)) Hrest
              (dispatch_inv random cfg Hok ev w Hinv) Hs') as (Hs2 & Hh2).
  split; [exact Hs2 |]. unfold run in Hh2. rewrite Hh2. exact Hh'.
Qed.

(** The state the constructor leaves has just published its metrics. *)
Lemma construct_synced canvasId h rect d issued :
  is_Some (d !! canvasId) ->
  let w0 := state_of (construct random cfg canvasId h rect d issued) in
  synced w0 /\ hudIds (viz w0) = h.
Proof.
  intros Hd w0.
  destruct (construct_bound random cfg canvasId h rect d issued Hok Hd)
    as (w3 & E & Hn & He & Hh & Hl & Hdoc & _).
  destruct (animate_frame w3)
    as (Hm & Hed & Hh' & _ & _ & _ & _ & _ & Hdoc' & Hlog' & _).
  rewrite <- E in Hm, Hed, Hh', Hdoc', Hlog'.
  fold w0 in Hm, Hed, Hh', Hdoc', Hlog'.
  assert (Hin : Forall (fun n => n_active n = false) (nodes (viz w0))).
  { eapply moved_Forall; [| exact Hm |].
    - intros n Hna. exact Hna.
    - rewrite Hn. apply layoutFrom_inactive. }
  assert (Hm0 : metrics w0 = initial_snapshot cfg).
  { unfold metrics, initial_snapshot.
    rewrite (activeCount_inactive _ Hin), (no_active_edges _ _ Hin).
    rewrite (moved_length _ _ _ Hm), Hn. unfold initial_layout.
    rewrite layoutNodes_length. reflexivity. }
  split; [| congruence].
  exists [], d. rewrite Hm0, Hh', Hlog', Hdoc', Hh. split; assumption.
Qed.

End Synced.

(** X3: on a well-configured instance, as long as no resize event is
    delivered the HUD shows the metrics of the current flags.  After any
    sequence of pointer moves, clicks, taps, button presses, frames and
    [destroy] calls, the last published snapshot is the one [_updateHUD]
    would compute now, and each sink element of the page holds its text
    (the load sink always; the other two when the three ids differ). *)
Theorem X3_hud_synced_without_resize
    random cfg canvasId h rect d issued evs :
  config_ok cfg = true ->
  is_Some (d !! canvasId) ->
  forallb (fun ev => negb (is_resize ev)) evs = true ->
  let w := run random cfg evs
             (state_of (construct random cfg canvasId h rect d issued)) in
  head (hudLog (env w)) = Some (metrics w) /\
  (is_Some (document (env w) !! hud_load h) ->
   document (env w) !! hud_load h = Some (s_load (metrics w))) /\
  (hud_connections h <> hud_load h ->
   is_Some (document (env w) !! hud_connections h) ->
   document (env w) !! hud_connections h = Some (s_connections (metrics w))) /\
  (hud_active h <> hud_connections h -> hud_active h <> hud_load h ->
   is_Some (document (env w) !! hud_active h) ->
   document (env w) !! hud_active h = Some (s_active (metrics w))).
Proof.
  intros Hok Hd Hevs w.
  destruct (construct_synced random cfg Hok canvasId h rect d issued Hd)
    as (Hs0 & Hh).
  pose proof (construct_inv random cfg Hok canvasId h rect d issued) as Hinv.
  destruct (run_synced random cfg Hok evs _ Hevs Hinv Hs0)
    as ((rest & d' & Hlog & Hdoc') & Hh').
  fold w in Hlog, Hdoc', Hh'. rewrite Hh', Hh in Hdoc'.
  split; [rewrite Hlog; reflexivity |].
  rewrite Hdoc'. split; [| split].
  - intros Hs. apply publish_load, (publish_is_Some_inv _ _ _ _ Hs).
  - intros Hne Hs. apply publish_connections; [exact Hne |].
    apply (publish_is_Some_inv _ _ _ _ Hs).
  - intros Hn1 Hn2 Hs. apply publish_active; [exact Hn1 | exact Hn2 |].
    apply (publish_is_Some_inv _ _ _ _ Hs).
Qed.


Lemma X3_hud_synced_without_resize_witness :
  let evs := [Click page_rect 400 270; AnimationFrame; ActivateAllClick] in
  config_ok shipped = true /\
  is_Some (page_document !! "system-canvas") /\
  forallb (fun ev => negb (is_resize ev)) evs = true /\
  let w := run steady shipped evs page_start in
  head (hudLog (env w)) = Some (metrics w).
Proof.
  intros evs.
  assert (Hev : forallb (fun ev => negb (is_resize ev)) evs = true)
    by reflexivity.
  split; [exact shipped_ok |]. split; [exact page_canvas |].
  split; [exact Hev |].
  exact (proj1 (X3_hud_synced_without_resize steady shipped "system-canvas"
                  page_hud page_rect page_document 0 evs shipped_ok
                  page_canvas Hev)).
Defined.

(** X13: moving the pointer, leaving the canvas, rendering a frame and
    calling [destroy] never change a flag, a connection, the text of an
    element or the log of published snapshots, in any state whatsoever.
    What the two pointer listeners do write is the cursor of the canvas:
    after a move it is a pointer exactly when a node is hovered and the
    default one otherwise; after the pointer left, it is a pointer although
    nothing is hovered.  A frame and [destroy] leave the cursor alone. *)
Theorem X13_passive_events_publish_nothing random cfg ev w :
  is_passive ev = true ->
  let w' := state_of (dispatch random cfg ev w) in
  flags (nodes (viz w')) = flags (nodes (viz w)) /\
  edges (viz w') = edges (viz w) /\
  hudLog (env w') = hudLog (env w) /\
  document (env w') = document (env w) /\
  cursor (env w')
  = match ev with
    | MouseMove _ _ _ =>
        if bound (env w) then
          match hoveredNode (viz w') with
          | Some _ => Some "pointer"
          | None => Some "default"
          end
        else cursor (env w)
    | MouseLeave => if bound (env w) then Some "pointer" else cursor (env w)
    | _ => cursor (env w)
    end /\
  (ev = MouseLeave -> bound (env w) = true -> hoveredNode (viz w') = None).
Proof.
  intros Hev. destruct ev; try discriminate; cbn [dispatch].
  - destruct (bound (env w)); cbn [state_of];
      [| repeat split; discriminate].
    unfold _updateHover. fields.
    destruct (firstHit _ _ _ _ _); fields; repeat split; discriminate.
  - destruct (bound (env w)); cbn [state_of]; repeat split; discriminate.
  - destruct (rafPending (env w)) as [p |];
      [| repeat split; discriminate].
    destruct (animate_frame
                (with_env (env_raf (rafIssued (env w)) None (env w)) w))
      as (Hm & He & _ & _ & _ & _ & _ & _ & Hd & Hl & _ & _ & _ & _ & _ & Hc).
    split; [eapply moved_flags; exact Hm |].
    split; [exact He |]. split; [exact Hl |]. split; [exact Hd |].
    split; [exact Hc | discriminate].
  - cbn [state_of]. rewrite destroy_viz.
    destruct (destroy_frames w) as (_ & Hl & Hd & _).
    repeat split; try assumption; try discriminate.
    unfold destroy, cancelAnimationFrame.
    destruct (animId (viz w)) as [[| a] |]; try reflexivity.
    destruct (rafPending (env w)) as [q |]; [| reflexivity].
    destruct (Nat.eqb q (S a)); reflexivity.
Qed.

Lemma X13_passive_events_publish_nothing_witness :
  is_passive AnimationFrame = true /\
  is_passive MouseLeave = true /\
  flags (nodes (viz (state_of (dispatch steady shipped AnimationFrame
                                 page_clicked))))
  = flags (nodes (viz page_clicked)) /\
  cursor (env (state_of (dispatch steady shipped MouseLeave page_clicked)))
  = Some "pointer".
Proof.
  split; [reflexivity |]. split; [reflexivity |].
  split.
  - exact (proj1 (X13_passive_events_publish_nothing steady shipped
                    AnimationFrame page_clicked eq_refl)).
  - destruct (X13_passive_events_publish_nothing steady shipped
                MouseLeave page_clicked eq_refl) as (_ & _ & _ & _ & Hc & _).
    destruct page_clicked_facts as (_ & _ & _ & Hb & _).
    rewrite Hb in Hc. exact Hc.
Defined.

(** ** Clicking twice *)

Lemma hit_geometry tol mx my n n' :
  geometry n = geometry n' -> hit tol mx my n = hit tol mx my n'.
Proof.
  unfold geometry, hit. intros E.
  injection E as _ _ _ Hx Hy _ _ Hr _ _. rewrite Hx, Hy, Hr. reflexivity.
Qed.

Lemma firstHit_geometry tol mx my ns ns' : forall i,
  map geometry ns = map geometry ns' ->
  firstHit tol mx my ns i = firstHit tol mx my ns' i.
Proof.
  revert ns'. induction ns as [| n rest IH]; intros [| n' rest'] i E;
    try discriminate; [reflexivity |].
  cbn in E. assert (E1 : geometry n = geometry n') by congruence.
  assert (E2 : map geometry rest = map geometry rest') by congruence.
  cbn [firstHit]. rewrite (hit_geometry _ _ _ _ _ E1), (IH _ _ E2).
  reflexivity.
Qed.

Lemma toggle_toggle n : toggle (toggle n) = n.
Proof. destruct n as [? ? ? ? ? ? ? ? a ? ?]. unfold toggle, set_active. cbn.
  rewrite negb_involutive. reflexivity. Qed.

Lemma alter_toggle_twice i (ns : list Node) :
  alter toggle i (alter toggle i ns) = ns.
Proof.
  revert i. induction ns as [| n rest IH]; intros [| i]; cbn;
    try reflexivity.
  - rewrite toggle_toggle. reflexivity.
  - f_equal. apply IH.
Qed.

(** X7: two clicks (or two taps) at the same place with no frame in
    between undo each other: on a state whose connections resolve, the
    node array after the second one is the array before the first, and
    each of the two published once, the second snapshot being the metrics
    of the original state. *)
Theorem X7_double_click_restores random cfg w ev tol rect clientX clientY :
  edges_resolved w ->
  bound (env w) = true ->
  pointer_event ev tol rect clientX clientY ->
  is_Some (firstHit tol (clientX - rect_left rect) (clientY - rect_top rect)
             (nodes (viz w)) 0) ->
  exists w1 w2,
    dispatch random cfg ev w = Normal w1 /\
    dispatch random cfg ev w1 = Normal w2 /\
    nodes (viz w2) = nodes (viz w) /\
    edges (viz w2) = edges (viz w) /\
    hudLog (env w2) = metrics w :: metrics w1 :: hudLog (env w).
Proof.
  intros Hres Hb Hev [i Hi].
  rewrite (dispatch_pointer random cfg ev tol rect clientX clientY w Hev), Hb.
  rewrite (pointerDown_hit _ _ _ _ _ i Hres Hi).
  set (w1 := resync (with_nodes (alter toggle i (nodes (viz w))) w)).
  assert (Hres1 : edges_resolved w1).
  { unfold edges_resolved, w1, resync. fields.
    eapply Forall_resolved_length; [| exact Hres].
    symmetry. apply length_alter. }
  assert (Hi1 : firstHit tol (clientX - rect_left rect)
                  (clientY - rect_top rect) (nodes (viz w1)) 0 = Some i).
  { rewrite <- Hi. unfold w1, resync. fields.
    apply firstHit_geometry, map_geometry_alter_toggle. }
  exists w1. eexists. split; [reflexivity |].
  rewrite (dispatch_pointer random cfg ev tol rect clientX clientY w1 Hev).
  change (bound (env w1)) with (bound (env w)). rewrite Hb.
  split; [apply (pointerDown_hit _ _ _ _ _ i Hres1 Hi1) |].
  unfold resync at 1 2 3. fields.
  assert (Hback : alter toggle i (nodes (viz w1)) = nodes (viz w))
    by (unfold w1, resync; fields; apply alter_toggle_twice).
  split; [exact Hback |]. split; [reflexivity |].
  f_equal. apply metrics_same; fields; [rewrite Hback |]; reflexivity.
Qed.

Lemma X7_double_click_restores_witness :
  let w := sample_world [false; true] [mkEdge (Some 0) (Some 1)] in
  edges_resolved w /\ bound (env w) = true /\
  pointer_event (Click page_rect 0 0) click_tolerance page_rect 0 0 /\
  is_Some (firstHit click_tolerance (0 - rect_left page_rect)
             (0 - rect_top page_rect) (nodes (viz w)) 0) /\
  exists w1 w2,
    dispatch steady shipped (Click page_rect 0 0) w = Normal w1 /\
    dispatch steady shipped (Click page_rect 0 0) w1 = Normal w2 /\
    nodes (viz w2) = nodes (viz w).
Proof.
  intros w.
  assert (Hres : edges_resolved w)
    by (repeat constructor; eexists; reflexivity).
  assert (Hev : pointer_event (Click page_rect 0 0) click_tolerance
                  page_rect 0 0) by (left; split; reflexivity).
  assert (Hhit : is_Some (firstHit click_tolerance (0 - rect_left page_rect)
                            (0 - rect_top page_rect) (nodes (viz w)) 0)).
  { exists 0. cbn [w sample_world nodes viz map firstHit rect_left rect_top
                     page_rect].
    replace (hit click_tolerance (0 - 0) (0 - 0) (sample_node false))
      with true; [reflexivity |].
    symmetry. apply hit_spec. cbn [sample_node n_x n_y n_radius].
    replace ((0 - 0 - 0) * (0 - 0 - 0) + (0 - 0 - 0) * (0 - 0 - 0))%R
      with 0%R by ring.
    rewrite sqrt_0. unfold click_tolerance. lra. }
  split; [exact Hres |]. split; [reflexivity |]. split; [exact Hev |].
  split; [exact Hhit |].
  destruct (X7_double_click_restores steady shipped w (Click page_rect 0 0)
              click_tolerance page_rect 0 0 Hres eq_refl Hev Hhit)
    as (w1 & w2 & E1 & E2 & Hn & _).
  exists w1, w2. repeat split; assumption.
Defined.


(** ** What the HUD can show *)

Lemma round_percent_all t : t <> 0 -> round_percent t t = 100%Z.
Proof.
  intros Ht. unfold round_percent.
  replace (200 * Z.of_nat t + Z.of_nat t)%Z
    with (100 * (2 * Z.of_nat t) + Z.of_nat t)%Z by ring.
  rewrite Z.div_add_l by lia. rewrite Z.div_small by lia. reflexivity.
Qed.

Lemma round_percent_none t : t <> 0 -> round_percent 0 t = 0%Z.
Proof. intros Ht. unfold round_percent. apply Z.div_small. lia. Qed.

Lemma round_percent_mono a b t :
  a <= b -> (round_percent a t <= round_percent b t)%Z.
Proof.
  intros Hab. unfold round_percent.
  destruct t as [| t'].
  - cbn. rewrite !Z.div_0_r. lia.
  - apply Z.div_le_mono; lia.
Qed.

Lemma activeCount_le ns : activeCount ns <= length ns.
Proof. unfold activeCount. apply List.filter_length_le. Qed.

Lemma all_edges_active ns es :
  Forall (fun n => n_active n = true) ns ->
  Forall (resolved ns) es ->
  List.filter (endpoints_activeb ns) es = es.
Proof.
  intros Hall. induction 1 as [| e rest He _ IH]; [reflexivity |].
  cbn [List.filter]. rewrite IH.
  destruct He as [[a Ha] [b Hb]]. unfold endpoints_activeb. rewrite Ha, Hb.
  rewrite Forall_forall in Hall.
  assert (Hina : a ∈ ns).
  { unfold node_at in Ha. destruct (e_from e); [| discriminate].
    eapply list_elem_of_lookup_2; exact Ha. }
  assert (Hinb : b ∈ ns).
  { unfold node_at in Hb. destruct (e_to e); [| discriminate].
    eapply list_elem_of_lookup_2; exact Hb. }
  rewrite (Hall a Hina), (Hall b Hinb). reflexivity.
Qed.

Lemma activeCount_all ns :
  Forall (fun n => n_active n = true) ns -> activeCount ns = length ns.
Proof.
  unfold activeCount. induction 1 as [| n rest Hn _ IH]; [reflexivity |].
  cbn. rewrite Hn. cbn. rewrite IH. reflexivity.
Qed.

(** X8: on a state with N >= 1 nodes and E connections that all resolve,
    the "activate all" listener publishes "N / N", E and "100%", and the
    "reset all" listener publishes "0 / N", "0" and "0%", whatever the
    flags were. *)
Theorem X8_bulk_buttons_texts w :
  edges_resolved w ->
  nodes (viz w) <> [] ->
  let N := nat_to_string (length (nodes (viz w))) in
  exists w1 w0,
    activateAll w = Normal w1 /\
    resetAll w = Normal w0 /\
    hudLog (env w1)
    = mkSnapshot (N +:+ " / " +:+ N)
        (nat_to_string (length (edges (viz w)))) "100%" :: hudLog (env w) /\
    hudLog (env w0)
    = mkSnapshot ("0 / " +:+ N) "0" "0%" :: hudLog (env w).
Proof.
  intros Hres Hne N.
  assert (Ht : length (nodes (viz w)) <> 0)
    by (destruct (nodes (viz w)); [congruence | discriminate]).
  unfold activateAll, resetAll.
  rewrite (setAll_resolved true w Hres), (setAll_resolved false w Hres).
  eexists _, _. split; [reflexivity |]. split; [reflexivity |].
  unfold resync. fields. unfold metrics. fields.
  rewrite !length_map.
  assert (H1 : Forall (fun n => n_active n = true)
                 (map (set_active true) (nodes (viz w))))
    by (apply Forall_map, Forall_forall; intros n _; reflexivity).
  assert (H0 : Forall (fun n => n_active n = false)
                 (map (set_active false) (nodes (viz w))))
    by (apply Forall_map, Forall_forall; intros n _; reflexivity).
  assert (Hres1 : Forall (resolved (map (set_active true) (nodes (viz w))))
                    (edges (viz w))).
  { eapply Forall_resolved_length; [| exact Hres].
    symmetry. apply length_map. }
  rewrite (activeCount_all _ H1), (all_edges_active _ _ H1 Hres1).
  rewrite (activeCount_inactive _ H0), (no_active_edges _ _ H0).
  rewrite !length_map, !snapshot_texts by exact Ht.
  rewrite round_percent_all, round_percent_none by exact Ht.
  split; reflexivity.
Qed.

Lemma X8_bulk_buttons_texts_witness :
  let w := sample_world [true; false; true]
             [mkEdge (Some 0) (Some 2); mkEdge (Some 0) (Some 1)] in
  edges_resolved w /\ nodes (viz w) <> [] /\
  exists w1,
    activateAll w = Normal w1 /\
    hudLog (env w1) = [mkSnapshot "3 / 3" "2" "100%"].
Proof.
  intros w.
  assert (Hres : edges_resolved w)
    by (repeat constructor; eexists; reflexivity).
  assert (Hne : nodes (viz w) <> []) by discriminate.
  split; [exact Hres |]. split; [exact Hne |].
  destruct (X8_bulk_buttons_texts w Hres Hne) as (w1 & w0 & E1 & _ & H1 & _).
  exists w1. split; [exact E1 | exact H1].
Defined.

(** X9: whatever the flags, the load published for a non-empty node array
    is a whole percentage between 0 and 100, the active count never exceeds
    the node count, the connection count never exceeds the number of
    connections, and activating more nodes never lowers the load. *)
Theorem X9_load_within_percent w :
  edges_resolved w ->
  nodes (viz w) <> [] ->
  exists w' a c z,
    _updateHUD w = Normal w' /\
    hudLog (env w')
    = mkSnapshot (nat_to_string a +:+ " / "
                  +:+ nat_to_string (length (nodes (viz w))))
        (nat_to_string c) (Z_to_string z +:+ "%") :: hudLog (env w) /\
    a <= length (nodes (viz w)) /\
    c <= length (edges (viz w)) /\
    (0 <= z <= 100)%Z /\
    (forall b, a <= b -> (z <= round_percent b (length (nodes (viz w))))%Z).
Proof.
  intros Hres Hne.
  assert (Ht : length (nodes (viz w)) <> 0)
    by (destruct (nodes (viz w)); [congruence | discriminate]).
  rewrite (updateHUD_resolved w Hres).
  exists (resync w), (activeCount (nodes (viz w))),
    (length (List.filter (endpoints_activeb (nodes (viz w))) (edges (viz w)))),
    (round_percent (activeCount (nodes (viz w))) (length (nodes (viz w)))).
  split; [reflexivity |].
  split; [unfold resync; fields; unfold metrics;
          rewrite snapshot_texts by exact Ht; reflexivity |].
  split; [apply activeCount_le |].
  split; [apply List.filter_length_le |].
  split.
  - split.
    + rewrite <- (round_percent_none _ Ht). apply round_percent_mono. lia.
    + rewrite <- (round_percent_all _ Ht). apply round_percent_mono.
      apply activeCount_le.
  - intros b Hb. apply round_percent_mono, Hb.
Qed.

Lemma X9_load_within_percent_witness :
  let w := sample_world [true; false; true]
             [mkEdge (Some 0) (Some 2); mkEdge (Some 0) (Some 1)] in
  edges_resolved w /\ nodes (viz w) <> [] /\
  exists w' a c z,
    _updateHUD w = Normal w' /\
    hudLog (env w')
    = [mkSnapshot (nat_to_string a +:+ " / " +:+ "3") (nat_to_string c)
         (Z_to_string z +:+ "%")] /\
    (0 <= z <= 100)%Z.
Proof.
  intros w.
  assert (Hres : edges_resolved w)
    by (repeat constructor; eexists; reflexivity).
  assert (Hne : nodes (viz w) <> []) by discriminate.
  split; [exact Hres |]. split; [exact Hne |].
  destruct (X9_load_within_percent w Hres Hne)
    as (w' & a & c & z & E & Hl & _ & _ & Hz & _).
  exists w', a, c, z. split; [exact E |]. split; [exact Hl | exact Hz].
Defined.

(** X10: [_updateHUD] never creates an element, and a sink the page lacks
    is skipped without an error.  After any call, completed or thrown, every
    element of the document was there before; with none of the three sinks in
    the page the document is left as it was; whether the call completes does
    not depend on the document; and a call that completes records exactly
    one snapshot. *)
Theorem X10_publish_creates_no_element w :
  let w' := state_of (_updateHUD w) in
  let h := hudIds (viz w) in
  dom (document (env w')) ⊆ dom (document (env w)) /\
  (document (env w) !! hud_active h = None ->
   document (env w) !! hud_connections h = None ->
   document (env w) !! hud_load h = None ->
   document (env w') = document (env w)) /\
  (forall d,
     is_Normal (_updateHUD (with_env (env_document d (env w)) w))
     = is_Normal (_updateHUD w)) /\
  (is_Normal (_updateHUD w) = true ->
   exists s, hudLog (env w') = s :: hudLog (env w)) /\
  (is_Normal (_updateHUD w) = false -> w' = w).
Proof.
  assert (Hdom : forall id text (d : gmap string string),
             dom (setEl id text d) = dom d).
  { intros id text d. unfold setEl. destruct (d !! id) as [v |] eqn:Hv;
      [| reflexivity].
    rewrite dom_insert_L.
    assert (Hin : id ∈ dom d) by (apply elem_of_dom; eexists; exact Hv).
    apply subseteq_union_1_L, singleton_subseteq_l, Hin. }
  unfold _updateHUD. fields.
  destruct (activeEdges _ _) as [l |]; cbn [state_of is_Normal]; fields.
  - split; [unfold publish; rewrite !Hdom; reflexivity |].
    split.
    { intros H1 H2 H3. unfold publish, setEl. rewrite H1, H2, H3.
      reflexivity. }
    split; [reflexivity |].
    split; [intros _; eexists; reflexivity | discriminate].
  - split; [reflexivity |]. split; [reflexivity |].
    split; [reflexivity |]. split; [discriminate | reflexivity].
Qed.


(** ** The render loop while nobody destroys it *)

Section Running.
Variable random : nat -> R.
Variable cfg : Config.
Hypothesis Hok : config_ok cfg = true.

Lemma dispatch_quiet ev w :
  is_frame ev = false -> is_destroy ev = false ->
  same_loop w (state_of (dispatch random cfg ev w)).
Proof.
  intros Hf Hd. destruct ev; try discriminate; cbn [dispatch].
  - destruct (bound (env w)); [apply onResize_same_loop | apply same_loop_refl].
  - destruct (bound (env w)); [| apply same_loop_refl]. cbn [state_of].
    eapply same_loop_trans; [| apply updateHover_same_loop]. repeat split.
  - destruct (bound (env w)); repeat split.
  - destruct (bound (env w));
      [apply pointerDown_same_loop | apply same_loop_refl].
  - destruct (bound (env w));
      [apply pointerDown_same_loop | apply same_loop_refl].
  - destruct (activateBound (env w));
      [apply setAll_same_loop | apply same_loop_refl].
  - destruct (resetBound (env w));
      [apply setAll_same_loop | apply same_loop_refl].
Qed.

Hypothesis Hpal : palette_ok cfg = true.

(** The nodes of a live instance carry the colours of their groups. *)
Lemma shape_colored w :
  shape cfg w ->
  Forall (fun n => has_color (n_color n) = true) (nodes (viz w)).
Proof.
  unfold shape. destruct (bound (env w)).
  - intros (_ & E).
    assert (Ec : map n_color (nodes (viz w))
                 = map (fun d => groupColors (d_group d)) (nodesData cfg)).
    { apply (f_equal (map (fun s : string * string * string * R * Color =>
                             s.2))) in E.
      rewrite !map_map in E. exact E. }
    unfold palette_ok in Hpal. rewrite forallb_forall in Hpal.
    apply Forall_forall. intros n Hn.
    apply (list_elem_of_fmap_2 n_color) in Hn.
    change (n_color <$> nodes (viz w)) with (map n_color (nodes (viz w))) in Hn.
    rewrite Ec in Hn.
    change (map ?f ?l) with (f <$> l) in Hn.
    apply list_elem_of_fmap in Hn as (d & -> & Hd).
    apply Hpal, list_elem_of_In, Hd.
  - intros (-> & _). constructor.
Qed.

Lemma dispatch_running ev w :
  inv cfg w -> shape cfg w -> running w -> is_destroy ev = false ->
  exists w',
    dispatch random cfg ev w = Normal w' /\ inv cfg w' /\ shape cfg w' /\
    running w' /\
    frames (env w') = (if is_frame ev then 1 else 0) + frames (env w).
Proof.
  intros Hinv Hsh (h & Hp & Ha) Hd.
  pose proof (dispatch_inv random cfg Hok ev w Hinv) as Hinv'.
  pose proof (shape_dispatch random cfg ev w Hsh) as Hsh'.
  destruct (is_frame ev) eqn:Hf.
  - destruct ev; try discriminate. cbn [dispatch] in *. rewrite Hp in *.
    set (w1 := with_env _ w) in *.
    assert (H1 : edges_resolved w1) by apply Hinv.
    assert (Hc1 : Forall (fun n => has_color (n_color n) = true) (nodes (viz w1)))
      by apply (shape_colored w Hsh).
    rewrite (animate_resolved w1 H1 Hc1) in *. cbn [state_of] in *.
    eexists. split; [reflexivity |]. split; [exact Hinv' |].
    split; [exact Hsh' |]. split; [| reflexivity].
    eexists. split; reflexivity.
  - destruct (dispatch_normal random cfg Hok ev w Hinv Hf) as (w' & E & _).
    pose proof (dispatch_quiet ev w Hf Hd) as (Ha' & Hp' & Hfr).
    rewrite E in *. cbn [state_of] in *.
    exists w'. split; [reflexivity |]. split; [exact Hinv' |].
    split; [exact Hsh' |]. split; [| exact Hfr].
    exists h. split; congruence.
Qed.

Lemma run_running evs : forall w,
  inv cfg w -> shape cfg w -> running w ->
  forallb (fun ev => negb (is_destroy ev)) evs = true ->
  running (run random cfg evs w) /\
  frames (env (run random cfg evs w))
  = length (List.filter is_frame evs) + frames (env w).
Proof.
  induction evs as [| ev rest IH]; intros w Hinv Hsh Hrun Hd;
    [split; [exact Hrun | reflexivity] |].
  cbn [forallb] in Hd. apply andb_prop in Hd as [Hd1 Hd2].
  apply negb_true_iff in Hd1.
  destruct (dispatch_running ev w Hinv Hsh Hrun Hd1)
    as (w' & E & Hinv' & Hsh' & Hrun' & Hf).
  cbn [run fold_left]. rewrite E. cbn [state_of].
  destruct (IH w' Hinv' Hsh' Hrun' Hd2) as (Hr & Hfr).
  split; [exact Hr |].
  unfold run in Hfr. rewrite Hfr, Hf. cbn [List.filter].
  destruct (is_frame ev); cbn [length]; lia.
Qed.

End Running.

(** X11: with a canvas, a table whose edges all resolve and groups that all
    have a colour of the colour table, the render loop never stops by
    itself.  After any sequence of events without a [destroy] call, exactly
    one frame is pending, [animId] holds its handle, and the number of
    frames rendered is one (the constructor's) plus the number of frame
    callbacks delivered. *)
Theorem X11_loop_runs_until_destroy random cfg canvasId h rect d issued evs :
  config_ok cfg = true ->
  palette_ok cfg = true ->
  is_Some (d !! canvasId) ->
  forallb (fun ev => negb (is_destroy ev)) evs = true ->
  let w := run random cfg evs
             (state_of (construct random cfg canvasId h rect d issued)) in
  running w /\
  frames (env w) = S (length (List.filter is_frame evs)).
Proof.
  intros Hok Hpal Hc Hd w.
  destruct (construct_eq random cfg canvasId h rect d issued Hok
              (palette_ok_defined cfg Hpal) Hc)
    as (w0 & E & _ & _ & _ & _ & _ & _ & _ & _ & Hp & Ha & Hf).
  pose proof (construct_inv random cfg Hok canvasId h rect d issued) as Hinv.
  pose proof (shape_construct random cfg canvasId h rect d issued) as Hsh.
  subst w. rewrite E in *. cbn [state_of] in *.
  assert (Hrun : running w0) by (eexists; split; eassumption).
  destruct (run_running random cfg Hok Hpal evs w0 Hinv Hsh Hrun Hd)
    as (Hr & Hfr).
  split; [exact Hr |]. rewrite Hfr, Hf. lia.
Qed.

Lemma X11_loop_runs_until_destroy_witness :
  let evs := [AnimationFrame; Click page_rect 400 300; AnimationFrame;
              WindowResize page_rect] in
  let w := run steady shipped evs
             (state_of (construct steady shipped "system-canvas" page_hud
                          page_rect page_document 0)) in
  running w /\ frames (env w) = 3.
Proof.
  intros evs w.
  apply (X11_loop_runs_until_destroy steady shipped "system-canvas" page_hud
           page_rect page_document 0 evs).
  - exact shipped_ok.
  - exact shipped_palette.
  - exact page_canvas.
  - reflexivity.
Defined.


(** ** Which node an edge endpoint names *)

Lemma nodeMap_from_last ids : forall i (m : gmap string nat) k p,
  k <> "__proto__" ->
  ids !! p = Some k ->
  (forall q, p < q -> ids !! q <> Some k) ->
  nodeMap_from i ids m !! k = Some (i + p).
Proof.
  induction ids as [| k0 rest IH]; intros i m k p Hk Hp Hlast;
    [discriminate |].
  cbn [nodeMap_from]. destruct p as [| p'].
  - injection Hp as ->.
    assert (Hout : k ∉ rest).
    { intros Hin. apply list_elem_of_lookup_1 in Hin as [q Hq].
      apply (Hlast (S q)); [lia | exact Hq]. }
    rewrite nodeMap_from_absent by exact Hout.
    unfold nodeMap_set. apply String.eqb_neq in Hk. rewrite Hk.
    rewrite lookup_insert_eq. f_equal. lia.
  - rewrite (IH (S i) _ k p' Hk Hp).
    + f_equal. lia.
    + intros q Hq. apply (Hlast (S q)). lia.
Qed.

Lemma last_occurrence (ids : list string) k :
  k ∈ ids ->
  exists p, ids !! p = Some k /\ forall q, p < q -> ids !! q <> Some k.
Proof.
  induction ids as [| k0 rest IH]; intros Hin; [inversion Hin |].
  destruct (decide (k ∈ rest)) as [Hr | Hr].
  - destruct (IH Hr) as (p & Hp & Hlast). exists (S p). split; [exact Hp |].
    intros [| q] Hq; [lia |]. apply Hlast. lia.
  - apply elem_of_cons in Hin as [-> | Hin]; [| contradiction].
    exists 0. split; [reflexivity |].
    intros [| q] Hq; [lia |]. cbn. intros Hq'. apply Hr.
    eapply list_elem_of_lookup_2. exact Hq'.
Qed.

Lemma nodeMap_of_last ns k j :
  nodeMap_of ns !! k = Some j <-> last_named ns k j.
Proof.
  unfold nodeMap_of, last_named. split.
  - intros Hj.
    assert (Hs : is_Some (nodeMap_from 0 (map n_id ns) ∅ !! k))
      by (eexists; exact Hj).
    apply nodeMap_resolves in Hs as [Hin Hk].
    destruct (last_occurrence _ _ Hin) as (p & Hp & Hlast).
    rewrite (nodeMap_from_last _ 0 ∅ k p Hk Hp Hlast) in Hj.
    injection Hj as <-. split; [exact Hk |]. split; assumption.
  - intros (Hk & Hp & Hlast).
    apply (nodeMap_from_last _ 0 ∅ k j Hk Hp Hlast).
Qed.

(** X12: [_buildEdges] keeps the order of the edge table, and the edge
    built from the pair [(a, b)] points at the last node whose id is [a]
    and the last node whose id is [b]; an id no node carries, or the id
    [__proto__], leaves that endpoint undefined. *)
Theorem X12_edge_points_at_last_node_named ns es i a b :
  es !! i = Some (a, b) ->
  exists e,
    _buildEdges ns es !! i = Some e /\
    (forall j, e_from e = Some j <-> last_named ns a j) /\
    (forall j, e_to e = Some j <-> last_named ns b j).
Proof.
  intros Hi. exists (resolveEdge (nodeMap_of ns) (a, b)). split.
  - unfold _buildEdges. change (map ?f ?l) with (f <$> l).
    rewrite list_lookup_fmap, Hi. reflexivity.
  - split; intros j; apply nodeMap_of_last.
Qed.

Lemma X12_edge_points_at_last_node_named_witness :
  let twin := mkNode "core" "Twin" "core" 0 0 0 0 28 false 0
                (groupColors "core") in
  exists e,
    _buildEdges [sample_node true; twin] [("core", "core")] !! 0 = Some e /\
    (forall j, e_from e = Some j
               <-> last_named [sample_node true; twin] "core" j).
Proof.
  intros twin.
  destruct (X12_edge_points_at_last_node_named [sample_node true; twin]
              [("core", "core")] 0 "core" "core" eq_refl)
    as (e & He & Hfrom & _).
  exists e. split; [exact He | exact Hfrom].
Defined.


(** * canvas.js *)

(** ** Particle creation *)

Lemma Math_floor_IZR (z : Z) (r : R) :
  (IZR z <= r < IZR z + 1)%R -> Canvas.Math_floor r = z.
Proof.
  intros [Hl Hu]. unfold Canvas.Math_floor, Int_part.
  assert (E : (z + 1)%Z = up r).
  { apply up_tech; [exact Hl |]. rewrite plus_IZR. exact Hu. }
  lia.
Qed.

Lemma particleCount_cases iw :
  Canvas.particleCount iw = if Rltb iw 768 then 24%Z else 60%Z.
Proof.
  unfold Canvas.particleCount, Canvas.PARTICLE_COUNT.
  destruct (Rltb iw 768); [| reflexivity].
  apply Math_floor_IZR. lra.
Qed.

Lemma pushParticles_length random w ht n : forall k,
  length (Canvas.pushParticles random w ht n k) = n.
Proof.
  induction n as [| n IH]; intros k; [reflexivity |].
  cbn. rewrite IH. reflexivity.
Qed.

Lemma newParticle_ranges random w ht k :
  Canvas.unit_random random -> (0 <= w)%R -> (0 <= ht)%R ->
  let p := Canvas.newParticle random w ht k in
  Canvas.on_canvas w ht p /\ Canvas.styled p /\
  (Rabs (Canvas.p_vx p) <= 0.2)%R /\ (Rabs (Canvas.p_vy p) <= 0.2)%R.
Proof.
  intros Hr Hw Hh p. unfold p, Canvas.newParticle, Canvas.on_canvas,
    Canvas.styled. cbn.
  pose proof (Hr k) as H0. pose proof (Hr (S k)) as H1.
  pose proof (Hr (S (S k))) as H2. pose proof (Hr (S (S (S k)))) as H3.
  pose proof (Hr (S (S (S (S k))))) as H4.
  pose proof (Hr (S (S (S (S (S k)))))) as H5.
  repeat split; try lra; try nra.
  - apply Rabs_le. lra.
  - apply Rabs_le. lra.
Qed.

Lemma pushParticles_ranges random w ht n :
  Canvas.unit_random random -> (0 <= w)%R -> (0 <= ht)%R ->
  forall k,
    Forall (fun p => Canvas.on_canvas w ht p /\ Canvas.styled p /\
                     (Rabs (Canvas.p_vx p) <= 0.2)%R /\
                     (Rabs (Canvas.p_vy p) <= 0.2)%R)
      (Canvas.pushParticles random w ht n k).
Proof.
  intros Hr Hw Hh. induction n as [| n IH]; intros k; [constructor |].
  cbn [Canvas.pushParticles]. constructor; [| apply IH].
  apply newParticle_ranges; assumption.
Qed.




Lemma particle_count_double :
  let c := PrimFloat.mul (double_of_nat 60)
             (PrimFloat.div (double_of_nat 2) (double_of_nat 5)) in
  PrimFloat.leb (double_of_nat 24) c && PrimFloat.ltb c (double_of_nat 25)
  = true.
Proof. vm_compute. reflexivity. Qed.

(** ** The particle update *)

Lemma wrapAround_range limit v :
  (0 <= limit)%R -> (0 <= Canvas.wrapAround limit v <= limit)%R.
Proof.
  intros Hl. unfold Canvas.wrapAround.
  destruct (Rltb v 0) eqn:E1.
  - assert (E2 : Rltb limit limit = false) by (apply Rltb_false; lra).
    rewrite E2. lra.
  - apply Rltb_false in E1.
    destruct (Rltb limit v) eqn:E2; [lra |].
    apply Rltb_false in E2. lra.
Qed.

Lemma repel_style m p :
  Canvas.p_x (Canvas.repel m p) = Canvas.p_x p /\
  Canvas.p_y (Canvas.repel m p) = Canvas.p_y p /\
  Canvas.p_size (Canvas.repel m p) = Canvas.p_size p /\
  Canvas.p_opacity (Canvas.repel m p) = Canvas.p_opacity p.
Proof.
  unfold Canvas.repel. destruct (_ && _); repeat split.
Qed.

Lemma updateParticle_on_canvas m w ht p :
  (0 <= w)%R -> (0 <= ht)%R ->
  Canvas.on_canvas w ht (Canvas.updateParticle m w ht p).
Proof.
  intros Hw Hh. unfold Canvas.updateParticle, Canvas.wrap, Canvas.on_canvas.
  cbn. split; apply wrapAround_range; assumption.
Qed.

Lemma updateParticle_style m w ht p :
  Canvas.p_size (Canvas.updateParticle m w ht p) = Canvas.p_size p /\
  Canvas.p_opacity (Canvas.updateParticle m w ht p) = Canvas.p_opacity p.
Proof.
  destruct (repel_style m p) as (_ & _ & Hs & Ho).
  unfold Canvas.updateParticle, Canvas.wrap, Canvas.advance. cbn.
  split; assumption.
Qed.

Lemma updateParticles_inv m w ht ps :
  (0 <= w)%R -> (0 <= ht)%R ->
  Forall Canvas.styled ps ->
  Forall (fun p => Canvas.on_canvas w ht p /\ Canvas.styled p)
    (Canvas._updateParticles m w ht ps).
Proof.
  intros Hw Hh Hs. unfold Canvas._updateParticles.
  apply Forall_map. eapply Forall_impl; [exact Hs |].
  intros p Hp. cbn. split; [apply updateParticle_on_canvas; assumption |].
  destruct (updateParticle_style m w ht p) as (E1 & E2).
  unfold Canvas.styled. rewrite E1, E2. exact Hp.
Qed.

Lemma animate_hero_inv pg :
  hero_inv pg -> hero_inv (Canvas._animate pg).
Proof.
  intros (Hb & Ht & Hw & Hh & Hn & Hps).
  unfold hero_inv, Canvas._animate, Canvas.requestAnimationFrame. cbn.
  split; [exact Hb |]. split; [lra |]. split; [exact Hw |].
  split; [exact Hh |].
  split; [unfold Canvas._updateParticles; rewrite length_map; exact Hn |].
  apply updateParticles_inv; try assumption.
  eapply Forall_impl; [exact Hps |]. intros p [_ H]. exact H.
Qed.

Lemma createParticles_hero_inv random iw pg :
  Canvas.unit_random random ->
  Canvas.bound pg = true ->
  (0 <= Canvas.time (Canvas.hero pg))%R ->
  (0 <= Canvas.width (Canvas.hero pg))%R ->
  (0 <= Canvas.height (Canvas.hero pg))%R ->
  hero_inv (Canvas._createParticles random iw pg).
Proof.
  intros Hr Hb Ht Hw Hh.
  unfold hero_inv, Canvas._createParticles. cbn.
  split; [exact Hb |]. split; [exact Ht |]. split; [exact Hw |].
  split; [exact Hh |].
  rewrite pushParticles_length, particleCount_cases.
  split; [destruct (Rltb iw 768); [left | right]; reflexivity |].
  eapply Forall_impl; [apply pushParticles_ranges; eassumption |].
  intros p (H1 & H2 & _). split; assumption.
Qed.

Lemma dispatch_hero_inv random ev pg :
  Canvas.unit_random random -> Canvas.event_ok ev ->
  hero_inv pg -> hero_inv (Canvas.dispatch random ev pg).
Proof.
  intros Hr Hev Hinv. pose proof Hinv as (Hb & Ht & Hw & Hh & Hn & Hps).
  destruct ev; cbn [Canvas.dispatch]; rewrite ?Hb.
  - destruct Hev as [Hrw Hrh]. unfold Canvas._resize.
    cbn [Canvas.hero Canvas.with_hero Canvas.with_size Canvas.particles].
    destruct (Canvas.particles (Canvas.hero pg)) as [| p0 rest] eqn:E;
      [destruct Hn as [Hn | Hn]; discriminate |].
    apply createParticles_hero_inv; cbn; assumption.
  - unfold hero_inv. cbn. repeat split; assumption.
  - unfold hero_inv. cbn. repeat split; assumption.
  - destruct (Canvas.rafPending pg); [| exact Hinv].
    apply animate_hero_inv. unfold hero_inv. cbn. repeat split; assumption.
  - unfold Canvas.destroy.
    destruct (Canvas.animId (Canvas.hero pg)) as [[| h] |]; try exact Hinv.
    destruct (Canvas.rafPending pg) as [p |]; [| exact Hinv].
    destruct (Nat.eqb p (S h)); [| exact Hinv].
    unfold hero_inv. cbn. repeat split; assumption.
Qed.

Lemma construct_hero_inv random rect iw issued :
  Canvas.unit_random random ->
  (0 <= rect_width rect)%R -> (0 <= rect_height rect)%R ->
  hero_inv (Canvas.construct random true rect iw issued).
Proof.
  intros Hr Hw Hh. unfold Canvas.construct.
  apply animate_hero_inv.
  set (pg1 := Canvas._createParticles _ _ _).
  assert (H1 : hero_inv
                 (Canvas.mkPage (Canvas.hero pg1) (Canvas.randomCalls pg1)
                    (Canvas.rafIssued pg1) (Canvas.rafPending pg1) true
                    (Canvas.scanLine pg1) (Canvas.strokes pg1)
                    (Canvas.frames pg1))); [| exact H1].
  unfold pg1, Canvas._resize. cbn -[Canvas._createParticles].
  pose proof (createParticles_hero_inv random iw
                (Canvas.mkPage
                   (Canvas.mkHero [] (-1000, -1000)%R None 0%R
                      (rect_width rect) (rect_height rect))
                   0 issued None true None [] 0) Hr eq_refl) as H.
  cbn -[Canvas._createParticles] in H.
  specialize (H (Rle_refl 0) Hw Hh).
  exact H.
Qed.

Lemma run_hero_inv random evs : forall pg,
  Canvas.unit_random random -> Forall Canvas.event_ok evs ->
  hero_inv pg -> hero_inv (Canvas.run random evs pg).
Proof.
  induction evs as [| ev rest IH]; intros pg Hr Hev Hinv; [exact Hinv |].
  inversion Hev as [| ? ? He Hrest]; subst.
  cbn [Canvas.run fold_left]. apply IH; [exact Hr | exact Hrest |].
  apply dispatch_hero_inv; assumption.
Qed.




(** ** Damping *)

Lemma repel_far p :
  (0 <= Canvas.p_x p)%R -> (0 <= Canvas.p_y p)%R ->
  Canvas.repel (-1000, -1000)%R p = p.
Proof.
  intros Hx Hy. unfold Canvas.repel. cbn [fst snd].
  set (dx := (Canvas.p_x p - -1000)%R). set (dy := (Canvas.p_y p - -1000)%R).
  assert (Hd : (1000 <= sqrt (dx * dx + dy * dy))%R).
  { rewrite <- (sqrt_square 1000) at 1 by lra.
    apply sqrt_le_1_alt. unfold dx, dy. nra. }
  assert (E : Rltb (sqrt (dx * dx + dy * dy)) Canvas.MOUSE_RADIUS = false).
  { apply Rltb_false. unfold Canvas.MOUSE_RADIUS. lra. }
  rewrite E. reflexivity.
Qed.

Lemma updateParticle_far w ht p :
  (0 <= Canvas.p_x p)%R -> (0 <= Canvas.p_y p)%R ->
  Canvas.p_vx (Canvas.updateParticle (-1000, -1000)%R w ht p)
  = (Canvas.p_vx p * 0.98)%R /\
  Canvas.p_vy (Canvas.updateParticle (-1000, -1000)%R w ht p)
  = (Canvas.p_vy p * 0.98)%R.
Proof.
  intros Hx Hy. unfold Canvas.updateParticle.
  rewrite (repel_far p Hx Hy). split; reflexivity.
Qed.

Lemma frames_damp random n : forall pg,
  Canvas.mouse (Canvas.hero pg) = (-1000, -1000)%R ->
  is_Some (Canvas.rafPending pg) ->
  (0 <= Canvas.width (Canvas.hero pg))%R ->
  (0 <= Canvas.height (Canvas.hero pg))%R ->
  Forall (Canvas.on_canvas (Canvas.width (Canvas.hero pg))
            (Canvas.height (Canvas.hero pg)))
    (Canvas.particles (Canvas.hero pg)) ->
  let pg' := Canvas.run random (repeat Canvas.AnimationFrame n) pg in
  map Canvas.p_vx (Canvas.particles (Canvas.hero pg'))
  = map (fun p => (Canvas.p_vx p * 0.98 ^ n)%R)
      (Canvas.particles (Canvas.hero pg)) /\
  map Canvas.p_vy (Canvas.particles (Canvas.hero pg'))
  = map (fun p => (Canvas.p_vy p * 0.98 ^ n)%R)
      (Canvas.particles (Canvas.hero pg)).
Proof.
  induction n as [| n IH]; intros pg Hm [h Hp] Hw Hh Hps pg'.
  - subst pg'. cbn [repeat Canvas.run fold_left pow].
    split; apply map_ext; intros p; lra.
  - subst pg'. cbn [repeat Canvas.run fold_left Canvas.dispatch].
    rewrite Hp.
    set (pg1 := Canvas._animate _).
    assert (Hps1 : Canvas.particles (Canvas.hero pg1)
                   = Canvas._updateParticles (-1000, -1000)%R
                       (Canvas.width (Canvas.hero pg))
                       (Canvas.height (Canvas.hero pg))
                       (Canvas.particles (Canvas.hero pg))).
    { unfold pg1, Canvas._animate, Canvas.requestAnimationFrame. cbn.
      rewrite Hm. reflexivity. }
    destruct (IH pg1) as [Ex Ey].
    + exact Hm.
    + eexists. reflexivity.
    + exact Hw.
    + exact Hh.
    + rewrite Hps1. unfold Canvas._updateParticles. apply Forall_map.
      apply Forall_forall. intros p _.
      apply updateParticle_on_canvas; assumption.
    + unfold Canvas.run in Ex, Ey. rewrite Ex, Ey, Hps1.
      unfold Canvas._updateParticles. rewrite !map_map.
      rewrite Forall_forall in Hps.
      split; apply map_ext_in; intros p Hin; apply list_elem_of_In in Hin;
        destruct (Hps p Hin) as [[Hx _] [Hy _]];
        destruct (updateParticle_far (Canvas.width (Canvas.hero pg))
                    (Canvas.height (Canvas.hero pg)) p Hx Hy) as [E1 E2];
        rewrite ?E1, ?E2; cbn [pow]; lra.
Qed.

(** X16: while the pointer is off the canvas, nothing feeds the particles:
    each frame multiplies every velocity component by 0.98, so after [n]
    frames a particle moves at 0.98^n of the speed it had. *)
Theorem X16_untouched_particles_slow_down random n pg :
  Canvas.mouse (Canvas.hero pg) = (-1000, -1000)%R ->
  is_Some (Canvas.rafPending pg) ->
  (0 <= Canvas.width (Canvas.hero pg))%R ->
  (0 <= Canvas.height (Canvas.hero pg))%R ->
  Forall (Canvas.on_canvas (Canvas.width (Canvas.hero pg))
            (Canvas.height (Canvas.hero pg)))
    (Canvas.particles (Canvas.hero pg)) ->
  let pg' := Canvas.run random (repeat Canvas.AnimationFrame n) pg in
  Canvas.frames pg' = n + Canvas.frames pg /\
  map Canvas.p_vx (Canvas.particles (Canvas.hero pg'))
  = map (fun p => (Canvas.p_vx p * 0.98 ^ n)%R)
      (Canvas.particles (Canvas.hero pg)) /\
  map Canvas.p_vy (Canvas.particles (Canvas.hero pg'))
  = map (fun p => (Canvas.p_vy p * 0.98 ^ n)%R)
      (Canvas.particles (Canvas.hero pg)).
Proof.
  intros Hm Hp Hw Hh Hps pg'. split; [| apply frames_damp; assumption].
  subst pg'. clear Hm Hw Hh Hps. revert pg Hp.
  induction n as [| n IH]; intros pg [h Hp]; [reflexivity |].
  cbn [repeat Canvas.run fold_left Canvas.dispatch]. rewrite Hp.
  unfold Canvas.run in IH. rewrite IH by (eexists; reflexivity).
  cbn. lia.
Qed.

Lemma X16_untouched_particles_slow_down_witness :
  let p := Canvas.mkParticle 10 20 1 (-1) 2 0.5 in
  let pg := Canvas.mkPage
              (Canvas.mkHero [p] (-1000, -1000)%R (Some 1) 0%R 800%R 600%R)
              0 1 (Some 1) true None [] 1 in
  map Canvas.p_vx
    (Canvas.particles
       (Canvas.hero (Canvas.run steady (repeat Canvas.AnimationFrame 2) pg)))
  = [(1 * 0.98 ^ 2)%R].
Proof.
  intros p pg.
  assert (Hp : is_Some (Canvas.rafPending pg)) by (eexists; reflexivity).
  assert (Hw : (0 <= Canvas.width (Canvas.hero pg))%R) by (cbn; lra).
  assert (Hh : (0 <= Canvas.height (Canvas.hero pg))%R) by (cbn; lra).
  assert (Hps : Forall (Canvas.on_canvas (Canvas.width (Canvas.hero pg))
                          (Canvas.height (Canvas.hero pg)))
                  (Canvas.particles (Canvas.hero pg))).
  { repeat constructor; cbn; lra. }
  exact (proj1 (proj2 (X16_untouched_particles_slow_down steady 2 pg eq_refl
                         Hp Hw Hh Hps))).
Defined.


(** ** Connection lines *)








(** ** The scan line *)

Lemma Number_rem_range a b :
  (0 <= a)%R -> (0 < b)%R -> (0 <= Canvas.Number_rem a b < b)%R.
Proof.
  intros Ha Hb. unfold Canvas.Number_rem.
  assert (Hq : (0 <= a / b)%R).
  { apply Rmult_le_pos; [exact Ha |]. left. apply Rinv_0_lt_compat, Hb. }
  assert (E : Rltb (a / b) 0 = false) by (apply Rltb_false; exact Hq).
  rewrite E.
  destruct (base_Int_part (a / b)) as [H1 H2].
  assert (Hab : (a = a / b * b)%R) by (field; lra).
  set (t := IZR (Int_part (a / b))) in *.
  split; nra.
Qed.

(** X18: every frame draws its scan line between 50 pixels above the
    canvas and 50 pixels below it.  On a running hero canvas, after any
    events, the next frame centres the band at a [y] with
    [-50 <= y < height + 50]. *)
Theorem X18_scan_line_sweeps_canvas random rect iw issued evs :
  Canvas.unit_random random ->
  (0 <= rect_width rect)%R -> (0 <= rect_height rect)%R ->
  Forall Canvas.event_ok evs ->
  let pg := Canvas.run random evs (Canvas.construct random true rect iw issued) in
  is_Some (Canvas.rafPending pg) ->
  exists y,
    Canvas.scanLine (Canvas.dispatch random Canvas.AnimationFrame pg) = Some y /\
    (-50 <= y < Canvas.height (Canvas.hero pg) + 50)%R.
Proof.
  intros Hr Hw Hh Hev pg [h Hp].
  assert (Hinv : hero_inv pg).
  { apply run_hero_inv; [exact Hr | exact Hev |].
    apply construct_hero_inv; assumption. }
  destruct Hinv as (_ & Ht & _ & Hht & _).
  cbn [Canvas.dispatch]. rewrite Hp.
  eexists. split; [reflexivity |].
  unfold Canvas.scanLineY. cbn [Canvas.hero Canvas.time Canvas.height].
  pose proof (Number_rem_range
                ((Canvas.time (Canvas.hero pg) + 0.005) * 80)
                (Canvas.height (Canvas.hero pg) + 100)) as H.
  lra.
Qed.

Lemma X18_scan_line_sweeps_canvas_witness :
  let pg := Canvas.run steady [Canvas.AnimationFrame]
              (Canvas.construct steady true page_rect 1024 0) in
  exists y,
    Canvas.scanLine (Canvas.dispatch steady Canvas.AnimationFrame pg) = Some y /\
    (-50 <= y < Canvas.height (Canvas.hero pg) + 50)%R.
Proof.
  intros pg.
  assert (Hr : Canvas.unit_random steady) by (intros k; unfold steady; lra).
  assert (Hw : (0 <= rect_width page_rect)%R) by (cbn; lra).
  assert (Hh : (0 <= rect_height page_rect)%R) by (cbn; lra).
  assert (Hev : Forall Canvas.event_ok [Canvas.AnimationFrame])
    by (repeat constructor).
  apply (X18_scan_line_sweeps_canvas steady page_rect 1024 0
           [Canvas.AnimationFrame] Hr Hw Hh Hev).
  eexists. reflexivity.
Defined.


(** * animations.js: the typing effect *)

Lemma substring0_all s : Typing.substring0 (Z.of_nat (String.length s)) s = s.
Proof.
  unfold Typing.substring0. rewrite Nat2Z.id.
  induction s as [| c s IH]; [reflexivity |]. cbn. rewrite IH. reflexivity.
Qed.

Lemma fires_snoc strings ts ds ps n : forall st,
  Typing.fires strings ts ds ps (S n) st
  = Typing.fires strings ts ds ps n st >>> Typing.fire strings ts ds ps.
Proof.
  induction n as [| n IH]; intros st.
  - cbn. destruct (Typing.fire strings ts ds ps st); reflexivity.
  - change (Typing.fires strings ts ds ps (S (S n)) st)
      with (Typing.fire strings ts ds ps st
            >>> Typing.fires strings ts ds ps (S n)).
    cbn [Typing.fires].
    destruct (Typing.fire strings ts ds ps st) as [st1 | st1]; cbn [bind];
      [apply IH | reflexivity].
Qed.

Lemma fire_single strings ts ds ps st h d :
  Typing.pending st = [(h, d)] ->
  Typing.fire strings ts ds ps st
  = Typing.tick strings ts ds ps
      (Typing.mkState (Typing.textContent st) (Typing.stringIndex st)
         (Typing.charIndex st) (Typing.isDeleting st) (Typing.timeout st)
         (Typing.issued st) []).
Proof.
  intros Hp. unfold Typing.fire, Typing.dispatch, Typing.clearTimeout.
  rewrite Hp. cbn [existsb fst List.filter]. rewrite Nat.eqb_refl. reflexivity.
Qed.

Lemma fire_cycle strings ts ds ps i s k st :
  strings !! i = Some s ->
  1 <= String.length s ->
  k < 2 * String.length s ->
  in_cycle ts ds ps (length strings) i s k st ->
  exists st',
    Typing.fire strings ts ds ps st = Normal st' /\
    in_cycle ts ds ps (length strings) i s (S k) st'.
Proof.
  intros Hs HL Hk ((h & d & Hp & _) & Hi & Hc & Hd).
  rewrite (fire_single _ _ _ _ _ _ _ Hp).
  assert (Hk' : (k <? 2 * String.length s) = true) by (apply Nat.ltb_lt; lia).
  rewrite Hk' in Hi. rewrite Hk', andb_true_r in Hd.
  unfold Typing.tick.
  cbn [Typing.stringIndex Typing.charIndex Typing.isDeleting Typing.issued
       Typing.pending Typing.timeout Typing.textContent].
  rewrite Hi, Hs, Hd, Hc.
  eexists. split; [reflexivity |].
  unfold in_cycle.
  cbn [Typing.stringIndex Typing.charIndex Typing.isDeleting Typing.issued
       Typing.pending Typing.timeout Typing.textContent app].
  unfold Typing.shown, Typing.delay_of.
  destruct (Nat.leb_spec (String.length s) k) as [Hle | Hlt]; cbn [negb andb].
  - (* deleting *)
    assert (E1 : (k <=? String.length s) = (k =? String.length s)).
    { destruct (Nat.leb_spec k (String.length s)), (Nat.eqb_spec k (String.length s));
        try reflexivity; lia. }
    assert (Hc' : (Z.of_nat (if (k <=? String.length s)%nat then k
                             else (2 * String.length s - k)%nat) - 1
                   = Z.of_nat (2 * String.length s - S k)%nat)%Z).
    { destruct (Nat.leb_spec k (String.length s)); lia. }
    rewrite Hc'.
    assert (E2 : (S k <=? String.length s) = false) by (apply Nat.leb_gt; lia).
    assert (E3 : (S k <? String.length s) = false) by (apply Nat.ltb_ge; lia).
    assert (E4 : (S k =? String.length s) = false) by (apply Nat.eqb_neq; lia).
    assert (E5 : (String.length s <=? S k) = true) by (apply Nat.leb_le; lia).
    rewrite E2, E3, E4, E5.
    destruct (Z.eqb_spec (Z.of_nat (2 * String.length s - S k)) 0) as [Hz | Hz].
    + assert (E6 : (S k <? 2 * String.length s) = false)
        by (apply Nat.ltb_ge; lia).
      rewrite E6. cbn [andb].
      split; [eexists _, _; split; [reflexivity |]; intros _; repeat split |].
      repeat split.
    + assert (E6 : (S k <? 2 * String.length s) = true)
        by (apply Nat.ltb_lt; lia).
      rewrite E6. cbn [andb].
      split; [eexists _, _; split; [reflexivity |]; intros _; repeat split |].
      repeat split.
  - (* typing *)
    assert (E0 : (k <=? String.length s) = true) by (apply Nat.leb_le; lia).
    rewrite E0.
    assert (Hc' : (Z.of_nat k + 1 = Z.of_nat (S k))%Z) by lia.
    rewrite Hc'.
    assert (E2 : (S k <=? String.length s) = true) by (apply Nat.leb_le; lia).
    assert (E6 : (S k <? 2 * String.length s) = true)
      by (apply Nat.ltb_lt; lia).
    rewrite E2, E6.
    destruct (Z.eqb_spec (Z.of_nat (S k)) (Z.of_nat (String.length s)))
      as [Hz | Hz]; cbn [andb].
    + assert (E3 : (S k <? String.length s) = false) by (apply Nat.ltb_ge; lia).
      assert (E4 : (S k =? String.length s) = true) by (apply Nat.eqb_eq; lia).
      assert (E5 : (String.length s <=? S k) = true) by (apply Nat.leb_le; lia).
      rewrite E3, E4, E5.
      destruct (Z.eqb_spec (Z.of_nat (S k)) 0) as [Hz0 | Hz0]; [lia |].
      cbn [andb].
      split; [eexists _, _; split; [reflexivity |]; intros _; repeat split |].
      repeat split.
    + assert (E3 : (S k <? String.length s) = true) by (apply Nat.ltb_lt; lia).
      assert (E5 : (String.length s <=? S k) = false) by (apply Nat.leb_gt; lia).
      rewrite E3, E5. cbn [andb].
      split; [eexists _, _; split; [reflexivity |]; intros _; repeat split |].
      repeat split.
Qed.

Lemma fires_cycle strings ts ds ps i s st :
  strings !! i = Some s ->
  1 <= String.length s ->
  Typing.at_word st i ->
  forall k, k <= 2 * String.length s ->
  exists st',
    Typing.fires strings ts ds ps k st = Normal st' /\
    in_cycle ts ds ps (length strings) i s k st'.
Proof.
  intros Hs HL (Hi & Hc & Hd & h & d & Hp).
  induction k as [| k IH]; intros Hk.
  - exists st. split; [reflexivity |].
    unfold in_cycle.
    assert (E1 : (0 <? 2 * String.length s) = true) by (apply Nat.ltb_lt; lia).
    assert (E2 : (String.length s <=? 0) = false) by (apply Nat.leb_gt; lia).
    rewrite E1, E2. split; [exists h, d; split; [exact Hp | lia] |].
    repeat split; assumption.
  - destruct IH as (st1 & E1 & H1); [lia |].
    destruct (fire_cycle strings ts ds ps i s k st1 Hs HL) as (st2 & E2 & H2);
      [lia | exact H1 |].
    exists st2. split; [| exact H2].
    rewrite fires_snoc, E1. exact E2.
Qed.

(** X19: a non-empty word is typed out one character per tick, shown in
    full after as many ticks as it has characters, then deleted one
    character per tick; the tick that empties the element moves on to the
    next word, wrapping around at the end of the list.  The delays asked
    for are [typeSpeed] while typing, [pauseTime] once the word is
    complete, [deleteSpeed] while deleting and 400 ms before the next
    word. *)
Theorem X19_word_is_typed_then_deleted strings ts ds ps st i s k :
  strings !! i = Some s ->
  s <> EmptyString ->
  Typing.at_word st i ->
  1 <= k <= 2 * String.length s ->
  exists st' h,
    Typing.fires strings ts ds ps k st = Normal st' /\
    Typing.textContent st' = Typing.shown s k /\
    (k = String.length s -> Typing.textContent st' = s) /\
    Typing.pending st' = [(h, Typing.delay_of ts ds ps s k)] /\
    Typing.timeout st' = Some h /\
    (k = 2 * String.length s ->
     Typing.at_word st' ((i + 1) mod length strings) /\
     Typing.textContent st' = EmptyString).
Proof.
  intros Hs Hne Hat [Hk1 Hk2].
  assert (HL : 1 <= String.length s) by (destruct s; [congruence | cbn; lia]).
  destruct (fires_cycle strings ts ds ps i s st Hs HL Hat k Hk2)
    as (st' & E & (h & d & Hp & Hd) & Hi & Hc & Hdel).
  destruct (Hd Hk1) as (-> & Hto & Htext).
  exists st', h. split; [exact E |]. split; [exact Htext |].
  split; [| split; [exact Hp | split; [exact Hto |]]].
  - intros ->. rewrite Htext. unfold Typing.shown. rewrite Nat.leb_refl.
    apply substring0_all.
  - intros ->.
    assert (E1 : (2 * String.length s <? 2 * String.length s) = false)
      by (apply Nat.ltb_irrefl).
    assert (E2 : (2 * String.length s <=? String.length s) = false)
      by (apply Nat.leb_gt; lia).
    rewrite E1 in Hi, Hdel. rewrite E2 in Hc. rewrite andb_false_r in Hdel.
    split.
    + split; [exact Hi |]. split; [rewrite Hc; lia |]. split; [exact Hdel |].
      exists h, (Typing.delay_of ts ds ps s (2 * String.length s)).
      exact Hp.
    + rewrite Htext. unfold Typing.shown. rewrite E2.
      replace (2 * String.length s - 2 * String.length s) with 0 by lia.
      unfold Typing.substring0. cbn. destruct s; reflexivity.
Qed.


Lemma X19_word_is_typed_then_deleted_witness :
  let st := Typing.mkState "" 0 0 false None 1 [(1, 1200%Z)] in
  exists st' h,
    Typing.fires ["Hi"; "Yo"] 80 50 2000 2 st = Normal st' /\
    Typing.textContent st' = "Hi" /\
    Typing.pending st' = [(h, 2000%Z)].
Proof.
  intros st.
  assert (Hat : Typing.at_word st 0).
  { repeat split. exists 1, 1200%Z. reflexivity. }
  destruct (X19_word_is_typed_then_deleted ["Hi"; "Yo"] 80 50 2000 st 0 "Hi" 2
              eq_refl ltac:(discriminate) Hat ltac:(cbn; lia))
    as (st' & h & E & _ & Ht & Hp & _).
  exists st', h. split; [exact E |]. split; [apply Ht; reflexivity | exact Hp].
Defined.

Lemma fires_add strings ts ds ps a : forall b st,
  Typing.fires strings ts ds ps (a + b) st
  = Typing.fires strings ts ds ps a st >>> Typing.fires strings ts ds ps b.
Proof.
  induction a as [| a IH]; intros b st; [reflexivity |].
  cbn [Nat.add Typing.fires].
  destruct (Typing.fire strings ts ds ps st) as [st1 | st1]; cbn [bind];
    [apply IH | reflexivity].
Qed.

Lemma offset_S strings i s :
  strings !! i = Some s ->
  Typing.offset strings (S i) = Typing.offset strings i + 2 * String.length s.
Proof.
  intros Hs. unfold Typing.offset. rewrite (take_S_r _ _ _ Hs).
  rewrite map_app, list_sum_app. cbn. lia.
Qed.

Lemma cycle_end strings ts ds ps i s st :
  strings !! i = Some s ->
  1 <= String.length s ->
  Typing.at_word st i ->
  exists st',
    Typing.fires strings ts ds ps (2 * String.length s) st = Normal st' /\
    Typing.at_word st' ((i + 1) mod length strings) /\
    Typing.textContent st' = EmptyString.
Proof.
  intros Hs HL Hat.
  destruct (fires_cycle strings ts ds ps i s st Hs HL Hat (2 * String.length s))
    as (st' & E & (h & d & Hp & Hd) & Hi & Hc & Hdel); [lia |].
  assert (E1 : (2 * String.length s <? 2 * String.length s) = false)
    by (apply Nat.ltb_irrefl).
  assert (E2 : (2 * String.length s <=? String.length s) = false)
    by (apply Nat.leb_gt; lia).
  rewrite E1 in Hi, Hdel. rewrite E2 in Hc. rewrite andb_false_r in Hdel.
  exists st'. split; [exact E |]. split.
  - split; [exact Hi |]. split; [rewrite Hc; lia |]. split; [exact Hdel |].
    exists h, d. exact Hp.
  - destruct Hd as (_ & _ & ->); [lia |].
    unfold Typing.shown. rewrite E2.
    replace (2 * String.length s - 2 * String.length s) with 0 by lia.
    unfold Typing.substring0. cbn. destruct s; reflexivity.
Qed.

Lemma fires_offset strings ts ds ps st0 :
  Forall (fun s => s <> EmptyString) strings ->
  Typing.at_word st0 0 ->
  forall i, i <= length strings -> 1 <= length strings ->
  exists st,
    Typing.fires strings ts ds ps (Typing.offset strings i) st0 = Normal st /\
    Typing.at_word st (i mod length strings).
Proof.
  intros Hne H0. induction i as [| i IH]; intros Hi Hn.
  - exists st0. split; [reflexivity |]. rewrite Nat.Div0.mod_0_l. exact H0.
  - destruct IH as (st & E & Hat); [lia | exact Hn |].
    rewrite Nat.mod_small in Hat by lia.
    destruct (lookup_lt_is_Some_2 strings i) as [s Hs]; [lia |].
    assert (Hs0 : s <> EmptyString).
    { rewrite Forall_forall in Hne. apply Hne.
      eapply list_elem_of_lookup_2. exact Hs. }
    assert (HL : 1 <= String.length s) by (destruct s; [congruence | cbn; lia]).
    destruct (cycle_end strings ts ds ps i s st Hs HL Hat)
      as (st' & E' & H' & _).
    exists st'. split; [| replace (S i) with (i + 1) by lia; exact H'].
    rewrite (offset_S _ _ _ Hs), fires_add, E. exact E'.
Qed.

(** X20: when no word is empty, every word of the list gets its turn: the
    word at index [i] is fully shown after twice the lengths of the words
    before it plus its own length in ticks, and after twice the total
    length the effect is back at the start of the first word. *)
Theorem X20_every_word_gets_its_turn strings ts ds ps text issued0 st0 i s :
  Typing.initTypingEffect (Some text) issued0 = Some st0 ->
  Forall (fun s => s <> EmptyString) strings ->
  strings !! i = Some s ->
  (exists st,
     Typing.fires strings ts ds ps (Typing.offset strings i + String.length s)
       st0 = Normal st /\
     Typing.textContent st = s) /\
  (exists st,
     Typing.fires strings ts ds ps (Typing.offset strings (length strings))
       st0 = Normal st /\
     Typing.at_word st 0 /\ Typing.textContent st = EmptyString).
Proof.
  intros Hinit Hne Hs. injection Hinit as <-.
  set (st0 := Typing.mkState _ _ _ _ _ _ _).
  assert (H0 : Typing.at_word st0 0).
  { repeat split. eexists _, _. reflexivity. }
  assert (Hi : i < length strings) by (eapply lookup_lt_Some; exact Hs).
  assert (Hs0 : forall j t, strings !! j = Some t -> 1 <= String.length t).
  { intros j t Ht. rewrite Forall_forall in Hne.
    assert (t <> EmptyString) as Hn
      by (apply Hne; eapply list_elem_of_lookup_2; exact Ht).
    destruct t; [congruence | cbn; lia]. }
  split.
  - destruct (fires_offset strings ts ds ps st0 Hne H0 i) as (st & E & Hat);
      [lia | lia |].
    rewrite Nat.mod_small in Hat by lia.
    destruct (fires_cycle strings ts ds ps i s st Hs (Hs0 i s Hs) Hat
                (String.length s))
      as (st' & E' & (h & d & _ & Hd) & _); [lia |].
    exists st'. split; [rewrite fires_add, E; exact E' |].
    destruct (Hd (Hs0 i s Hs)) as (_ & _ & ->).
    unfold Typing.shown. rewrite Nat.leb_refl. apply substring0_all.
  - set (n := length strings) in *.
    destruct (lookup_lt_is_Some_2 strings (n - 1)) as [t Ht]; [lia |].
    destruct (fires_offset strings ts ds ps st0 Hne H0 (n - 1)) as (st & E & Hat);
      [lia | lia |].
    fold n in Hat. rewrite Nat.mod_small in Hat by lia.
    destruct (cycle_end strings ts ds ps (n - 1) t st Ht (Hs0 _ _ Ht) Hat)
      as (st' & E' & H' & Htext).
    exists st'. split; [| split; [| exact Htext]].
    + replace n with (S (n - 1)) at 1 by lia.
      rewrite (offset_S _ _ _ Ht), fires_add, E. exact E'.
    + fold n in H'. replace (n - 1 + 1) with n in H' by lia.
      rewrite Nat.Div0.mod_same in H'. exact H'.
Qed.

Lemma X20_every_word_gets_its_turn_witness :
  exists st,
    Typing.fires ["Hi"; "Yo"] 80 50 2000
      (Typing.offset ["Hi"; "Yo"] 1 + String.length "Yo")
      (Typing.mkState "" 0 0 false None 1 [(1, 1200%Z)]) = Normal st /\
    Typing.textContent st = "Yo".
Proof.
  assert (Hne : Forall (fun s => s <> EmptyString) ["Hi"; "Yo"])
    by (repeat constructor; discriminate).
  exact (proj1 (X20_every_word_gets_its_turn ["Hi"; "Yo"] 80 50 2000 "" 0 _ 1
                  "Yo" eq_refl Hne eq_refl)).
Defined.


(** ** Edge cases of the typing effect *)

Lemma fire_empty_word strings ts ds ps i st :
  strings !! i = Some EmptyString ->
  Typing.stringIndex st = i -> Typing.isDeleting st = false ->
  (0 <= Typing.charIndex st)%Z ->
  (exists h d, Typing.pending st = [(h, d)]) ->
  exists st',
    Typing.fire strings ts ds ps st = Normal st' /\
    Typing.stringIndex st' = i /\ Typing.isDeleting st' = false /\
    Typing.charIndex st' = (Typing.charIndex st + 1)%Z /\
    Typing.textContent st' = EmptyString /\
    (exists h, Typing.pending st' = [(h, ts)]).
Proof.
  intros Hs Hi Hd Hc (h & d & Hp).
  rewrite (fire_single _ _ _ _ _ _ _ Hp). unfold Typing.tick.
  cbn [Typing.stringIndex Typing.charIndex Typing.isDeleting Typing.issued
       Typing.pending Typing.timeout Typing.textContent].
  rewrite Hi, Hs, Hd. cbn [negb andb String.length].
  destruct (Z.eqb_spec (Typing.charIndex st + 1) (Z.of_nat 0)) as [Hz | Hz];
    [lia |].
  cbn [andb]. eexists. split; [reflexivity |]. cbn.
  repeat split.
  - unfold Typing.substring0. destruct (Z.to_nat _); reflexivity.
  - eexists. reflexivity.
Qed.

(** X21: an empty string in the list stalls the effect.  Once its turn
    comes, [charIndex] has already passed its length when it is compared
    with it, so the effect keeps typing forever: every tick leaves the
    element empty, and the next word is never reached. *)
Theorem X21_empty_word_stalls strings ts ds ps i st n :
  strings !! i = Some EmptyString ->
  Typing.at_word st i ->
  exists st',
    Typing.fires strings ts ds ps n st = Normal st' /\
    Typing.stringIndex st' = i /\
    Typing.isDeleting st' = false /\
    Typing.charIndex st' = Z.of_nat n /\
    (1 <= n -> Typing.textContent st' = EmptyString).
Proof.
  intros Hs (Hi & Hc & Hd & Hp).
  assert (H : exists st',
             Typing.fires strings ts ds ps n st = Normal st' /\
             Typing.stringIndex st' = i /\ Typing.isDeleting st' = false /\
             Typing.charIndex st' = Z.of_nat n /\
             (1 <= n -> Typing.textContent st' = EmptyString) /\
             (exists h d, Typing.pending st' = [(h, d)])).
  { induction n as [| n IH].
    - exists st. repeat split; try assumption. lia.
    - destruct IH as (st1 & E1 & Hi1 & Hd1 & Hc1 & _ & Hp1).
      destruct (fire_empty_word strings ts ds ps i st1 Hs Hi1 Hd1)
        as (st2 & E2 & Hi2 & Hd2 & Hc2 & Ht2 & h2 & Hp2);
        [lia | exact Hp1 |].
      exists st2. rewrite fires_snoc, E1.
      split; [exact E2 |]. split; [exact Hi2 |]. split; [exact Hd2 |].
      split; [lia |]. split; [intros _; exact Ht2 |].
      eexists _, _. exact Hp2. }
  destruct H as (st' & E & H1 & H2 & H3 & H4 & _).
  exists st'. repeat split; assumption.
Qed.

Lemma X21_empty_word_stalls_witness :
  exists st',
    Typing.fires ["Hi"; ""; "Yo"] 80 50 2000 5
      (Typing.mkState "" 1 0 false (Some 7) 7 [(7, 400%Z)]) = Normal st' /\
    Typing.stringIndex st' = 1 /\ Typing.charIndex st' = 5%Z.
Proof.
  assert (Hat : Typing.at_word
                  (Typing.mkState "" 1 0 false (Some 7) 7 [(7, 400%Z)]) 1).
  { repeat split. eexists _, _. reflexivity. }
  destruct (X21_empty_word_stalls ["Hi"; ""; "Yo"] 80 50 2000 1 _ 5 eq_refl Hat)
    as (st' & E & Hi & _ & Hc & _).
  exists st'. repeat split; assumption.
Defined.

Lemma dispatch_idle strings ts ds ps ev st :
  Typing.pending st = [] ->
  Typing.dispatch strings ts ds ps ev st = Normal st.
Proof.
  intros Hp. destruct ev as [h |]; cbn [Typing.dispatch].
  - rewrite Hp. reflexivity.
  - destruct st as [t si c del [h |] iss pend]; cbn in Hp; subst pend;
      reflexivity.
Qed.

Lemma run_idle strings ts ds ps evs : forall st,
  Typing.pending st = [] -> Typing.run strings ts ds ps evs st = st.
Proof.
  induction evs as [| ev rest IH]; intros st Hp; [reflexivity |].
  cbn [Typing.run fold_left]. rewrite dispatch_idle by exact Hp.
  apply IH, Hp.
Qed.

(** X22: the function returned by [initTypingEffect] stops nothing when it
    is called before the first tick, because the handle of the initial
    1200 ms timer is never stored: the state is unchanged, the timer still
    fires, the first character appears and the next tick is scheduled. *)
Theorem X22_early_cleanup_cancels_nothing strings ts ds ps text issued0 st0 s m :
  Typing.initTypingEffect (Some text) issued0 = Some st0 ->
  strings !! 0 = Some s ->
  Typing.run strings ts ds ps (repeat Typing.Cleanup m) st0 = st0 /\
  exists st1 h d,
    Typing.dispatch strings ts ds ps (Typing.TimerFires (S issued0)) st0
    = Normal st1 /\
    Typing.textContent st1 = Typing.substring0 1 s /\
    Typing.pending st1 = [(h, d)].
Proof.
  intros Hinit Hs. injection Hinit as <-. split.
  - induction m as [| m IH]; [reflexivity |].
    cbn [repeat Typing.run fold_left Typing.dispatch Typing.timeout
         Typing.clearTimeout state_of].
    exact IH.
  - cbn [Typing.dispatch Typing.pending existsb fst]. rewrite Nat.eqb_refl.
    cbn [orb]. unfold Typing.tick, Typing.clearTimeout.
    cbn [Typing.stringIndex Typing.charIndex Typing.isDeleting Typing.issued
         Typing.pending Typing.timeout Typing.textContent List.filter fst].
    rewrite Nat.eqb_refl, Hs. cbn [negb app].
    eexists _, _, _. split; [reflexivity |]. split; reflexivity.
Qed.

Lemma X22_early_cleanup_cancels_nothing_witness :
  exists st1 h d,
    Typing.dispatch ["Hi"] 80 50 2000 (Typing.TimerFires 1)
      (Typing.mkState "" 0 0 false None 1 [(1, 1200%Z)]) = Normal st1 /\
    Typing.textContent st1 = "H" /\
    Typing.pending st1 = [(h, d)].
Proof.
  exact (proj2 (X22_early_cleanup_cancels_nothing ["Hi"] 80 50 2000 "" 0 _ "Hi"
                  1 eq_refl eq_refl)).
Defined.

(** X23: once a tick has run, the returned function does stop the effect:
    it clears the one pending timer, and after that no timer event and no
    further call changes the element or schedules anything. *)
Theorem X23_cleanup_after_tick_stops strings ts ds ps st h d evs :
  Typing.pending st = [(h, d)] ->
  Typing.timeout st = Some h ->
  let st' := Typing.run strings ts ds ps (Typing.Cleanup :: evs) st in
  Typing.pending st' = [] /\
  Typing.textContent st' = Typing.textContent st /\
  Typing.stringIndex st' = Typing.stringIndex st /\
  Typing.charIndex st' = Typing.charIndex st.
Proof.
  intros Hp Ht st'. subst st'.
  cbn [Typing.run fold_left Typing.dispatch state_of].
  set (st1 := Typing.clearTimeout _ _).
  assert (Hp1 : Typing.pending st1 = []).
  { unfold st1, Typing.clearTimeout. rewrite Ht, Hp.
    cbn [Typing.pending List.filter fst]. rewrite Nat.eqb_refl. reflexivity. }
  pose proof (run_idle strings ts ds ps evs st1 Hp1) as E.
  unfold Typing.run in E. rewrite E.
  split; [exact Hp1 |].
  unfold st1, Typing.clearTimeout. rewrite Ht. repeat split.
Qed.

Lemma X23_cleanup_after_tick_stops_witness :
  let st := Typing.mkState "H" 0 1 false (Some 2) 2 [(2, 80%Z)] in
  let st' := Typing.run ["Hi"] 80 50 2000
               [Typing.Cleanup; Typing.TimerFires 2; Typing.Cleanup] st in
  Typing.pending st' = [] /\ Typing.textContent st' = "H".
Proof.
  intros st st'.
  destruct (X23_cleanup_after_tick_stops ["Hi"] 80 50 2000 st 2 80%Z
              [Typing.TimerFires 2; Typing.Cleanup] eq_refl eq_refl)
    as (Hp & Ht & _).
  split; [exact Hp | exact Ht].
Defined.

(** X24: with an empty list of strings the first tick throws a TypeError
    before it writes or schedules anything, so the element keeps its text
    for ever. *)
Theorem X24_empty_list_dies_at_first_tick ts ds ps text issued0 st0 evs :
  Typing.initTypingEffect (Some text) issued0 = Some st0 ->
  is_Normal (Typing.fire [] ts ds ps st0) = false /\
  let st := Typing.run [] ts ds ps (Typing.TimerFires (S issued0) :: evs) st0 in
  Typing.textContent st = text /\ Typing.pending st = [].
Proof.
  intros Hinit. injection Hinit as <-. split.
  - unfold Typing.fire. cbn [Typing.pending Typing.dispatch existsb fst].
    rewrite Nat.eqb_refl. reflexivity.
  - cbn [Typing.run fold_left Typing.dispatch Typing.pending existsb fst].
    rewrite Nat.eqb_refl. cbn [orb].
    unfold Typing.tick, Typing.clearTimeout.
    cbn [Typing.stringIndex Typing.charIndex Typing.isDeleting Typing.issued
         Typing.pending Typing.timeout Typing.textContent List.filter fst].
    rewrite Nat.eqb_refl, lookup_nil. cbn [negb state_of].
    set (st1 := Typing.mkState _ _ _ _ _ _ _).
    pose proof (run_idle [] ts ds ps evs st1 eq_refl) as E.
    unfold Typing.run in E. rewrite E. split; reflexivity.
Qed.

Lemma X24_empty_list_dies_at_first_tick_witness :
  let st := Typing.run [] 80 50 2000 [Typing.TimerFires 1; Typing.TimerFires 2]
              (Typing.mkState "old" 0 0 false None 1 [(1, 1200%Z)]) in
  Typing.textContent st = "old" /\ Typing.pending st = [].
Proof.
  exact (proj2 (X24_empty_list_dies_at_first_tick 80 50 2000 "old" 0 _
                  [Typing.TimerFires 2] eq_refl)).
Defined.


(** * main.js *)

(** ** The matcher decides the language *)

Lemma nullable_lang r : Main.nullable r = true <-> Main.lang r [].
Proof.
  split.
  - induction r as [| | p | r1 IH1 r2 IH2 | r1 IH1 r2 IH2 | r IH]; cbn;
      intros H; try discriminate.
    + constructor.
    + apply andb_prop in H as [H1 H2].
      change (@nil N) with (@nil N ++ []). constructor; auto.
    + apply orb_prop in H as [H | H];
        [apply Main.lang_Alt_l | apply Main.lang_Alt_r]; auto.
    + constructor.
  - intros H. remember (@nil N) as s eqn:Es.
    induction H as [| p c Hc | r1 r2 s1 s2 _ IH1 _ IH2 | r1 r2 s _ IH
                    | r1 r2 s _ IH | r | r s1 s2 _ _ _ _]; cbn;
      try reflexivity; try discriminate.
    + apply app_eq_nil in Es as [-> ->]. rewrite IH1, IH2; reflexivity.
    + rewrite IH by exact Es. reflexivity.
    + rewrite IH by exact Es. apply orb_true_r.
Qed.

Lemma lang_deriv r s' :
  Main.lang r s' -> forall c s, s' = c :: s -> Main.lang (Main.deriv c r) s.
Proof.
  induction 1 as [| p c0 Hc | r1 r2 s1 s2 H1 IH1 H2 IH2 | r1 r2 s0 _ IH
                  | r1 r2 s0 _ IH | r | r s1 s2 H1 IH1 H2 IH2];
    intros c s Es; cbn [Main.deriv].
  - discriminate.
  - injection Es as -> <-. rewrite Hc. constructor.
  - destruct s1 as [| c1 s1'].
    + cbn in Es. subst s2.
      assert (Hn : Main.nullable r1 = true) by (apply nullable_lang, H1).
      rewrite Hn. apply Main.lang_Alt_r. apply IH2. reflexivity.
    + cbn in Es. injection Es as -> <-.
      assert (Hs : Main.lang (Main.Seq (Main.deriv c r1) r2) (s1' ++ s2))
        by (constructor; [apply IH1; reflexivity | exact H2]).
      destruct (Main.nullable r1); [apply Main.lang_Alt_l |]; exact Hs.
  - apply Main.lang_Alt_l. apply IH, Es.
  - apply Main.lang_Alt_r. apply IH, Es.
  - discriminate.
  - destruct s1 as [| c1 s1'].
    + cbn in Es. apply (IH2 c s Es).
    + cbn in Es. injection Es as -> <-.
      constructor; [apply IH1; reflexivity | exact H2].
Qed.

Lemma deriv_lang c r : forall s,
  Main.lang (Main.deriv c r) s -> Main.lang r (c :: s).
Proof.
  induction r as [| | p | r1 IH1 r2 IH2 | r1 IH1 r2 IH2 | r IH]; intros s H;
    cbn [Main.deriv] in H.
  - inversion H.
  - inversion H.
  - destruct (p c) eqn:Hp; inversion H; subst. constructor. exact Hp.
  - assert (Hseq : forall s, Main.lang (Main.Seq (Main.deriv c r1) r2) s ->
                             Main.lang (Main.Seq r1 r2) (c :: s)).
    { intros s0 H0. inversion H0 as [| | ? ? s1 s2 Ha Hb | | | |]; subst.
      change (c :: s1 ++ s2) with ((c :: s1) ++ s2).
      constructor; [apply IH1, Ha | exact Hb]. }
    destruct (Main.nullable r1) eqn:Hn; [| apply Hseq, H].
    inversion H as [| | | ? ? ? Ha | ? ? ? Hb | |]; subst; [apply Hseq, Ha |].
    change (c :: s) with ([] ++ c :: s).
    constructor; [apply nullable_lang, Hn | apply IH2, Hb].
  - inversion H; subst;
      [apply Main.lang_Alt_l, IH1 | apply Main.lang_Alt_r, IH2]; assumption.
  - inversion H as [| | ? ? s1 s2 Ha Hb | | | |]; subst.
    change (c :: s1 ++ s2) with ((c :: s1) ++ s2).
    constructor; [apply IH, Ha | exact Hb].
Qed.

Lemma test_lang s : forall r, Main.test r s = true <-> Main.lang r s.
Proof.
  unfold Main.test. induction s as [| c s IH]; intros r; cbn [fold_left].
  - apply nullable_lang.
  - rewrite IH. split; [apply deriv_lang |].
    intros H. eapply lang_deriv; [exact H | reflexivity].
Qed.

Lemma lang_Seq_inv r1 r2 s :
  Main.lang (Main.Seq r1 r2) s <->
  exists s1 s2, s = s1 ++ s2 /\ Main.lang r1 s1 /\ Main.lang r2 s2.
Proof.
  split.
  - intros H. inversion H; subst. eexists _, _. repeat split; assumption.
  - intros (s1 & s2 & -> & H1 & H2). constructor; assumption.
Qed.

Lemma lang_Class_inv p s :
  Main.lang (Main.Class p) s <-> exists c, s = [c] /\ p c = true.
Proof.
  split.
  - intros H. inversion H; subst. eexists. split; [reflexivity | assumption].
  - intros (c & -> & Hc). constructor. exact Hc.
Qed.

Lemma lang_Star_Class p s :
  Main.lang (Main.Star (Main.Class p)) s <-> Forall (fun c => p c = true) s.
Proof.
  split.
  - intros H. remember (Main.Star (Main.Class p)) as r eqn:Er.
    induction H as [| | | | | r0 | r0 s1 s2 H1 _ _ IH2]; try discriminate;
      [constructor |].
    injection Er as ->. apply Forall_app. split; [| apply IH2; reflexivity].
    inversion H1; subst. constructor; [assumption | constructor].
  - induction 1 as [| c s Hc _ IH]; [constructor |].
    change (c :: s) with ([c] ++ s). constructor; [| exact IH].
    constructor. exact Hc.
Qed.

Lemma lang_Plus_Class p s :
  Main.lang (Main.Plus (Main.Class p)) s <->
  s <> [] /\ Forall (fun c => p c = true) s.
Proof.
  unfold Main.Plus. rewrite lang_Seq_inv. split.
  - intros (s1 & s2 & -> & H1 & H2).
    apply lang_Class_inv in H1 as (c & -> & Hc).
    apply lang_Star_Class in H2. split; [discriminate |].
    constructor; assumption.
  - intros [Hne H]. destruct H as [| c s Hc Hs]; [congruence |].
    exists [c], s. split; [reflexivity |].
    split; [constructor; exact Hc | apply lang_Star_Class, Hs].
Qed.

Lemma not_space_at_plain c : Main.not_space_at c = true <-> Main.plain c.
Proof.
  unfold Main.not_space_at, Main.plain.
  rewrite andb_true_iff, !negb_true_iff, N.eqb_neq. reflexivity.
Qed.

Lemma Forall_plain s :
  Forall (fun c => Main.not_space_at c = true) s <-> Forall Main.plain s.
Proof.
  split; intros H; (eapply Forall_impl; [exact H |]); intros c Hc;
    apply not_space_at_plain; exact Hc.
Qed.

Lemma email_pattern_lang s :
  Main.lang Main.email_pattern s <-> Main.well_formed s.
Proof.
  unfold Main.email_pattern, Main.well_formed. split.
  - intros H.
    apply lang_Seq_inv in H as (a & s1 & -> & Ha & H).
    apply lang_Seq_inv in H as (at_ & s2 & -> & Hat & H).
    apply lang_Seq_inv in H as (b & s3 & -> & Hb & H).
    apply lang_Seq_inv in H as (dot & c & -> & Hdot & Hc).
    apply lang_Class_inv in Hat as (x & -> & Hx). apply N.eqb_eq in Hx as <-.
    apply lang_Class_inv in Hdot as (y & -> & Hy). apply N.eqb_eq in Hy as <-.
    apply lang_Plus_Class in Ha as [Ha1 Ha2], Hb as [Hb1 Hb2], Hc as [Hc1 Hc2].
    apply Forall_plain in Ha2, Hb2, Hc2.
    exists a, (b ++ 46%N :: c), (length b).
    split; [reflexivity |]. split; [exact Ha1 |]. split; [exact Ha2 |].
    split.
    { apply Forall_app. split; [exact Hb2 |].
      constructor; [| exact Hc2]. split; [reflexivity | discriminate]. }
    split; [destruct b; [congruence | cbn; lia] |].
    split; [rewrite length_app; destruct c; [congruence | cbn; lia] |].
    rewrite lookup_app_r by lia. rewrite Nat.sub_diag. reflexivity.
  - intros (l & d & i & -> & Hl & Hpl & Hpd & Hi0 & Hi1 & Hdot).
    apply lang_Seq_inv. exists l, (64%N :: d). split; [reflexivity |].
    split; [apply lang_Plus_Class; split; [exact Hl | apply Forall_plain, Hpl] |].
    apply lang_Seq_inv. exists [64%N], d. split; [reflexivity |].
    split; [constructor; reflexivity |].
    apply lang_Seq_inv. exists (take i d), (46%N :: drop (S i) d).
    split; [symmetry; apply take_drop_middle, Hdot |].
    split.
    { apply lang_Plus_Class. split.
      - intros E. apply (f_equal length) in E. rewrite length_take in E.
        cbn in E. lia.
      - apply Forall_plain, Forall_take, Hpd. }
    apply lang_Seq_inv. exists [46%N], (drop (S i) d). split; [reflexivity |].
    split; [constructor; reflexivity |].
    apply lang_Plus_Class. split.
    + intros E. apply (f_equal length) in E. rewrite length_drop in E.
      cbn in E. lia.
    + apply Forall_plain, Forall_drop, Hpd.
Qed.

(** X25: the e-mail pattern accepts exactly the strings made of a
    non-empty local part, one at sign and a domain that has a dot which is
    neither its first nor its last code unit, with no whitespace and no
    other at sign anywhere.  Any accepted address therefore has exactly
    one at sign; dots may stand anywhere else, also next to each other. *)
Theorem X25_email_pattern_accepts s :
  (Main.test Main.email_pattern s = true <-> Main.well_formed s) /\
  (Main.test Main.email_pattern s = true ->
   Forall (fun c => Main.is_space c = false) s /\
   length (List.filter (N.eqb 64) s) = 1).
Proof.
  assert (Hiff : Main.test Main.email_pattern s = true <-> Main.well_formed s).
  { rewrite test_lang. apply email_pattern_lang. }
  split; [exact Hiff |].
  intros H. apply Hiff in H as (l & d & i & -> & _ & Hpl & Hpd & _).
  assert (Hnone : forall t, Forall Main.plain t -> List.filter (N.eqb 64) t = []).
  { induction 1 as [| c t [_ Hc] _ IH]; [reflexivity |].
    cbn [List.filter]. rewrite IH.
    destruct (N.eqb_spec 64 c); [congruence | reflexivity]. }
  split.
  - apply Forall_app. split; [eapply Forall_impl; [exact Hpl |]; intros c [H _]; exact H |].
    constructor; [reflexivity |].
    eapply Forall_impl; [exact Hpd |]. intros c [H _]. exact H.
  - rewrite List.filter_app. cbn [List.filter]. rewrite N.eqb_refl.
    rewrite (Hnone l Hpl), (Hnone d Hpd). reflexivity.
Qed.

Lemma X25_email_pattern_accepts_witness :
  Main.well_formed [97; 64; 98; 46; 46; 99]%N /\
  Main.test Main.email_pattern [97; 64; 98; 46; 46; 99]%N = true /\
  length (List.filter (N.eqb 64) [97; 64; 98; 46; 46; 99]%N) = 1.
Proof.
  assert (Hw : Main.well_formed [97; 64; 98; 46; 46; 99]%N).
  { exists [97%N], [98; 46; 46; 99]%N, 1.
    repeat split; try discriminate; try lia;
      repeat constructor; discriminate. }
  destruct (X25_email_pattern_accepts [97; 64; 98; 46; 46; 99]%N) as [Hiff Hc].
  split; [exact Hw |]. split; [apply Hiff, Hw |].
  apply Hc, Hiff, Hw.
Defined.


(** ** The submit listener *)

Lemma trimStart_nil s :
  Main.trimStart s = [] <-> Forall (fun c => Main.is_space c = true) s.
Proof.
  induction s as [| c s IH]; cbn [Main.trimStart].
  - split; [constructor | reflexivity].
  - destruct (Main.is_space c) eqn:Hc.
    + rewrite IH. split; [intros H; constructor; assumption |].
      intros H. inversion H; assumption.
    + split; [discriminate |]. intros H. inversion H; congruence.
Qed.

Lemma trimStart_head s c rest :
  Main.trimStart s = c :: rest -> Main.is_space c = false.
Proof.
  induction s as [| c0 s IH]; cbn [Main.trimStart]; [discriminate |].
  destruct (Main.is_space c0) eqn:Hc; [exact IH |].
  intros [= -> _]. exact Hc.
Qed.

Lemma trim_nil s :
  Main.trim s = [] <-> Forall (fun c => Main.is_space c = true) s.
Proof.
  unfold Main.trim. rewrite <- trimStart_nil. split.
  - intros H. apply (f_equal (@rev N)) in H. rewrite rev_involutive in H.
    cbn in H. apply trimStart_nil in H.
    destruct (Main.trimStart s) as [| c rest] eqn:E; [reflexivity |].
    apply trimStart_head in E.
    apply Forall_rev in H. rewrite rev_involutive in H.
    inversion H; congruence.
  - intros ->. reflexivity.
Qed.

Lemma trim_ink s : Main.trim s <> [] <-> Main.has_ink s.
Proof.
  rewrite trim_nil. unfold Main.has_ink. split.
  - intros H. apply not_Forall_Exists in H; [| intros c; apply bool_dec].
    eapply Exists_impl; [exact H |]. intros c Hc. cbn in Hc.
    destruct (Main.is_space c); [exfalso; apply Hc; reflexivity | reflexivity].
  - intros H Hall. apply Exists_exists in H as (c & Hin & Hc).
    rewrite Forall_forall in Hall. specialize (Hall c Hin). congruence.
Qed.

Lemma showFormStatus_error msg pg :
  Main.showFormStatus msg "error" pg =
  match Main.formStatus pg with
  | None => pg
  | Some _ =>
      Main.setTimeout Main.ClearStatus 5000
        (Main.set_status msg "form-status error" pg)
  end.
Proof. reflexivity. Qed.

Lemma showFormStatus_plain msg pg :
  Main.showFormStatus msg "" pg =
  match Main.formStatus pg with
  | None => pg
  | Some _ => Main.set_status msg "form-status" pg
  end.
Proof. reflexivity. Qed.

Lemma submit_cases pg :
  (acceptable pg /\
   Main.submit pg
   = Main.setTimeout Main.Succeed 1500
       (Main.showFormStatus "Transmitting…" "" pg)) \/
  (~ acceptable pg /\
   exists msg, Main.submit pg = Main.showFormStatus msg "error" pg).
Proof.
  unfold Main.submit, acceptable.
  destruct (Main.trim (Main.name pg)) as [| n0 n] eqn:En.
  { right. split; [| eexists; reflexivity].
    intros (H & _). apply trim_ink in H. congruence. }
  destruct (Main.trim (Main.email pg)) as [| e0 e] eqn:Ee.
  { right. split; [| eexists; reflexivity].
    intros (_ & _ & (l & d & i & H & _)). destruct l; discriminate. }
  destruct (Main.trim (Main.message pg)) as [| m0 m] eqn:Em.
  { right. split; [| eexists; reflexivity].
    intros (_ & H & _). apply trim_ink in H. congruence. }
  destruct (Main.test Main.email_pattern (e0 :: e)) eqn:Et.
  - left. split; [| reflexivity].
    split; [apply trim_ink; congruence |].
    split; [apply trim_ink; congruence |].
    apply email_pattern_lang, test_lang, Et.
  - right. split; [| eexists; reflexivity].
    intros (_ & _ & H). apply email_pattern_lang, test_lang in H. congruence.
Qed.

(** X26: the submit listener accepts a submission exactly when the name
    and the message contain something other than whitespace and the
    e-mail field, stripped of surrounding whitespace, is a well-formed
    address.  Only then the success timer (1500 ms) is set and the status
    reads "Transmitting…"; otherwise the status shows an error that clears
    itself after 5000 ms.  Submitting never changes the fields. *)
Theorem X26_submit_accepts_iff_valid pg :
  let pg' := Main.submit pg in
  (acceptable pg <->
   exists h, Main.timers pg' = Main.timers pg ++ [Main.mkTimer h 1500 Main.Succeed]) /\
  (acceptable pg -> Main.formStatus pg <> None ->
   Main.formStatus pg' = Some ("Transmitting…", "form-status")) /\
  (~ acceptable pg -> Main.formStatus pg <> None ->
   exists msg h,
     Main.formStatus pg' = Some (msg, "form-status error") /\
     Main.timers pg'
     = Main.timers pg ++ [Main.mkTimer h 5000 Main.ClearStatus]) /\
  (Main.name pg', Main.email pg', Main.message pg', Main.resets pg')
  = (Main.name pg, Main.email pg, Main.message pg, Main.resets pg).
Proof.
  intros pg'. subst pg'.
  destruct (submit_cases pg) as [[Hacc ->] | [Hrej [msg ->]]].
  - rewrite showFormStatus_plain. split; [| split; [| split]].
    + split; [| intros _; exact Hacc]. intros _.
      destruct (Main.formStatus pg); eexists; reflexivity.
    + intros _ Hs. destruct (Main.formStatus pg); [reflexivity | congruence].
    + intros H. contradiction.
    + destruct (Main.formStatus pg); reflexivity.
  - rewrite showFormStatus_error. split; [| split; [| split]].
    + split; [intros H; contradiction |]. intros [h Ht]. exfalso.
      destruct (Main.formStatus pg); cbn in Ht.
      * apply app_inv_head in Ht. discriminate.
      * rewrite <- (app_nil_r (Main.timers pg)) in Ht at 1.
        apply app_inv_head in Ht. discriminate.
    + intros H. contradiction.
    + intros _ Hs. destruct (Main.formStatus pg); [| congruence].
      eexists _, _. split; reflexivity.
    + destruct (Main.formStatus pg); reflexivity.
Qed.

Lemma X26_submit_accepts_iff_valid_witness :
  let pg := Main.mkPage [32; 65]%N [97; 64; 98; 46; 99; 32]%N [72; 105]%N
              (Some (EmptyString, "form-status")) [] 0 0 in
  acceptable pg /\
  Main.formStatus (Main.submit pg)
  = Some ("Transmitting…", "form-status").
Proof.
  intros pg.
  assert (Hacc : acceptable pg).
  { split; [right; left; reflexivity |]. split; [left; reflexivity |].
    exists [97%N], [98; 46; 99]%N, 1.
    repeat split; try discriminate; try (cbn; lia);
      repeat constructor; discriminate. }
  split; [exact Hacc |].
  destruct (X26_submit_accepts_iff_valid pg) as (_ & H & _).
  apply H; [exact Hacc | discriminate].
Defined.


(** ** Status timers *)

Lemma keeps_timers_refl pg : keeps_timers pg pg.
Proof. intros H. split; [exact H | auto]. Qed.

Lemma keeps_timers_trans pg1 pg2 pg3 :
  keeps_timers pg1 pg2 -> keeps_timers pg2 pg3 -> keeps_timers pg1 pg3.
Proof.
  intros H12 H23 H1. destruct (H12 H1) as [H2 K12].
  destruct (H23 H2) as [H3 K23]. split; [exact H3 | auto].
Qed.

Lemma setTimeout_keeps a d pg : keeps_timers pg (Main.setTimeout a d pg).
Proof.
  intros [Hle Hnd]. unfold timers_ok, Main.setTimeout. cbn. split.
  - split.
    + apply Forall_app. split.
      * eapply Forall_impl; [exact Hle |]. intros t Ht. cbn in Ht. lia.
      * constructor; [cbn; lia | constructor].
    + rewrite map_app. apply NoDup_app. split; [exact Hnd |]. split.
      * intros x Hx Hx'. apply list_elem_of_fmap in Hx as (t & -> & Hin).
        rewrite Forall_forall in Hle. specialize (Hle t Hin).
        cbn in Hx'. apply list_elem_of_singleton in Hx'. lia.
      * cbn. apply NoDup_singleton.
  - intros t Ht. apply elem_of_app. left. exact Ht.
Qed.

Lemma set_status_keeps text cls pg : keeps_timers pg (Main.set_status text cls pg).
Proof. intros H. split; [exact H | auto]. Qed.

Lemma showFormStatus_keeps msg type pg :
  keeps_timers pg (Main.showFormStatus msg type pg).
Proof.
  unfold Main.showFormStatus. destruct (Main.formStatus pg);
    [| apply keeps_timers_refl].
  destruct (String.eqb type ""); [apply set_status_keeps |].
  eapply keeps_timers_trans; [apply set_status_keeps | apply setTimeout_keeps].
Qed.

Lemma submit_keeps pg : keeps_timers pg (Main.submit pg).
Proof.
  unfold Main.submit.
  destruct (Main.trim (Main.name pg)), (Main.trim (Main.email pg)),
    (Main.trim (Main.message pg)); try apply showFormStatus_keeps.
  destruct (Main.test _ _); [| apply showFormStatus_keeps].
  eapply keeps_timers_trans; [apply showFormStatus_keeps | apply setTimeout_keeps].
Qed.

Lemma callback_keeps defaults a pg :
  keeps_timers pg (Main.callback defaults a pg).
Proof.
  destruct a; cbn [Main.callback]; [| apply set_status_keeps].
  eapply keeps_timers_trans; [apply showFormStatus_keeps |].
  intros H. split; [exact H | auto].
Qed.

Lemma drop_timer_keeps h pg :
  timers_ok pg ->
  timers_ok (Main.drop_timer h pg) /\
  forall t, t ∈ Main.timers pg -> Main.t_handle t <> h ->
            t ∈ Main.timers (Main.drop_timer h pg).
Proof.
  intros [Hle Hnd]. unfold timers_ok, Main.drop_timer. cbn. split.
  - split.
    + apply Forall_forall. intros t Ht.
      apply list_elem_of_In, filter_In in Ht as [Ht _].
      rewrite Forall_forall in Hle. apply Hle, list_elem_of_In, Ht.
    + clear Hle. induction (Main.timers pg) as [| t ts IH]; [constructor |].
      cbn in Hnd. apply NoDup_cons in Hnd as [Hn Hnd].
      cbn [List.filter]. destruct (negb _); [| apply IH, Hnd].
      cbn. apply NoDup_cons. split; [| apply IH, Hnd].
      intros Hin. apply Hn.
      apply list_elem_of_fmap in Hin as (t' & E & Hin).
      apply list_elem_of_In, filter_In in Hin as [Hin _].
      apply list_elem_of_fmap. exists t'. split; [exact E |].
      apply list_elem_of_In, Hin.
  - intros t Ht Hne. apply list_elem_of_In, filter_In.
    split; [apply list_elem_of_In, Ht |].
    apply negb_true_iff, Nat.eqb_neq, Hne.
Qed.

Lemma dispatch_keeps defaults ev pg t :
  timers_ok pg -> t ∈ Main.timers pg ->
  ev <> Main.TimerFires (Main.t_handle t) ->
  timers_ok (Main.dispatch defaults ev pg) /\
  t ∈ Main.timers (Main.dispatch defaults ev pg).
Proof.
  intros Hok Ht Hev. destruct ev as [n e m | | h]; cbn [Main.dispatch].
  - split; [exact Hok | exact Ht].
  - destruct (submit_keeps pg Hok) as [H K]. split; [exact H | apply K, Ht].
  - destruct (List.find _ _) as [t' |]; [| split; assumption].
    destruct (drop_timer_keeps h pg Hok) as [H1 K1].
    destruct (callback_keeps defaults (Main.t_action t') _ H1) as [H2 K2].
    split; [exact H2 |]. apply K2, K1; [exact Ht | congruence].
Qed.

Lemma find_timer ts t :
  NoDup (map Main.t_handle ts) -> t ∈ ts ->
  List.find (fun t' => Nat.eqb (Main.t_handle t') (Main.t_handle t)) ts = Some t.
Proof.
  induction ts as [| t0 ts IH]; intros Hnd Hin; [inversion Hin |].
  cbn in Hnd. apply NoDup_cons in Hnd as [Hn Hnd]. cbn [List.find].
  apply elem_of_cons in Hin as [-> | Hin].
  - rewrite Nat.eqb_refl. reflexivity.
  - destruct (Nat.eqb_spec (Main.t_handle t0) (Main.t_handle t)) as [E | E];
      [| apply IH; assumption].
    exfalso. apply Hn. rewrite E. apply list_elem_of_fmap.
    exists t. split; [reflexivity | exact Hin].
Qed.

(** X27: showing a new status never cancels the clear timer of an older
    one.  A pending five-second timer survives every later edit,
    submission and timer callback, and when it fires it empties the status
    element, whichever message is shown by then: a "Transmitting…" or a
    success message that follows an error within five seconds is wiped
    early. *)
Theorem X27_stale_clear_timer_wipes_status defaults pg h d evs :
  timers_ok pg ->
  Main.mkTimer h d Main.ClearStatus ∈ Main.timers pg ->
  Forall (fun ev => ev <> Main.TimerFires h) evs ->
  let pg' := Main.run defaults evs pg in
  Main.mkTimer h d Main.ClearStatus ∈ Main.timers pg' /\
  Main.formStatus (Main.dispatch defaults (Main.TimerFires h) pg')
  = Some (EmptyString, "form-status").
Proof.
  intros Hok Hin Hevs pg'. subst pg'.
  assert (H : timers_ok (Main.run defaults evs pg) /\
              Main.mkTimer h d Main.ClearStatus
                ∈ Main.timers (Main.run defaults evs pg)).
  { revert pg Hok Hin. induction Hevs as [| ev rest Hev _ IH]; intros pg Hok Hin;
      [split; assumption |].
    cbn [Main.run fold_left].
    destruct (dispatch_keeps defaults ev pg _ Hok Hin Hev) as [Hok' Hin'].
    apply IH; assumption. }
  destruct H as [[_ Hnd] Hin']. split; [exact Hin' |].
  cbn [Main.dispatch].
  pose proof (find_timer _ _ Hnd Hin') as E. cbn [Main.t_handle] in E.
  rewrite E. reflexivity.
Qed.

Lemma X27_stale_clear_timer_wipes_status_witness :
  let pg := Main.mkPage [] [] [] (Some ("Please fill in all fields.",
                                        "form-status error"))
              [Main.mkTimer 1 5000 Main.ClearStatus] 1 0 in
  let evs := [Main.Edit [65]%N [97; 64; 98; 46; 99]%N [72]%N; Main.Submit] in
  Main.formStatus (Main.run ([], [], []) evs pg)
  = Some ("Transmitting…", "form-status") /\
  Main.formStatus
    (Main.dispatch ([], [], []) (Main.TimerFires 1)
       (Main.run ([], [], []) evs pg))
  = Some (EmptyString, "form-status").
Proof.
  intros pg evs. split; [vm_compute; reflexivity |].
  assert (Hok : timers_ok pg).
  { split; [repeat constructor |]. cbn. apply NoDup_singleton. }
  assert (Hin : Main.mkTimer 1 5000 Main.ClearStatus ∈ Main.timers pg)
    by (cbn; left).
  assert (Hevs : Forall (fun ev => ev <> Main.TimerFires 1) evs)
    by (repeat constructor; discriminate).
  exact (proj2 (X27_stale_clear_timer_wipes_status ([], [], []) pg 1 5000 evs
                  Hok Hin Hevs)).
Defined.


(** ** The cursor ring *)

(** X28: while the pointer rests, every frame leaves the cursor ring 85%
    of the distance it had to the pointer, along each axis: after [n]
    frames the gap is 0.85^n of the original one, so the ring approaches
    the pointer from its side and never passes it. *)
Theorem X28_ring_closes_gap c n :
  let c' := Nat.iter n Main.animateRing c in
  Main.mouseX c' = Main.mouseX c /\ Main.mouseY c' = Main.mouseY c /\
  (Main.mouseX c' - Main.ringX c' = 0.85 ^ n * (Main.mouseX c - Main.ringX c))%R /\
  (Main.mouseY c' - Main.ringY c' = 0.85 ^ n * (Main.mouseY c - Main.ringY c))%R /\
  (Main.ringX c <= Main.mouseX c ->
   Main.ringX c <= Main.ringX c' <= Main.mouseX c)%R.
Proof.
  induction n as [| n IH]; intros c'; subst c'.
  - change (Nat.iter 0 Main.animateRing c) with c. cbn [pow].
    repeat split; lra.
  - change (Nat.iter (S n) Main.animateRing c)
      with (Main.animateRing (Nat.iter n Main.animateRing c)).
    cbn zeta in IH. destruct IH as (Hx & Hy & Gx & Gy & Hb).
    set (c1 := Nat.iter n Main.animateRing c) in *.
    cbn [Main.animateRing Main.mouseX Main.mouseY Main.ringX Main.ringY pow].
    split; [exact Hx |]. split; [exact Hy |].
    assert (Hp : (0 <= 0.85 ^ n)%R) by (apply pow_le; lra).
    split; [| split]; [nra | nra |].
    intros Hle. specialize (Hb Hle). rewrite Hx in *. nra.
Qed.

Lemma X28_ring_closes_gap_witness :
  let c := Main.mkCursor 100 50 0 0 in
  (Main.ringX c <= Main.ringX (Nat.iter 2 Main.animateRing c)
   <= Main.mouseX c)%R.
Proof.
  intros c.
  destruct (X28_ring_closes_gap c 2) as (_ & _ & _ & _ & H).
  apply H. cbn. lra.
Defined.


(** * animations.js: the skill diagram *)

Lemma diagram_edges_known :
  forallb (fun e : string * string =>
             bool_decide (is_Some (Diagram.nodeEls !! e.1))
             && bool_decide (is_Some (Diagram.nodeEls !! e.2)))
    Diagram.diagramEdges = true.
Proof. vm_compute. reflexivity. Qed.

Lemma drawLines_length c r :
  length (Diagram.drawLines c r) = 10.
Proof.
  unfold Diagram.drawLines.
  pose proof diagram_edges_known as H. rewrite forallb_forall in H.
  assert (Hlen : forall es,
             (forall e, In e es ->
                bool_decide (is_Some (Diagram.nodeEls !! e.1))
                && bool_decide (is_Some (Diagram.nodeEls !! e.2)) = true) ->
             length (omap (Diagram.drawLine c r) es) = length es).
  { induction es as [| e es IH]; intros Hes; [reflexivity |].
    cbn [omap list_omap]. 
    pose proof (Hes e (or_introl eq_refl)) as He.
    apply andb_prop in He as [H1 H2].
    apply bool_decide_eq_true in H1 as [a Ha], H2 as [b Hb].
    unfold Diagram.drawLine at 1. rewrite Ha, Hb. cbn [length].
    f_equal. apply IH. intros e' He'. apply Hes. right. exact He'. }
  rewrite (Hlen _ H). reflexivity.
Qed.

Lemma diagram_state evs :
  let st := Diagram.run evs (Diagram.initSkillDiagram true) in
  let k := length (List.filter (fun ev => negb (Diagram.is_resize ev)) evs) in
  Diagram.listening st = true /\
  Diagram.framesSeen st = Nat.min 2 k /\
  length (Diagram.svg st) = if Diagram.drawn evs then 10 else 0.
Proof.
  induction evs as [| ev evs IH] using rev_ind; [repeat split |].
  cbn zeta in *. destruct IH as (Hl & Hf & Hs).
  unfold Diagram.run in *. rewrite fold_left_app. cbn [fold_left].
  set (st := fold_left _ evs _) in *.
  unfold Diagram.drawn in *. rewrite existsb_app, List.filter_app, length_app.
  set (k := length (List.filter _ evs)) in *.
  unfold Diagram.dispatch. rewrite Hl.
  destruct ev as [c r | c r]; cbn [Diagram.is_resize existsb List.filter negb
                                     length orb].
  - rewrite orb_false_r.
    destruct k as [| [| k]]; cbn [Nat.min] in Hf; rewrite Hf;
      cbn [Diagram.listening Diagram.framesSeen Diagram.svg].
    + split; [reflexivity |]. split; [reflexivity |]. exact Hs.
    + split; [reflexivity |]. split; [reflexivity |].
      rewrite drawLines_length, orb_true_r. reflexivity.
    + split; [exact Hl |]. split; [rewrite Hf; cbn; lia |].
      rewrite Hs.
      replace (2 <=? S (S k)) with true by (symmetry; apply Nat.leb_le; lia).
      replace (2 <=? S (S k) + 1) with true by (symmetry; apply Nat.leb_le; lia).
      reflexivity.
  - cbn [Diagram.listening Diagram.framesSeen Diagram.svg].
    split; [reflexivity |]. split; [rewrite Nat.add_0_r; exact Hf |].
    rewrite drawLines_length, orb_true_r. reflexivity.
Qed.

(** X29: the skill diagram shows no line until [drawLines] has run, which
    takes a window resize or the second animation frame, and exactly ten
    lines ever after: every run empties the SVG first and all ten edges of
    the table name known nodes, so resizes never pile lines up.  Without
    the container element there is never any line. *)
Theorem X29_diagram_has_ten_lines evs :
  let st := Diagram.run evs (Diagram.initSkillDiagram true) in
  length (Diagram.svg st) = (if Diagram.drawn evs then 10 else 0) /\
  length (Diagram.svg (Diagram.run evs (Diagram.initSkillDiagram false))) = 0.
Proof.
  split; [apply diagram_state |].
  assert (H : Diagram.run evs (Diagram.initSkillDiagram false)
              = Diagram.initSkillDiagram false).
  { induction evs as [| ev evs IH] using rev_ind; [reflexivity |].
    unfold Diagram.run in *. rewrite fold_left_app, IH. reflexivity. }
  rewrite H. reflexivity.
Qed.
